(** * winlog-mcp: channel guard, XPath filter validator, query limits and
      crash-signal classification

    A shallow embedding of the security core of winlog-mcp
    (src/types.ts, src/security/channel-guard.ts,
    src/security/xpath-validator.ts, src/eventlog/powershell-reader.ts)
    and of its tool handlers (src/server/tools.ts), together with the
    properties its specification states about it (Part II) and further
    properties of the code (Part III).

    Conventions of the embedding
    - a JavaScript string is the list of its UTF-16 code units ([jsstring]),
      so that [length] is [String.prototype.length] and equality is [===];
    - a value of TypeScript type [unknown] is a [JsValue];
    - a function that can [throw] returns a [result], the thrown object
      being a [Thrown] whose constructors carry the arguments given to the
      JavaScript constructor;
    - JavaScript numbers that the program uses as counts, identifiers and
      millisecond instants are integers of [Z]. *)

From Stdlib Require Import List Bool Arith ZArith NArith Lia.
From Stdlib Require Import String Ascii DecimalString.
From Stdlib Require Import Permutation Sorted Btauto.
Import ListNotations.

(* ================================================================== *)
(** * Part I. The embedding                                            *)
(* ================================================================== *)

(** ** JavaScript strings and values *)

Definition jsstring : Type := list N.

(** [js "abc"] is the JavaScript string literal ['abc'] (ASCII only). *)
Definition js (s : string) : jsstring :=
  map N_of_ascii (list_ascii_of_string s).

Definition jsstring_eqb (a b : jsstring) : bool :=
  if list_eq_dec N.eq_dec a b then true else false.

(** [Array.prototype.join] on strings. *)
Fixpoint join (sep : jsstring) (l : list jsstring) : jsstring :=
  match l with
  | [] => []
  | [x] => x
  | x :: r => x ++ sep ++ join sep r
  end.

(** [Array.prototype.includes] on an array of strings. *)
Definition includes_str (l : list jsstring) (x : jsstring) : bool :=
  existsb (jsstring_eqb x) l.

(** Decimal rendering of an integer, as in a template literal. *)
Definition Number_toString (z : Z) : jsstring :=
  js (NilZero.string_of_int (Z.to_int z)).

(** ** Exceptions *)

(** What is thrown: an error of one of the classes of the program or of
    the language, or any other value ([OtherThrown], with its text), as a
    method of an argument may throw. *)
Inductive Thrown : Type :=
| ChannelNotAllowedError (channel : jsstring)
| XPathValidationError (message : jsstring) (details : list jsstring)
| XPathComplexityError (message : jsstring)
| Error (message : jsstring)
| RangeError (message : jsstring)
| TypeError (message : jsstring)
| OtherThrown (shown : jsstring).

Inductive result (A : Type) : Type :=
| Ok (a : A)
| Throw (e : Thrown).

Arguments Ok {A} a.
Arguments Throw {A} e.

(** Values of type [unknown].  Of a value that is no primitive of the
    first five kinds (an object, a function, a symbol, a bigint) the
    program uses only what [String(o)] does with it, and [VObject]
    carries that: the text that it yields, or what it throws, which is a
    TypeError for an object that has neither a usable [toString] nor a
    usable [valueOf] (as [Object.create(null)]), and otherwise what these
    methods throw themselves. *)
Inductive JsValue : Type :=
| VUndefined
| VNull
| VBoolean (b : bool)
| VNumber (z : Z)
| VString (s : jsstring)
| VObject (shown : result jsstring).

(** [String(v)]. *)
Definition String_ (v : JsValue) : result jsstring :=
  match v with
  | VUndefined => Ok (js "undefined")
  | VNull => Ok (js "null")
  | VBoolean true => Ok (js "true")
  | VBoolean false => Ok (js "false")
  | VNumber z => Ok (Number_toString z)
  | VString s => Ok s
  | VObject shown => shown
  end.

Definition bind {A B : Type} (r : result A) (k : A -> result B) : result B :=
  match r with
  | Ok a => k a
  | Throw e => Throw e
  end.

Notation "'do' x <- r ;; k" := (bind r (fun x => k))
  (at level 10, x name, r at level 100, k at level 200).

(** ** src/types.ts *)

Definition ALLOWED_CHANNELS : list jsstring := [js "System"; js "Application"].

Record Config : Type := mkConfig {
  maxEventsPerQuery : Z;
  maxTimeRangeHours : Z;
  queryTimeoutMs : Z;
  xpathMaxLength : Z
}.

Definition DEFAULT_CONFIG : Config :=
  {| maxEventsPerQuery := 1000;
     maxTimeRangeHours := 168;
     queryTimeoutMs := 30000;
     xpathMaxLength := 500 |}.

(** ** src/security/channel-guard.ts *)

(** The [message] and [allowedChannels] members of the error object. *)
Definition ChannelNotAllowedError_message (channel : jsstring) : jsstring :=
  js "Channel '" ++ channel ++ js "' is not in the allowed list. Allowed: "
     ++ join (js ", ") ALLOWED_CHANNELS.

Definition ChannelNotAllowedError_allowedChannels : list jsstring :=
  ALLOWED_CHANNELS.

Definition validateChannel (channel : JsValue) : result jsstring :=
  match channel with
  | VString s =>
      if (List.length s =? 0)%nat then Throw (ChannelNotAllowedError (js "(empty)"))
      else if negb (includes_str ALLOWED_CHANNELS s)
           then Throw (ChannelNotAllowedError s)
           else Ok s
  | other =>
      do shown <- String_ other ;;
      Throw (ChannelNotAllowedError shown)
  end.

Definition isChannelAllowed (channel : JsValue) : bool :=
  match channel with
  | VString s => includes_str ALLOWED_CHANNELS s
  | _ => false
  end.

Definition getAllowedChannels : list jsstring := ALLOWED_CHANNELS.

(** ** Character classes of ECMAScript regular expressions *)

(** Code unit of an ASCII character literal. *)
Definition ch (a : ascii) : N := N_of_ascii a.

(** The double quote, U+0022. *)
Definition dquote : N := 34%N.

Definition in_range (lo hi c : N) : bool := ((lo <=? c) && (c <=? hi))%N.

(** WhiteSpace and LineTerminator of ECMA-262: the set matched by [\s] and
    the set removed by [String.prototype.trim]. *)
Definition is_space (c : N) : bool :=
  in_range 9 13 c || (c =? 32)%N || (c =? 160)%N || (c =? 5760)%N
  || in_range 8192 8202 c || (c =? 8232)%N || (c =? 8233)%N
  || (c =? 8239)%N || (c =? 8287)%N || (c =? 12288)%N || (c =? 65279)%N.

(** [\d] and [\w]. *)
Definition is_digit (c : N) : bool := in_range 48 57 c.

Definition is_word (c : N) : bool :=
  in_range 97 122 c || in_range 65 90 c || is_digit c || (c =? 95)%N.

(** Canonicalize of ECMA-262 22.2.5.6 for a pattern without the [u] flag.
    With [ignoreCase] an ASCII letter is mapped to its upper case.  A code
    unit from 128 on is canonicalized to a code unit from 128 on again
    (step 6 of Canonicalize), so it can never meet an ASCII pattern
    character; every pattern character of this program is ASCII, hence
    only the ASCII part of the folding is observable and other code units
    are left alone. *)
Definition Canonicalize (ignoreCase : bool) (c : N) : N :=
  if ignoreCase && in_range 97 122 c then (c - 32)%N else c.

(** Members of a character class. *)
Inductive atom : Type :=
| Chr (c : N)      (* a pattern character, escaped or not *)
| ESpace           (* \s *)
| EWord            (* \w *)
| EDigit.          (* \d *)

Definition atom_match (i : bool) (a : atom) (c : N) : bool :=
  match a with
  | Chr p => (Canonicalize i p =? Canonicalize i c)%N
  | ESpace => is_space c
  | EWord => is_word c
  | EDigit => is_digit c
  end.

(** Matchers of exactly one code unit: an atom, or a bracket expression
    [[...]] / [[^...]]. *)
Inductive cset : Type :=
| One (a : atom)
| Bracket (negated : bool) (members : list atom).

Definition cset_match (i : bool) (k : cset) (c : N) : bool :=
  match k with
  | One a => atom_match i a c
  | Bracket negated members =>
      xorb negated (existsb (fun a => atom_match i a c) members)
  end.

(** ** A backtracking matcher for the regular expressions of the program *)

Inductive ritem : Type :=
| Bos               (* ^  without the m flag *)
| Eos               (* $  without the m flag *)
| WordB             (* \b *)
| Lit (k : cset)    (* one code unit *)
| Star (k : cset).  (* k*, and k+ is [Lit k; Star k] *)

Definition is_word_opt (o : option N) : bool :=
  match o with
  | Some c => is_word c
  | None => false
  end.

Definition is_none {A : Type} (o : option A) : bool :=
  match o with
  | Some _ => false
  | None => true
  end.

(** The greedy loop of [k*]: one more repetition first, the rest of the
    pattern ([cont]) otherwise. *)
Fixpoint star_loop (k : N -> bool) (cont : option N -> jsstring -> bool)
         (prev : option N) (s : jsstring) {struct s} : bool :=
  match s with
  | c :: t =>
      if k c
      then if star_loop k cont (Some c) t then true else cont prev s
      else cont prev s
  | [] => cont prev s
  end.

(** [match_here i items prev s]: does the sequence [items] match a prefix
    of [s], the code unit before [s] in the subject being [prev]? *)
Fixpoint match_here (i : bool) (items : list ritem) (prev : option N)
         (s : jsstring) {struct items} : bool :=
  match items with
  | [] => true
  | Bos :: r => if is_none prev then match_here i r prev s else false
  | Eos :: r => if is_none (hd_error s) then match_here i r prev s else false
  | WordB :: r =>
      if xorb (is_word_opt prev) (is_word_opt (hd_error s))
      then match_here i r prev s else false
  | Lit k :: r =>
      match s with
      | c :: t => if cset_match i k c then match_here i r (Some c) t else false
      | [] => false
      end
  | Star k :: r => star_loop (cset_match i k) (match_here i r) prev s
  end.

(** A match may start at any index of the subject. *)
Fixpoint search (i : bool) (items : list ritem) (prev : option N)
         (s : jsstring) {struct s} : bool :=
  if match_here i items prev s then true
  else match s with
       | c :: t => search i items (Some c) t
       | [] => false
       end.

Record RegExp : Type := mkRegExp {
  source : jsstring;
  ignoreCase : bool;
  body : list ritem
}.

(** [RegExp.prototype.test] (no [g] or [y] flag, hence no state). *)
Definition RegExp_test (re : RegExp) (s : jsstring) : bool :=
  search (ignoreCase re) (body re) None s.

(** The pattern characters of a literal word. *)
Definition lits (w : string) : list ritem :=
  map (fun a => Lit (One (Chr (N_of_ascii a)))) (list_ascii_of_string w).

(** ** String.prototype.trim *)

Fixpoint trimStart (s : jsstring) : jsstring :=
  match s with
  | c :: t => if is_space c then trimStart t else s
  | [] => []
  end.

Definition trimEnd (s : jsstring) : jsstring := rev (trimStart (rev s)).

Definition trim (s : jsstring) : jsstring := trimEnd (trimStart s).

(** ** src/security/xpath-validator.ts *)

(** [/\bNAME\s*\(/i] *)
Definition call_pattern (name : string) : RegExp :=
  {| source := js "\b" ++ js name ++ js "\s*\(";
     ignoreCase := true;
     body := WordB :: lits name ++ [Star (One ESpace); Lit (One (Chr (ch "(")))] |}.

(** [/\bNAME\s*::/i] *)
Definition axis_pattern (name : string) : RegExp :=
  {| source := js "\b" ++ js name ++ js "\s*::";
     ignoreCase := true;
     body := WordB :: lits name
             ++ [Star (One ESpace); Lit (One (Chr (ch ":")));
                 Lit (One (Chr (ch ":")))] |}.

Definition BLOCKED_PATTERNS : list RegExp :=
  [ (* External document access (XXE risk) *)
    call_pattern "document"; call_pattern "doc";
    (* Function calls that could be exploited *)
    call_pattern "concat"; call_pattern "string"; call_pattern "substring";
    call_pattern "translate"; call_pattern "normalize-space";
    call_pattern "contains"; call_pattern "starts-with";
    call_pattern "string-length"; call_pattern "count"; call_pattern "sum";
    call_pattern "floor"; call_pattern "ceiling"; call_pattern "round";
    call_pattern "true"; call_pattern "false"; call_pattern "not";
    call_pattern "boolean"; call_pattern "number"; call_pattern "id";
    call_pattern "name"; call_pattern "local-name";
    call_pattern "namespace-uri";
    (* Variable references: /\$\w+/ *)
    {| source := js "\$\w+"; ignoreCase := false;
       body := [Lit (One (Chr (ch "$"))); Lit (One EWord); Star (One EWord)] |};
    (* Axis specifiers that could traverse unexpectedly *)
    axis_pattern "namespace"; axis_pattern "preceding";
    axis_pattern "following"; axis_pattern "preceding-sibling";
    axis_pattern "following-sibling"; axis_pattern "ancestor";
    axis_pattern "descendant"; axis_pattern "ancestor-or-self";
    axis_pattern "descendant-or-self";
    (* Parent traversal: /\.\./ *)
    {| source := js "\.\."; ignoreCase := false; body := lits ".." |};
    (* Comments and processing instructions *)
    call_pattern "comment"; call_pattern "processing-instruction";
    call_pattern "text"; call_pattern "node";
    (* Potential injection markers *)
    (* a single or double quote, then \s*\]\s*\[ : quote followed by ][ *)
    {| source := js "['" ++ [dquote] ++ js "]\s*\]\s*\[";
       ignoreCase := false;
       body := [Lit (Bracket false [Chr (ch "'"); Chr dquote]);
                Star (One ESpace); Lit (One (Chr (ch "]")));
                Star (One ESpace); Lit (One (Chr (ch "[")))] |};
    (* /--/ : SQL-style comment *)
    {| source := js "--"; ignoreCase := false; body := lits "--" |};
    (* /\/\*/ : C-style comment start *)
    {| source := js "\/\*"; ignoreCase := false; body := lits "/*" |} ].

(** The members of the bracket expression of ALLOWED_STRUCTURE, in the
    order of the source. *)
Definition ALLOWED_MEMBERS : list atom :=
  [ESpace; Chr (ch "*"); Chr (ch "["); Chr (ch "]"); Chr (ch "/");
   Chr (ch "("); Chr (ch ")"); Chr (ch "@"); EWord; Chr (ch "-");
   Chr (ch "."); Chr (ch "="); Chr (ch "<"); Chr (ch ">"); Chr (ch "!");
   Chr (ch "'"); Chr dquote; Chr (ch ":"); EDigit; ESpace; Chr (ch ",")].

(** The anchored expression [^[...]+$] over the bracket expression above. *)
Definition ALLOWED_STRUCTURE : RegExp :=
  {| source := js "^[\s\*\[\]\/\(\)@\w\-\.=<>!'" ++ [dquote] ++ js ":\d\s,]+$";
     ignoreCase := false;
     body := [Bos; Lit (Bracket false ALLOWED_MEMBERS);
              Star (Bracket false ALLOWED_MEMBERS); Eos] |}.

(** The loop that collects the descriptions of the matching patterns. *)
Fixpoint collectViolations (patterns : list RegExp) (trimmed : jsstring)
         (violations : list jsstring) : list jsstring :=
  match patterns with
  | [] => violations
  | pattern :: rest =>
      collectViolations rest trimmed
        (if RegExp_test pattern trimmed
         then violations ++ [js "Blocked pattern: " ++ source pattern]
         else violations)
  end.

(** The loop over the characters of the trimmed filter.  [for ... of]
    walks code points; a bracket is a single code unit and no half of a
    surrogate pair, so walking code units visits the same brackets. *)
Fixpoint bracketScan (s : jsstring) (depth maxSeenDepth : Z)
  : result (Z * Z) :=
  match s with
  | [] => Ok (depth, maxSeenDepth)
  | char :: rest =>
      let '(depth1, maxSeen1) :=
        if (char =? ch "[")%N
        then ((depth + 1)%Z, Z.max maxSeenDepth (depth + 1))
        else if (char =? ch "]")%N then ((depth - 1)%Z, maxSeenDepth)
        else (depth, maxSeenDepth) in
      if (depth1 <? 0)%Z
      then Throw (XPathValidationError (js "Unbalanced brackets in XPath") [])
      else bracketScan rest depth1 maxSeen1
  end.

(** [(trimmed.match(/\[/g) || []).length] *)
Definition predicateCount (trimmed : jsstring) : Z :=
  Z.of_nat (List.length (filter (fun c => (c =? ch "[")%N) trimmed)).

Definition validateXPath (xpath : JsValue) (config : Config)
  : result (option jsstring) :=
  match xpath with
  | VNull | VUndefined => Ok None
  | VString s =>
      let trimmed := trim s in
      if (List.length trimmed =? 0)%nat then Ok None
      else if (Z.of_nat (List.length trimmed) >? xpathMaxLength config)%Z
      then Throw (XPathComplexityError
                    (js "XPath exceeds maximum length of "
                        ++ Number_toString (xpathMaxLength config)
                        ++ js " characters"))
      else
        let violations := collectViolations BLOCKED_PATTERNS trimmed [] in
        if (0 <? List.length violations)%nat
        then Throw (XPathValidationError
                      (js "XPath contains blocked constructs") violations)
        else if negb (RegExp_test ALLOWED_STRUCTURE trimmed)
        then Throw (XPathValidationError
                      (js "XPath contains disallowed characters") [])
        else
          let maxDepth := 5%Z in
          do scan <- bracketScan trimmed 0 0 ;;
          let '(depth, maxSeenDepth) := scan in
          if negb (depth =? 0)%Z
          then Throw (XPathValidationError
                        (js "Unbalanced brackets in XPath") [])
          else if (maxSeenDepth >? maxDepth)%Z
          then Throw (XPathComplexityError
                        (js "XPath exceeds maximum nesting depth of "
                            ++ Number_toString maxDepth))
          else
            let maxPredicates := 10%Z in
            if (predicateCount trimmed >? maxPredicates)%Z
            then Throw (XPathComplexityError
                          (js "XPath exceeds maximum predicate count of "
                              ++ Number_toString maxPredicates))
            else Ok (Some trimmed)
  | _ => Throw (XPathValidationError (js "XPath must be a string") [])
  end.

(** Four digits, a hyphen, two digits, ... at the start of the subject. *)
Definition startsWithIsoShape_items : list ritem :=
  let d := Lit (One EDigit) in
  let c x := Lit (One (Chr x)) in
  [Bos; d; d; d; d; c (ch "-"); d; d; c (ch "-"); d; d; c (ch "T");
   d; d; c (ch ":"); d; d; c (ch ":"); d; d].

(** [/^\d{4}-\d{2}-\d{2}T\d{2}:\d{2}:\d{2}/] *)
Definition ISO_SHAPE : RegExp :=
  {| source := js "^\d{4}-\d{2}-\d{2}T\d{2}:\d{2}:\d{2}";
     ignoreCase := false;
     body := startsWithIsoShape_items |}.

(** A string is truthy when it is not empty. *)
Definition truthy (o : option jsstring) : option jsstring :=
  match o with
  | Some ((_ :: _) as s) => Some s
  | _ => None
  end.

Definition buildTimeRangeXPath (startTime endTime : option jsstring)
  : result (option jsstring) :=
  do conditions1 <-
     match truthy startTime with
     | Some st =>
         if negb (RegExp_test ISO_SHAPE st)
         then Throw (XPathValidationError
                       (js "Invalid startTime format, expected ISO 8601") [])
         else Ok [js "TimeCreated[@SystemTime>='" ++ st ++ js "']"]
     | None => Ok []
     end ;;
  do conditions2 <-
     match truthy endTime with
     | Some et =>
         if negb (RegExp_test ISO_SHAPE et)
         then Throw (XPathValidationError
                       (js "Invalid endTime format, expected ISO 8601") [])
         else Ok (conditions1 ++ [js "TimeCreated[@SystemTime<='" ++ et ++ js "']"])
     | None => Ok conditions1
     end ;;
  if (List.length conditions2 =? 0)%nat then Ok None
  else Ok (Some (js "*[System[" ++ join (js " and ") conditions2 ++ js "]]")).

Definition combineXPathFilters (filters : list (option jsstring))
  : option jsstring :=
  let validFilters :=
    filter (fun f => match f with
                     | Some s => (0 <? List.length s)%nat
                     | None => false
                     end) filters in
  if (List.length validFilters =? 0)%nat then None
  else if (List.length validFilters =? 1)%nat then nth 0 validFilters None
  else
    (* For Windows Event Log, we need to wrap in proper structure.
       This is a simplified combination. *)
    nth 0 validFilters None.

(** ** Matching with a capture: String.prototype.match *)

(** The matcher in continuation-passing style, as in ECMA-262 22.2.2: the
    alternatives are tried in the order of the specification (a greedy
    star first tries one more repetition), and the first success wins. *)
Fixpoint star_exec {A : Type} (k : N -> bool)
         (cont : option N -> jsstring -> option A)
         (prev : option N) (s : jsstring) {struct s} : option A :=
  match s with
  | c :: t =>
      if k c
      then match star_exec k cont (Some c) t with
           | Some a => Some a
           | None => cont prev s
           end
      else cont prev s
  | [] => cont prev s
  end.

Fixpoint exec_here {A : Type} (i : bool) (items : list ritem)
         (prev : option N) (s : jsstring)
         (k : option N -> jsstring -> option A) {struct items} : option A :=
  match items with
  | [] => k prev s
  | Bos :: r => if is_none prev then exec_here i r prev s k else None
  | Eos :: r => if is_none (hd_error s) then exec_here i r prev s k else None
  | WordB :: r =>
      if xorb (is_word_opt prev) (is_word_opt (hd_error s))
      then exec_here i r prev s k else None
  | Lit c :: r =>
      match s with
      | c0 :: t => if cset_match i c c0 then exec_here i r (Some c0) t k
                   else None
      | [] => None
      end
  | Star c :: r =>
      star_exec (cset_match i c) (fun p t => exec_here i r p t k) prev s
  end.

(** A regular expression [/before(group)/] whose only capturing group is
    at its end. *)
Record RegExp1 : Type := mkRegExp1 {
  ignoreCase1 : bool;
  before : list ritem;
  group : list ritem
}.

(** The capture of the match that starts here, if there is one. *)
Definition capture_here (re : RegExp1) (prev : option N) (s : jsstring)
  : option jsstring :=
  exec_here (ignoreCase1 re) (before re) prev s
    (fun p1 s1 =>
       exec_here (ignoreCase1 re) (group re) p1 s1
         (fun _ s2 => Some (firstn (List.length s1 - List.length s2) s1))).

(** [s.match(re)] for a [re] without the [g] flag: the leftmost match;
    the result is [m[1]], and [None] stands for [null]. *)
Fixpoint String_match1 (re : RegExp1) (prev : option N) (s : jsstring)
  : option jsstring :=
  match capture_here re prev s with
  | Some cap => Some cap
  | None =>
      match s with
      | c :: t => String_match1 re (Some c) t
      | [] => None
      end
  end.

(** [String.prototype.includes] *)
Fixpoint startsWith (s sub : jsstring) : bool :=
  match sub, s with
  | [], _ => true
  | _ :: _, [] => false
  | x :: sub', y :: s' => (x =? y)%N && startsWith s' sub'
  end.

Fixpoint includes (s sub : jsstring) : bool :=
  startsWith s sub
  || match s with
     | _ :: t => includes t sub
     | [] => false
     end.

(** [String.prototype.replace(/'/g, "''")] *)
Definition escapePowerShellString (str : jsstring) : jsstring :=
  flat_map (fun c => if (c =? ch "'")%N then [ch "'"; ch "'"] else [c]) str.

(** ** Date: the time value of an instant is its number of milliseconds
    since the epoch *)

Definition msPerDay : Z := 86400000.

(** Year, month and day of a day number (days since 1970-01-01) in the
    proleptic Gregorian calendar. *)
Definition civil_from_days (days : Z) : Z * Z * Z :=
  let z := (days + 719468)%Z in
  let era := (z / 146097)%Z in
  let doe := (z - era * 146097)%Z in
  let yoe := ((doe - doe / 1460 + doe / 36524 - doe / 146096) / 365)%Z in
  let doy := (doe - (365 * yoe + yoe / 4 - yoe / 100))%Z in
  let mp := ((5 * doy + 2) / 153)%Z in
  let d := (doy - (153 * mp + 2) / 5 + 1)%Z in
  let m := (if mp <? 10 then mp + 3 else mp - 9)%Z in
  let y := (yoe + era * 400 + (if m <=? 2 then 1 else 0))%Z in
  (y, m, d).

(** The last [width] decimal digits of a natural number, zero padded. *)
Fixpoint pad (width : nat) (n : Z) : jsstring :=
  match width with
  | O => []
  | S w => pad w (n / 10) ++ [(48 + Z.to_N (n mod 10))%N]
  end.

(** [Date.prototype.toISOString]; a RangeError for an invalid date. *)
Definition toISOString (t : Z) : result jsstring :=
  if (8640000000000000 <? Z.abs t)%Z
  then Throw (RangeError (js "Invalid time value"))
  else
    let '(y, m, d) := civil_from_days (t / msPerDay) in
    let ms := (t mod msPerDay)%Z in
    let year :=
      if ((0 <=? y) && (y <=? 9999))%Z then pad 4 y
      else (if (y <? 0)%Z then js "-" else js "+") ++ pad 6 (Z.abs y) in
    Ok (year ++ js "-" ++ pad 2 m ++ js "-" ++ pad 2 d ++ js "T"
             ++ pad 2 (ms / 3600000) ++ js ":" ++ pad 2 (ms / 60000 mod 60)
             ++ js ":" ++ pad 2 (ms / 1000 mod 60) ++ js "."
             ++ pad 3 (ms mod 1000) ++ js "Z").

(** ** Event records (src/types.ts) *)

Module EventLevel.
Inductive t : Type := Critical | Error | Warning | Information | Verbose.
End EventLevel.

Module Severity.
Inductive t : Type := Critical | High | Medium.
End Severity.

Record EventRecord : Type := mkEventRecord {
  recordId : Z;
  eventId : Z;
  level : EventLevel.t;
  timeCreated : jsstring;
  provider : jsstring;
  message : jsstring;
  computer : jsstring;
  channel : jsstring;
  userId : option jsstring;
  task : option Z;
  opcode : option Z;
  keywords : option jsstring
}.

Record CrashSignal : Type := mkCrashSignal {
  event : EventRecord;
  crashType : jsstring;
  severity : Severity.t;
  faultingApplication : option jsstring;
  faultingModule : option jsstring
}.

(** ** src/eventlog/powershell-reader.ts *)

Record RawPowerShellEvent : Type := mkRaw {
  RecordId : Z;
  Id : Z;
  Level : Z;
  LevelDisplayName : option jsstring;
  TimeCreated : jsstring;
  ProviderName : jsstring;
  Message : option jsstring;
  MachineName : jsstring;
  LogName : jsstring;
  UserId : option jsstring;
  Task : option Z;
  Opcode : option Z;
  Keywords : option jsstring
}.

(** What [JSON.parse] of the output of PowerShell can be. *)
Inductive PsOutput : Type :=
| PsArray (events : list RawPowerShellEvent)
| PsSingle (ev : RawPowerShellEvent)
| PsNull.

(** [Array.prototype.sort] with a comparison function.  The sort of
    ECMA-262 is stable, and for a consistent comparison function its
    result is determined: it is the one of a stable insertion sort.  A
    NaN from the comparison function counts as +0. *)
Section Sort.
Context {A : Type}.
Variable compareFn : A -> A -> option Z.

Definition comesAfter (a b : A) : bool :=
  match compareFn a b with
  | Some v => (0 <? v)%Z
  | None => false
  end.

Fixpoint insertSorted (a : A) (l : list A) : list A :=
  match l with
  | [] => [a]
  | b :: r => if comesAfter a b then b :: insertSorted a r else a :: l
  end.

Fixpoint Array_sort (l : list A) : list A :=
  match l with
  | [] => []
  | a :: r => insertSorted a (Array_sort r)
  end.
End Sort.

(** The environment of the program: the library functions whose tables are
    not part of the program, and the PowerShell process.
    - [toLowerCase] is [String.prototype.toLowerCase];
    - [Date_parse s] is [new Date(s).getTime()], [None] standing for NaN;
    - [executePowerShell st script timeoutMs] runs a script in state [st]
      of the machine and resolves or rejects. *)
Class Host : Type := mkHost {
  toLowerCase : jsstring -> jsstring;
  Date_parse : jsstring -> option Z;
  SourceState : Type;
  executePowerShell :
    SourceState -> jsstring -> Z -> SourceState * result PsOutput
}.

Section Reader.
Context {host : Host}.

Definition mapLevel (level : Z) (displayName : option jsstring)
  : EventLevel.t :=
  let byNumber :=
    if (level =? 1)%Z then EventLevel.Critical
    else if (level =? 2)%Z then EventLevel.Error
    else if (level =? 3)%Z then EventLevel.Warning
    else if (level =? 4)%Z then EventLevel.Information
    else if (level =? 5)%Z then EventLevel.Verbose
    else EventLevel.Information in
  match truthy displayName with
  | Some name =>
      let normalized := toLowerCase name in
      if jsstring_eqb normalized (js "critical") then EventLevel.Critical
      else if jsstring_eqb normalized (js "error") then EventLevel.Error
      else if jsstring_eqb normalized (js "warning") then EventLevel.Warning
      else if jsstring_eqb normalized (js "information")
              || jsstring_eqb normalized (js "info")
           then EventLevel.Information
      else if jsstring_eqb normalized (js "verbose") then EventLevel.Verbose
      else byNumber
  | None => byNumber
  end.

Definition parseEvent (raw : RawPowerShellEvent) : EventRecord :=
  {| recordId := RecordId raw;
     eventId := Id raw;
     level := mapLevel (Level raw) (LevelDisplayName raw);
     timeCreated := TimeCreated raw;
     provider := ProviderName raw;
     message := match truthy (Message raw) with Some m => m | None => [] end;
     computer := MachineName raw;
     channel := LogName raw;
     userId := UserId raw;
     task := Task raw;
     opcode := Opcode raw;
     keywords := Keywords raw |}.

Record QueryOptions : Type := mkQueryOptions {
  xpath : option jsstring;
  startTime : option jsstring;
  endTime : option jsstring;
  maxEvents : option Z
}.

(** Lines 195-198 of queryEvents: the clamp of the result cap. *)
Definition clampMaxEvents (requested : option Z) (config : Config) : Z :=
  Z.min (Z.max 1 (match requested with Some m => m | None => 100%Z end))
        (maxEventsPerQuery config).

(** The fixed tail of the script: query and format output. *)
Definition QUERY_TEMPLATE : jsstring := js "
try {
  $events = Get-WinEvent -FilterHashtable $filter -MaxEvents $maxEvents -ErrorAction Stop
  $events | ForEach-Object {
    [PSCustomObject]@{
      RecordId = $_.RecordId
      Id = $_.Id
      Level = $_.Level
      LevelDisplayName = $_.LevelDisplayName
      TimeCreated = $_.TimeCreated.ToString('o')
      ProviderName = $_.ProviderName
      Message = $_.Message
      MachineName = $_.MachineName
      LogName = $_.LogName
      UserId = if ($_.UserId) { $_.UserId.ToString() } else { $null }
      Task = $_.Task
      Opcode = $_.Opcode
      Keywords = $_.KeywordsDisplayNames -join ', '
    }
  } | ConvertTo-Json -Depth 3 -Compress
} catch [System.Exception] {
  if ($_.Exception.Message -match 'No events were found') {
    Write-Output '[]'
  } else {
    throw
  }
}
".

(** Lines 216-230 of queryEvents: one time bound of the filter table,
    [name] being the name of the option and [key] the key of the table. *)
Definition timeFilter (name key : string) (time : option jsstring)
  : result (list jsstring) :=
  match truthy time with
  | Some s =>
      match Date_parse s with
      | None => Throw (Error (js "Invalid " ++ js name ++ js " format"))
      | Some t =>
          do iso <- toISOString t ;;
          Ok [js "$filter['" ++ js key ++ js "'] = [DateTime]'" ++ iso ++ js "'"]
      end
  | None => Ok []
  end.

(** The script of queryEvents, or what it throws before running it. *)
Definition queryScript (channel : jsstring) (options : QueryOptions)
           (config : Config) : result jsstring :=
  do validChannel <- validateChannel (VString channel) ;;
  do validXPath <- validateXPath (match xpath options with
                                  | Some x => VString x
                                  | None => VUndefined
                                  end) config ;;
  let maxEvents := clampMaxEvents (maxEvents options) config in
  let scriptParts :=
    [js "$ErrorActionPreference = " ++ [dquote] ++ js "Stop" ++ [dquote];
     js "$logName = '" ++ escapePowerShellString validChannel ++ js "'";
     js "$maxEvents = " ++ Number_toString maxEvents]
    ++ match truthy validXPath with
       | Some x =>
           [js "$filterXPath = '" ++ escapePowerShellString x ++ js "'";
            js "$filter = @{ LogName = $logName; FilterXPath = $filterXPath }"]
       | None => [js "$filter = @{ LogName = $logName }"]
       end in
  do startPart <- timeFilter "startTime" "StartTime" (startTime options) ;;
  do endPart <- timeFilter "endTime" "EndTime" (endTime options) ;;
  Ok (join [10%N] (scriptParts ++ startPart ++ endPart ++ [QUERY_TEMPLATE])).

Definition eventsArray (rawEvents : PsOutput) : list RawPowerShellEvent :=
  match rawEvents with
  | PsArray l => l
  | PsSingle e => [e]
  | PsNull => []
  end.

Definition queryEvents (st : SourceState) (channel : jsstring)
           (options : QueryOptions) (config : Config)
  : SourceState * result (list EventRecord) :=
  match queryScript channel options config with
  | Throw e => (st, Throw e)
  | Ok script =>
      let '(st1, rawEvents) := executePowerShell st script (queryTimeoutMs config) in
      (st1, do raw <- rawEvents ;; Ok (map parseEvent (eventsArray raw)))
  end.

(** *** Crash signal detection *)

Record CrashPattern : Type := mkCrashPattern {
  providers : list jsstring;
  eventIds : list Z
}.

(** [Object.entries(CRASH_PATTERNS)]: the keys are not array indices, so
    the entries come in the order of the object literal. *)
Definition CRASH_PATTERNS : list (jsstring * CrashPattern) :=
  [ (js "ApplicationCrash",
     {| providers := [js "Application Error"; js "Windows Error Reporting"];
        eventIds := [1000; 1001]%Z |});
    (js "ApplicationHang",
     {| providers := [js "Application Hang"]; eventIds := [1002]%Z |});
    (js "SystemCrash",
     {| providers := [js "Microsoft-Windows-WER-SystemErrorReporting";
                      js "BugCheck"];
        eventIds := [1001; 1]%Z |});
    (js "ServiceFailure",
     {| providers := [js "Service Control Manager"];
        eventIds := [7031; 7034; 7024]%Z |});
    (js "WHEA",
     {| providers := [js "Microsoft-Windows-WHEA-Logger"];
        eventIds := [17; 18; 19; 47]%Z |}) ].

(** The class [[^\r\n,]] and the two extraction rules
    [/Faulting application name:\s*([^\r\n,]+)/i] and
    [/Faulting module name:\s*([^\r\n,]+)/i]. *)
Definition FIELD_CHARS : cset := Bracket true [Chr 13%N; Chr 10%N; Chr (ch ",")].

Definition field_rule (label : string) : RegExp1 :=
  {| ignoreCase1 := true;
     before := lits label ++ [Star (One ESpace)];
     group := [Lit FIELD_CHARS; Star FIELD_CHARS] |}.

Definition APP_RULE : RegExp1 := field_rule "Faulting application name:".
Definition MODULE_RULE : RegExp1 := field_rule "Faulting module name:".

Definition extractField (rule : RegExp1) (message : jsstring)
  : option jsstring :=
  match String_match1 rule None message with
  | Some m1 => Some (trim m1)
  | None => None
  end.

Definition providerMatch (pattern : CrashPattern) (event : EventRecord) : bool :=
  existsb (fun p => includes (toLowerCase (provider event)) (toLowerCase p))
          (providers pattern).

Definition eventIdMatch (pattern : CrashPattern) (event : EventRecord) : bool :=
  existsb (Z.eqb (eventId event)) (eventIds pattern).

Definition severityOf (crashType : jsstring) : Severity.t :=
  if jsstring_eqb crashType (js "SystemCrash")
     || jsstring_eqb crashType (js "WHEA")
  then Severity.Critical
  else if jsstring_eqb crashType (js "ApplicationCrash")
          || jsstring_eqb crashType (js "ServiceFailure")
  then Severity.High
  else Severity.Medium.

(** The loop over the patterns for one event: the first pattern that
    matches pushes one signal and breaks. *)
Fixpoint matchPatterns (event : EventRecord)
         (entries : list (jsstring * CrashPattern))
         (crashes : list CrashSignal) : list CrashSignal :=
  match entries with
  | [] => crashes
  | (crashType, pattern) :: rest =>
      if providerMatch pattern event || eventIdMatch pattern event
      then crashes ++ [ {| event := event;
                           crashType := crashType;
                           severity := severityOf crashType;
                           faultingApplication :=
                             extractField APP_RULE (message event);
                           faultingModule :=
                             extractField MODULE_RULE (message event) |} ]
      else matchPatterns event rest crashes
  end.

(** The loop over the events of one channel. *)
Fixpoint classifyEvents (events : list EventRecord)
         (crashes : list CrashSignal) : list CrashSignal :=
  match events with
  | [] => crashes
  | event :: rest =>
      classifyEvents rest (matchPatterns event CRASH_PATTERNS crashes)
  end.

Record CrashOptions : Type := mkCrashOptions {
  hours : option Z;
  channels : option (list jsstring)
}.

(** Line 459: the clamp of the hours to look back. *)
Definition clampHours (requested : option Z) (config : Config) : Z :=
  Z.min (Z.max 1 (match requested with Some h => h | None => 24%Z end))
        (maxTimeRangeHours config).

(** Lines 477-484: the filter of the crash scan. *)
Definition eventIdFilters : list jsstring :=
  flat_map (fun entry =>
              map (fun eventId => js "EventID=" ++ Number_toString eventId)
                  (eventIds (snd entry)))
           CRASH_PATTERNS.

Definition crashXPath (startTime : jsstring) : jsstring :=
  js "*[System[(" ++ join (js " or ") eventIdFilters
     ++ js ") and TimeCreated[@SystemTime>='" ++ startTime ++ js "']]]".

(** The loop over the channels.  [validateChannel] is outside the [try];
    the query and the classification are inside it. *)
Fixpoint scanChannels (channels : list jsstring) (startTime : jsstring)
         (config : Config) (st : SourceState) (crashes : list CrashSignal)
  : SourceState * result (list CrashSignal) :=
  match channels with
  | [] => (st, Ok crashes)
  | channel :: rest =>
      match validateChannel (VString channel) with
      | Throw e => (st, Throw e)
      | Ok _ =>
          let xpath := crashXPath startTime in
          let '(st1, outcome) :=
            queryEvents st channel
              {| xpath := Some xpath; startTime := None; endTime := None;
                 maxEvents := Some 200%Z |} config in
          match outcome with
          | Ok events =>
              scanChannels rest startTime config st1
                           (classifyEvents events crashes)
          | Throw _ =>
              (* Skip channel if inaccessible *)
              scanChannels rest startTime config st1 crashes
          end
      end
  end.

(** [new Date(b.event.timeCreated).getTime()
     - new Date(a.event.timeCreated).getTime()] *)
Definition newestFirst (a b : CrashSignal) : option Z :=
  match Date_parse (timeCreated (event b)), Date_parse (timeCreated (event a)) with
  | Some tb, Some ta => Some (tb - ta)%Z
  | _, _ => None
  end.

(** The query that the scan prepares: hours, start time and filter.
    [Date_now] is the value that [Date.now()] returns inside the function. *)
Definition scanStartTime (Date_now : Z) (options : CrashOptions)
           (config : Config) : result jsstring :=
  let hours := clampHours (hours options) config in
  toISOString (Date_now - hours * 60 * 60 * 1000).

Definition findCrashSignals (Date_now : Z) (st : SourceState)
           (options : CrashOptions) (config : Config)
  : SourceState * result (list CrashSignal) :=
  let channels := match channels options with
                  | Some l => l
                  | None => [js "System"; js "Application"]
                  end in
  match scanStartTime Date_now options config with
  | Throw e => (st, Throw e)
  | Ok startTime =>
      let '(st1, outcome) := scanChannels channels startTime config st [] in
      (st1, do crashes <- outcome ;; Ok (Array_sort newestFirst crashes))
  end.

End Reader.

(** ** The notions of the specification *)

(** The description that validateXPath reports for a rule. *)
Definition ruleDescription (pattern : RegExp) : jsstring :=
  js "Blocked pattern: " ++ source pattern.

(** A filter contains a blocked construct when a rule of the blocklist
    matches somewhere in it. *)
Abbreviation containsBlocked s :=
  (existsb (fun pattern => RegExp_test pattern s) BLOCKED_PATTERNS).

(** The rules that match a filter, in the order of the blocklist. *)
Abbreviation matchedRules s :=
  (filter (fun pattern => RegExp_test pattern s) BLOCKED_PATTERNS).

(** A character of the whitelist. *)
Definition allowedChar (c : N) : bool :=
  existsb (fun a => atom_match false a c) ALLOWED_MEMBERS.

(** Bracket depth after a piece of text: opening minus closing brackets. *)
Definition occurrences (x : N) (s : jsstring) : Z :=
  Z.of_nat (List.length (filter (N.eqb x) s)).

Definition depthOf (p : jsstring) : Z :=
  (occurrences (ch "[") p - occurrences (ch "]") p)%Z.

(** All prefixes of a string, the empty one and the string itself included. *)
Definition prefixes (s : jsstring) : list jsstring :=
  map (fun n => firstn n s) (seq 0 (S (List.length s))).

(** Balanced: the depth is negative after no prefix, and zero at the end. *)
Definition balanced (s : jsstring) : bool :=
  forallb (fun p => (0 <=? depthOf p)%Z) (prefixes s) && (depthOf s =? 0)%Z.

(** The maximum depth reached. *)
Definition nestingDepth (s : jsstring) : Z :=
  fold_right Z.max 0%Z (map depthOf (prefixes s)).

(** The shape dddd-dd-ddTdd:dd:dd at the start of a string. *)
Definition isoShape (s : jsstring) : bool :=
  match s with
  | y1 :: y2 :: y3 :: y4 :: h1 :: m1 :: m2 :: h2 :: d1 :: d2 :: t
    :: hh1 :: hh2 :: c1 :: mi1 :: mi2 :: c2 :: s1 :: s2 :: _ =>
      forallb is_digit [y1; y2; y3; y4; m1; m2; d1; d2; hh1; hh2; mi1; mi2; s1; s2]
      && forallb (N.eqb (ch "-")) [h1; h2] && (ch "T" =? t)%N
      && forallb (N.eqb (ch ":")) [c1; c2]
  | _ => false
  end.

(** Case-insensitive equality of two pieces of text, letter by letter. *)
Definition sameIgnoringCase (a b : jsstring) : Prop :=
  map (Canonicalize true) a = map (Canonicalize true) b.

(** A code unit that ends a captured field: carriage return, line feed
    or comma. *)
Definition endsField (c : N) : bool :=
  (c =? 13)%N || (c =? 10)%N || (c =? ch ",")%N.

(** [field] is what an extraction rule with label [label] may capture
    from [message]: the label in any case, white space, then a non-empty
    run of characters up to the next comma or line break (or the end),
    trimmed. *)
Definition capturedAfter (label message field : jsstring) : Prop :=
  exists pre lab ws run post,
    message = pre ++ lab ++ ws ++ run ++ post
    /\ sameIgnoringCase lab label
    /\ Forall (fun c => is_space c = true) ws
    /\ run <> []
    /\ Forall (fun c => endsField c = false) run
    /\ (post = [] \/ exists c post', post = c :: post' /\ endsField c = true)
    /\ field = trim run.

(** The label occurs in the message, in any case. *)
Definition mentions (label message : jsstring) : Prop :=
  exists pre lab post,
    message = pre ++ lab ++ post /\ sameIgnoringCase lab label.

(** [field] is the field that stands in [message] behind the first
    mention of [label]: the label in any case, where no mention of the
    label begins earlier; optional white space; then a run of characters
    that begins with a character that is not white space and goes up to
    the next comma or line break, or to the end of the message; the
    field is that run, trimmed. *)
Definition fieldBehind (label message field : jsstring) : Prop :=
  exists pre lab ws run post,
    message = pre ++ lab ++ ws ++ run ++ post
    /\ sameIgnoringCase lab label
    /\ (forall pre' lab' post',
           message = pre' ++ lab' ++ post' -> sameIgnoringCase lab' label ->
           (List.length pre <= List.length pre')%nat)
    /\ Forall (fun c => is_space c = true) ws
    /\ (exists c run', run = c :: run' /\ is_space c = false)
    /\ Forall (fun c => endsField c = false) run
    /\ (post = [] \/ exists c post', post = c :: post' /\ endsField c = true)
    /\ field = trim run.

(** *** A strict reader of ISO 8601 timestamps

    The specification speaks of a strict ISO-8601 parser; the program has
    a test of shape and the Date of the host instead.  [strictIso8601]
    follows the words of the specification: it reads the complete form
    YYYY-MM-DDTHH:mm:ss, an optional fraction .sss and an optional zone Z
    or +hh:mm or -hh:mm, and checks the range of every field against the
    calendar; a time without zone is read as UTC. *)

Definition digitValue (c : N) : option Z :=
  if is_digit c then Some (Z.of_N c - 48)%Z else None.

Fixpoint number (digits : jsstring) (acc : Z) : option Z :=
  match digits with
  | [] => Some acc
  | c :: r =>
      match digitValue c with
      | Some v => number r (10 * acc + v)
      | None => None
      end
  end.

Definition isLeapYear (y : Z) : bool :=
  ((y mod 4 =? 0) && negb (y mod 100 =? 0) || (y mod 400 =? 0))%Z.

Definition daysInMonth (y m : Z) : Z :=
  if (m =? 2)%Z then (if isLeapYear y then 29 else 28)%Z
  else if ((m =? 4) || (m =? 6) || (m =? 9) || (m =? 11))%Z then 30%Z
  else 31%Z.

Definition days_from_civil (y m d : Z) : Z :=
  let y1 := (if m <=? 2 then y - 1 else y)%Z in
  let era := (y1 / 400)%Z in
  let yoe := (y1 - era * 400)%Z in
  let doy := ((153 * (if 2 <? m then m - 3 else m + 9) + 2) / 5 + d - 1)%Z in
  let doe := (yoe * 365 + yoe / 4 - yoe / 100 + doy)%Z in
  (era * 146097 + doe - 719468)%Z.

(** The zone suffix: offset in minutes east of UTC. *)
Definition zoneOffset (z : jsstring) : option Z :=
  match z with
  | [] => Some 0%Z
  | [zc] => if (zc =? ch "Z")%N then Some 0%Z else None
  | [sign; h1; h2; colon; m1; m2] =>
      match number [h1; h2] 0, number [m1; m2] 0 with
      | Some h, Some m =>
          if ((colon =? ch ":")%N && (h <=? 23)%Z && (m <=? 59)%Z)
          then if (sign =? ch "+")%N then Some (h * 60 + m)%Z
               else if (sign =? ch "-")%N then Some (- (h * 60 + m))%Z
               else None
          else None
      | _, _ => None
      end
  | _ => None
  end.

(** The fraction and zone after the seconds. *)
Definition fractionAndZone (r : jsstring) : option (Z * Z) :=
  match r with
  | dot :: f1 :: f2 :: f3 :: z =>
      if (dot =? ch ".")%N
      then match number [f1; f2; f3] 0, zoneOffset z with
           | Some ms, Some off => Some (ms, off)
           | _, _ => None
           end
      else match zoneOffset r with
           | Some off => Some (0%Z, off)
           | None => None
           end
  | _ => match zoneOffset r with
         | Some off => Some (0%Z, off)
         | None => None
         end
  end.

Definition strictIso8601 (s : jsstring) : option Z :=
  if isoShape s
  then
    match number (firstn 4 s) 0, number (firstn 2 (skipn 5 s)) 0,
          number (firstn 2 (skipn 8 s)) 0, number (firstn 2 (skipn 11 s)) 0,
          number (firstn 2 (skipn 14 s)) 0, number (firstn 2 (skipn 17 s)) 0,
          fractionAndZone (skipn 19 s) with
    | Some y, Some m, Some d, Some hh, Some mi, Some ss, Some (ms, off) =>
        if ((1 <=? m) && (m <=? 12) && (1 <=? d) && (d <=? daysInMonth y m)
            && (hh <=? 23) && (mi <=? 59) && (ss <=? 59))%Z
        then Some (days_from_civil y m d * msPerDay
                   + ((hh * 60 + mi - off) * 60 + ss) * 1000 + ms)%Z
        else None
    | _, _, _, _, _, _, _ => None
    end
  else None.

(** *** A host for examples

    Lower case of ASCII letters, timestamps read by [strictIso8601], and a
    log source whose state is the list of answers still to come, one for
    each script that is run. *)
Definition asciiLower (c : N) : N :=
  if in_range 65 90 c then (c + 32)%N else c.

Definition scriptedSource (st : list (result PsOutput)) (script : jsstring)
           (timeoutMs : Z) : list (result PsOutput) * result PsOutput :=
  match st with
  | [] => ([], Throw (Error (js "PowerShell exited with code 1: ")))
  | answer :: rest => (rest, answer)
  end.

Definition exampleHost : Host :=
  {| toLowerCase := map asciiLower;
     Date_parse := strictIso8601;
     SourceState := list (result PsOutput);
     executePowerShell := scriptedSource |}.

(** The filters that are defined and not empty, in order. *)
Definition definedFilters (filters : list (option jsstring)) : list jsstring :=
  flat_map (fun f => match f with
                     | Some ((_ :: _) as s) => [s]
                     | _ => []
                     end) filters.

(** ** Notions used in the statements and proofs *)

(** A run of white space. *)
Definition spaces (l : jsstring) : Prop := Forall (fun c => is_space c = true) l.

(** What a character adds to the bracket depth. *)
Definition delta (c : N) : Z :=
  if (c =? ch "[")%N then 1%Z else if (c =? ch "]")%N then (-1)%Z else 0%Z.

(** The three errors of the bracket and predicate checks. *)
Definition unbalanced : Thrown :=
  XPathValidationError (js "Unbalanced brackets in XPath") [].

Definition tooDeep : Thrown :=
  XPathComplexityError (js "XPath exceeds maximum nesting depth of 5").

Definition tooManyPredicates : Thrown :=
  XPathComplexityError (js "XPath exceeds maximum predicate count of 10").

(** What validateXPath answers for a trimmed filter that has passed the
    length check, the blocklist and the whitelist. *)
Definition bracketStage (t : jsstring) : result (option jsstring) :=
  if negb (balanced t) then Throw unbalanced
  else if (5 <? nestingDepth t)%Z then Throw tooDeep
  else if (10 <? predicateCount t)%Z then Throw tooManyPredicates
  else Ok (Some t).

(** Classes that match no white space. *)
Definition atom_solid (i : bool) (a : atom) : bool :=
  match a with
  | Chr p => negb (is_space (Canonicalize i p))
  | ESpace => false
  | EWord | EDigit => true
  end.

Definition cset_solid (i : bool) (k : cset) : bool :=
  match k with
  | One a => atom_solid i a
  | Bracket false members => forallb (atom_solid i) members
  | Bracket true _ => false
  end.

(** A pattern that cannot match inside white space alone. *)
Fixpoint needs_solid (i : bool) (items : list ritem) : bool :=
  match items with
  | [] => false
  | Lit k :: r => cset_solid i k || needs_solid i r
  | _ :: r => needs_solid i r
  end.

(** A pattern whose first character is not white space. *)
Fixpoint starts_solid (i : bool) (items : list ritem) : bool :=
  match items with
  | WordB :: r => starts_solid i r
  | Lit k :: _ => cset_solid i k
  | _ => false
  end.

Definition is_nil {A : Type} (l : list A) : bool :=
  match l with
  | [] => true
  | _ => false
  end.

(** A pattern whose matches neither end in nor depend on white space
    behind them. *)
Fixpoint ws_stable (i : bool) (items : list ritem) : bool :=
  match items with
  | [] => true
  | Bos :: r => ws_stable i r
  | Eos :: _ => false
  | WordB :: r => needs_solid i r && ws_stable i r
  | Lit k :: r => (cset_solid i k || needs_solid i r) && ws_stable i r
  | Star _ :: r => (is_nil r || needs_solid i r) && ws_stable i r
  end.

(** A pattern without [^]. *)
Definition no_bos (items : list ritem) : bool :=
  forallb (fun it => match it with Bos => false | _ => true end) items.

(** A rule that white space around the subject cannot affect. *)
Definition stable_pattern (p : RegExp) : bool :=
  starts_solid (ignoreCase p) (body p) && no_bos (body p)
  && ws_stable (ignoreCase p) (body p) && needs_solid (ignoreCase p) (body p).

(** *** Sorting by a key *)

Section SortNotions.
Context {A : Type}.
Variable compareFn : A -> A -> option Z.
Variable key : A -> Z.

(** On the list [l] the comparison function is the difference of keys. *)
Definition keyed (l : list A) : Prop :=
  forall a b, In a l -> In b l -> compareFn a b = Some (key b - key a)%Z.

(** [a] may stand before [b]: its key is not smaller. *)
Definition notBefore (a b : A) : Prop := (key b <= key a)%Z.

End SortNotions.

(** *** Classification, scan and prepared query *)

Section Notions.
Context {host : Host}.

(** The text contains the piece, case ignored as the program ignores it:
    both are put in lower case. *)
Definition containsIgnoringCase (text piece : jsstring) : Prop :=
  exists pre post, toLowerCase text = pre ++ toLowerCase piece ++ post.

(** A pattern applies to a record when the provider of the record
    contains one of the provider names of the pattern, or the event code
    of the record is one of the event codes of the pattern. *)
Definition patternApplies (pattern : CrashPattern) (record : EventRecord)
  : Prop :=
  (exists p, In p (providers pattern)
             /\ containsIgnoringCase (provider record) p)
  \/ In (eventId record) (eventIds pattern).

(** The signal that the program builds for a record and a crash type. *)
Definition signalFor (record : EventRecord) (type : jsstring) : CrashSignal :=
  {| event := record;
     crashType := type;
     severity := severityOf type;
     faultingApplication := extractField APP_RULE (message record);
     faultingModule := extractField MODULE_RULE (message record) |}.

(** The options of the query that the scan sends to a channel. *)
Definition scanQuery (startTime : jsstring) : QueryOptions :=
  {| xpath := Some (crashXPath startTime); startTime := None;
     endTime := None; maxEvents := Some 200%Z |}.

(** The outcome of the query on each channel, in the order of the scan,
    and the state of the log source after the last one. *)
Fixpoint channelOutcomes (channels : list jsstring) (startTime : jsstring)
         (config : Config) (st : SourceState)
  : list (result (list EventRecord)) * SourceState :=
  match channels with
  | [] => ([], st)
  | channel :: rest =>
      let '(st1, outcome) :=
        queryEvents st channel (scanQuery startTime) config in
      let '(outcomes, st2) := channelOutcomes rest startTime config st1 in
      (outcome :: outcomes, st2)
  end.

(** What a channel contributes: the signals of its records, or nothing
    when its query failed. *)
Definition signalsOf (outcome : result (list EventRecord)) : list CrashSignal :=
  match outcome with
  | Ok events => classifyEvents events []
  | Throw _ => []
  end.

(** The instant of a signal; 0 when the timestamp cannot be read. *)
Definition instant (x : CrashSignal) : Z :=
  match Date_parse (timeCreated (event x)) with
  | Some t => t
  | None => 0%Z
  end.

(** The timestamp of the signal can be read. *)
Definition readable (x : CrashSignal) : Prop :=
  Date_parse (timeCreated (event x)) <> None.

(** The script that the scan prepares for a channel, [Date_now] being
    what [Date.now()] returns inside findCrashSignals. *)
Definition preparedQuery (Date_now : Z) (channel : jsstring)
           (options : CrashOptions) (config : Config) : result jsstring :=
  do startTime <- scanStartTime Date_now options config ;;
  queryScript channel (scanQuery startTime) config.

End Notions.

(** *** Sample data for the examples *)

(** A record with a given event code, provider, message and timestamp. *)
Definition sampleRecord (id : Z) (source text time : string) : EventRecord :=
  {| recordId := 1; eventId := id; level := EventLevel.Error;
     timeCreated := js time; provider := js source; message := js text;
     computer := js "TESTPC"; channel := js "Application";
     userId := None; task := None; opcode := None; keywords := None |}.

(** A raw record as PowerShell returns it. *)
Definition sampleRaw (n id : Z) (source time : string) : RawPowerShellEvent :=
  {| RecordId := n; Id := id; Level := 2; LevelDisplayName := Some (js "Error");
     TimeCreated := js time; ProviderName := js source;
     Message := Some (js "Faulting application name: notepad.exe, version: 1.0");
     MachineName := js "TESTPC"; LogName := js "Application";
     UserId := None; Task := None; Opcode := None; Keywords := None |}.

(** A log source for a scan of the two channels: the query on System
    fails, the one on Application returns three crash records, two of
    them of the same instant. *)
Definition sampleSource : list (result PsOutput) :=
  [ Throw (Error (js "PowerShell exited with code 1: access denied"));
    Ok (PsArray [ sampleRaw 1 1000 "Application Error" "2025-12-26T09:00:00.000Z";
                  sampleRaw 2 7034 "Service Control Manager" "2025-12-26T10:00:00.000Z";
                  sampleRaw 3 1002 "Application Hang" "2025-12-26T09:00:00.000Z" ]) ].

(** ** Further functions of src/eventlog/powershell-reader.ts *)

Module RawChannelInfo.
Record t : Type := mk {
  LogName : jsstring;
  IsEnabled : bool;
  RecordCount : option Z;
  FileSize : option Z;
  OldestRecordTime : option jsstring;
  NewestRecordTime : option jsstring
}.
End RawChannelInfo.

Module ChannelInfo.
Record t : Type := mk {
  name : jsstring;
  enabled : bool;
  recordCount : Z;
  fileSizeBytes : option Z;
  oldestRecordTime : option jsstring;
  newestRecordTime : option jsstring
}.
End ChannelInfo.

(** [executePowerShell<T>] at the two other types at which the program
    uses it: [RawPowerShellEvent | null] in getEvent and [RawChannelInfo]
    in getChannelInfo. *)
Class TypedSource (host : Host) : Type := mkTypedSource {
  executePowerShell_event :
    SourceState -> jsstring -> Z
    -> SourceState * result (option RawPowerShellEvent);
  executePowerShell_info :
    SourceState -> jsstring -> Z -> SourceState * result RawChannelInfo.t
}.

Section MoreReader.
Context {host : Host} {typed : TypedSource host}.

(** The script of getEvent. *)
Definition getEventScript (validChannel : jsstring) (recordId : Z) : jsstring :=
  js "
$ErrorActionPreference = " ++ [dquote] ++ js "Stop" ++ [dquote] ++ js "
try {
  $event = Get-WinEvent -FilterHashtable @{
    LogName = '" ++ escapePowerShellString validChannel ++ js "'
  } -MaxEvents 1000 | Where-Object { $_.RecordId -eq "
  ++ Number_toString recordId ++ js " } | Select-Object -First 1

  if ($event) {
    [PSCustomObject]@{
      RecordId = $event.RecordId
      Id = $event.Id
      Level = $event.Level
      LevelDisplayName = $event.LevelDisplayName
      TimeCreated = $event.TimeCreated.ToString('o')
      ProviderName = $event.ProviderName
      Message = $event.Message
      MachineName = $event.MachineName
      LogName = $event.LogName
      UserId = if ($event.UserId) { $event.UserId.ToString() } else { $null }
      Task = $event.Task
      Opcode = $event.Opcode
      Keywords = $event.KeywordsDisplayNames -join ', '
    } | ConvertTo-Json -Depth 3 -Compress
  } else {
    Write-Output 'null'
  }
} catch {
  Write-Output 'null'
}
".

(** getEvent.  A record identifier is an integer here, so that of the
    test [!Number.isInteger(recordId) || recordId < 0] the sign is what
    remains. *)
Definition getEvent (st : SourceState) (channel : jsstring) (recordId : Z)
           (config : Config) : SourceState * result (option EventRecord) :=
  match validateChannel (VString channel) with
  | Throw e => (st, Throw e)
  | Ok validChannel =>
      if (recordId <? 0)%Z
      then (st, Throw (Error (js "recordId must be a non-negative integer")))
      else
        let script := getEventScript validChannel recordId in
        let '(st1, outcome) :=
          executePowerShell_event st script (queryTimeoutMs config) in
        (st1, do raw <- outcome ;;
              match raw with
              | None => Ok None
              | Some r => Ok (Some (parseEvent r))
              end)
  end.

(** The script of getChannelInfo. *)
Definition getChannelInfoScript (validChannel : jsstring) : jsstring :=
  js "
$ErrorActionPreference = " ++ [dquote] ++ js "Stop" ++ [dquote] ++ js "
$log = Get-WinEvent -ListLog '" ++ escapePowerShellString validChannel
  ++ js "' -ErrorAction Stop

# Get oldest and newest record times
$oldest = $null
$newest = $null

try {
  $oldestEvent = Get-WinEvent -FilterHashtable @{ LogName = '"
  ++ escapePowerShellString validChannel
  ++ js "' } -MaxEvents 1 -Oldest -ErrorAction SilentlyContinue
  if ($oldestEvent) { $oldest = $oldestEvent.TimeCreated.ToString('o') }

  $newestEvent = Get-WinEvent -FilterHashtable @{ LogName = '"
  ++ escapePowerShellString validChannel
  ++ js "' } -MaxEvents 1 -ErrorAction SilentlyContinue
  if ($newestEvent) { $newest = $newestEvent.TimeCreated.ToString('o') }
} catch { }

[PSCustomObject]@{
  LogName = $log.LogName
  IsEnabled = $log.IsEnabled
  RecordCount = $log.RecordCount
  FileSize = $log.FileSize
  OldestRecordTime = $oldest
  NewestRecordTime = $newest
} | ConvertTo-Json -Compress
".

Definition getChannelInfo (st : SourceState) (channel : jsstring)
           (config : Config) : SourceState * result ChannelInfo.t :=
  match validateChannel (VString channel) with
  | Throw e => (st, Throw e)
  | Ok validChannel =>
      let script := getChannelInfoScript validChannel in
      let '(st1, outcome) :=
        executePowerShell_info st script (queryTimeoutMs config) in
      (st1, do raw <- outcome ;;
            Ok {| ChannelInfo.name := RawChannelInfo.LogName raw;
                  ChannelInfo.enabled := RawChannelInfo.IsEnabled raw;
                  ChannelInfo.recordCount :=
                    match RawChannelInfo.RecordCount raw with
                    | Some n => n
                    | None => 0%Z
                    end;
                  ChannelInfo.fileSizeBytes := RawChannelInfo.FileSize raw;
                  ChannelInfo.oldestRecordTime :=
                    RawChannelInfo.OldestRecordTime raw;
                  ChannelInfo.newestRecordTime :=
                    RawChannelInfo.NewestRecordTime raw |})
  end.

(** What listChannels reports for a channel that cannot be read. *)
Definition unreadableChannel (channel : jsstring) : ChannelInfo.t :=
  {| ChannelInfo.name := channel;
     ChannelInfo.enabled := false;
     ChannelInfo.recordCount := 0%Z;
     ChannelInfo.fileSizeBytes := None;
     ChannelInfo.oldestRecordTime := None;
     ChannelInfo.newestRecordTime := None |}.

(** The loop of listChannels over the names that remain. *)
Fixpoint listChannelsLoop (names : list jsstring) (config : Config)
         (st : SourceState) (channels : list ChannelInfo.t)
  : SourceState * list ChannelInfo.t :=
  match names with
  | [] => (st, channels)
  | channel :: rest =>
      let '(st1, outcome) := getChannelInfo st channel config in
      match outcome with
      | Ok info => listChannelsLoop rest config st1 (channels ++ [info])
      | Throw _ =>
          (* If we can't read a channel, include it with minimal info *)
          listChannelsLoop rest config st1
                           (channels ++ [unreadableChannel channel])
      end
  end.

Definition listChannels (st : SourceState) (config : Config)
  : SourceState * list ChannelInfo.t :=
  listChannelsLoop [js "System"; js "Application"] config st [].

End MoreReader.

(** ** src/server/tools.ts *)

(** The parameters of a tool call, [Record<string, unknown>], as the list
    of the properties of the object; a property that is not there reads
    as [undefined]. *)
Definition Params : Type := list (jsstring * JsValue).

Fixpoint prop (params : Params) (key : jsstring) : JsValue :=
  match params with
  | [] => VUndefined
  | (k, v) :: rest => if jsstring_eqb k key then v else prop rest key
  end.

(** The checks of zod that the schemas use; [None] stands for a ZodError.
    - [z.enum(values)]: a string that is one of the values;
    - [z.string().optional()]: undefined or a string;
    - [z.number().min(lo).max(hi).optional()]: undefined or a number
      from lo to hi;
    - [z.number().int().nonnegative()]: an integer that is not negative. *)
Definition z_enum (values : list jsstring) (v : JsValue) : option jsstring :=
  match v with
  | VString s => if includes_str values s then Some s else None
  | _ => None
  end.

Definition z_string_optional (v : JsValue) : option (option jsstring) :=
  match v with
  | VUndefined => Some None
  | VString s => Some (Some s)
  | _ => None
  end.

Definition z_number_min_max_optional (lo hi : Z) (v : JsValue)
  : option (option Z) :=
  match v with
  | VUndefined => Some None
  | VNumber n => if ((lo <=? n) && (n <=? hi))%Z then Some (Some n) else None
  | _ => None
  end.

Definition z_number_int_nonnegative (v : JsValue) : option Z :=
  match v with
  | VNumber n => if (0 <=? n)%Z then Some n else None
  | _ => None
  end.

(** Input schemas for validation. *)
Module QueryEventsInput.
Record t : Type := mk {
  channel : jsstring;
  xpath : option jsstring;
  startTime : option jsstring;
  endTime : option jsstring;
  maxEvents : option Z
}.

Definition parse (params : Params) : option t :=
  match z_enum ALLOWED_CHANNELS (prop params (js "channel")),
        z_string_optional (prop params (js "xpath")),
        z_string_optional (prop params (js "startTime")),
        z_string_optional (prop params (js "endTime")),
        z_number_min_max_optional 1 1000 (prop params (js "maxEvents")) with
  | Some c, Some x, Some s, Some e, Some m => Some (mk c x s e m)
  | _, _, _, _, _ => None
  end.
End QueryEventsInput.

Module GetEventInput.
Record t : Type := mk {
  channel : jsstring;
  recordId : Z
}.

Definition parse (params : Params) : option t :=
  match z_enum ALLOWED_CHANNELS (prop params (js "channel")),
        z_number_int_nonnegative (prop params (js "recordId")) with
  | Some c, Some r => Some (mk c r)
  | _, _ => None
  end.
End GetEventInput.

Module FindCrashSignalsInput.
Record t : Type := mk {
  hours : option Z
}.

Definition parse (params : Params) : option t :=
  match z_number_min_max_optional 1 168 (prop params (js "hours")) with
  | Some h => Some (mk h)
  | None => None
  end.
End FindCrashSignalsInput.

(** What a tool handler does: it returns a result, or it throws the
    ZodError of its schema or what the reader throws. *)
Inductive ToolOutcome (R : Type) : Type :=
| Returned (r : R)
| ZodError
| Raised (e : Thrown).
Arguments Returned {R} r.
Arguments ZodError {R}.
Arguments Raised {R} e.

(** *** The summary of find_crash_signals *)

(** An object used as a table from strings to numbers, as the list of
    its own properties in the order of insertion.  A read of a key that
    is not there gives [None] for [undefined]; this is the read of
    JavaScript for every key that is no property of [Object.prototype],
    as the names of the crash types are. *)
Fixpoint tableGet (table : list (jsstring * Z)) (key : jsstring) : option Z :=
  match table with
  | [] => None
  | (k, v) :: rest => if jsstring_eqb k key then Some v else tableGet rest key
  end.

Fixpoint tableSet (table : list (jsstring * Z)) (key : jsstring) (value : Z)
  : list (jsstring * Z) :=
  match table with
  | [] => [(key, value)]
  | (k, v) :: rest =>
      if jsstring_eqb k key then (k, value) :: rest
      else (k, v) :: tableSet rest key value
  end.

Record SeverityCounts : Type := mkSeverityCounts {
  Critical : Z;
  High : Z;
  Medium : Z
}.

Record Summary : Type := mkSummary {
  total : Z;
  byCrashType : list (jsstring * Z);
  bySeverity : SeverityCounts
}.

(** [x || 0] for a count read from a table. *)
Definition orZero (x : option Z) : Z :=
  match x with
  | Some v => v
  | None => 0%Z
  end.

(** The loop that groups the crashes by type and by severity. *)
Fixpoint summarizeLoop (crashes : list CrashSignal) (summary : Summary)
  : Summary :=
  match crashes with
  | [] => summary
  | crash :: rest =>
      let byType :=
        tableSet (byCrashType summary) (crashType crash)
                 (orZero (tableGet (byCrashType summary) (crashType crash)) + 1) in
      let counts := bySeverity summary in
      let bySev :=
        match severity crash with
        | Severity.Critical =>
            {| Critical := Critical counts + 1; High := High counts;
               Medium := Medium counts |}
        | Severity.High =>
            {| Critical := Critical counts; High := High counts + 1;
               Medium := Medium counts |}
        | Severity.Medium =>
            {| Critical := Critical counts; High := High counts;
               Medium := Medium counts + 1 |}
        end in
      summarizeLoop rest {| total := total summary;
                            byCrashType := byType;
                            bySeverity := bySev |}
  end.

Definition summarize (crashes : list CrashSignal) : Summary :=
  summarizeLoop crashes
    {| total := Z.of_nat (List.length crashes);
       byCrashType := [];
       bySeverity := {| Critical := 0; High := 0; Medium := 0 |} |}.

(** *** The tool handlers: the functions that withAudit wraps *)

Module ListChannelsResult.
Record t : Type := mk {
  channels : list ChannelInfo.t;
  allowedChannels : list jsstring
}.
End ListChannelsResult.

Module QueryEventsResult.
Record t : Type := mk {
  events : list EventRecord;
  count : Z;
  channel : jsstring;
  truncated : bool
}.
End QueryEventsResult.

Module GetEventResult.
Inductive t : Type :=
| NotFound (channel : jsstring) (recordId : Z)   (* found: false *)
| Found (event : EventRecord).                   (* found: true *)
End GetEventResult.

Module FindCrashSignalsResult.
Record t : Type := mk {
  crashes : list CrashSignal;
  summary : Summary;
  hoursSearched : Z
}.
End FindCrashSignalsResult.

Section Tools.
Context {host : Host} {typed : TypedSource host}.

(** [ListChannelsInput] is [z.object({})], which every object passes. *)
Definition list_channels (st : SourceState) (params : Params)
  : SourceState * ToolOutcome ListChannelsResult.t :=
  let '(st1, channels) := listChannels st DEFAULT_CONFIG in
  (st1, Returned {| ListChannelsResult.channels := channels;
                    ListChannelsResult.allowedChannels := getAllowedChannels |}).

Definition query_events (st : SourceState) (params : Params)
  : SourceState * ToolOutcome QueryEventsResult.t :=
  match QueryEventsInput.parse params with
  | None => (st, ZodError)
  | Some validated =>
      let '(st1, outcome) :=
        queryEvents st (QueryEventsInput.channel validated)
          {| xpath := QueryEventsInput.xpath validated;
             startTime := QueryEventsInput.startTime validated;
             endTime := QueryEventsInput.endTime validated;
             maxEvents := QueryEventsInput.maxEvents validated |}
          DEFAULT_CONFIG in
      (st1,
       match outcome with
       | Throw e => Raised e
       | Ok events =>
           Returned
             {| QueryEventsResult.events := events;
                QueryEventsResult.count := Z.of_nat (List.length events);
                QueryEventsResult.channel := QueryEventsInput.channel validated;
                QueryEventsResult.truncated :=
                  (match QueryEventsInput.maxEvents validated with
                   | Some m => m
                   | None => 100
                   end <=? Z.of_nat (List.length events))%Z |}
       end)
  end.

Definition get_event (st : SourceState) (params : Params)
  : SourceState * ToolOutcome GetEventResult.t :=
  match GetEventInput.parse params with
  | None => (st, ZodError)
  | Some validated =>
      let '(st1, outcome) :=
        getEvent st (GetEventInput.channel validated)
                 (GetEventInput.recordId validated) DEFAULT_CONFIG in
      (st1,
       match outcome with
       | Throw e => Raised e
       | Ok None =>
           Returned (GetEventResult.NotFound
                       (GetEventInput.channel validated)
                       (GetEventInput.recordId validated))
       | Ok (Some event) => Returned (GetEventResult.Found event)
       end)
  end.

Definition find_crash_signals (Date_now : Z) (st : SourceState)
           (params : Params)
  : SourceState * ToolOutcome FindCrashSignalsResult.t :=
  match FindCrashSignalsInput.parse params with
  | None => (st, ZodError)
  | Some validated =>
      let '(st1, outcome) :=
        findCrashSignals Date_now st
          {| hours := FindCrashSignalsInput.hours validated;
             channels := None |}
          DEFAULT_CONFIG in
      (st1,
       match outcome with
       | Throw e => Raised e
       | Ok crashes =>
           Returned
             {| FindCrashSignalsResult.crashes := crashes;
                FindCrashSignalsResult.summary := summarize crashes;
                FindCrashSignalsResult.hoursSearched :=
                  match FindCrashSignalsInput.hours validated with
                  | Some h => h
                  | None => 24%Z
                  end |}
       end)
  end.

End Tools.

(** ** Further notions *)

(** The characters that the tokenizer of PowerShell takes for a single
    quote: the apostrophe U+0027 and the typographic quotes U+2018,
    U+2019, U+201A and U+201B. *)
Definition typographicQuote (c : N) : bool :=
  existsb (N.eqb c) [8216%N; 8217%N; 8218%N; 8219%N].

Definition isSingleQuote (c : N) : bool :=
  (c =? ch "'")%N || typographicQuote c.

(** How the tokenizer of PowerShell reads the inside of a single-quoted
    string literal: a single quote followed by a single quote stands for
    the second of the two, and a single quote followed by anything else,
    or by nothing, would end the literal before its end ([None]).  Every
    other character stands for itself. *)
Fixpoint singleQuoted (body : jsstring) : option jsstring :=
  match body with
  | [] => Some []
  | c :: t =>
      if isSingleQuote c
      then match t with
           | c2 :: t2 =>
               if isSingleQuote c2
               then option_map (cons c2) (singleQuoted t2)
               else None
           | [] => None
           end
      else option_map (cons c) (singleQuoted t)
  end.

(** A digit is replaced by 0: the shape of a text, digits apart. *)
Definition noDigits (c : N) : N := if is_digit c then ch "0" else c.

Definition shapeOf (s : jsstring) : jsstring := map noDigits s.

(** The shape of what toISOString writes for a year of four digits. *)
Definition UTC_SHAPE : jsstring := js "0000-00-00T00:00:00.000Z".

(** The year of an instant has four digits. *)
Definition fourDigitYear (t : Z) : bool :=
  let '(y, _, _) := civil_from_days (t / msPerDay) in
  ((0 <=? y) && (y <=? 9999))%Z.

(** A character that toISOString can write. *)
Definition isoChar (c : N) : bool :=
  is_digit c
  || existsb (N.eqb c) [ch "+"; ch "-"; ch ":"; ch "."; ch "T"; ch "Z"].

(** Patterns that treat all digits alike. *)
Definition atom_blind (a : atom) : bool :=
  match a with
  | Chr p => negb (is_digit p)
  | _ => true
  end.

Definition cset_blind (k : cset) : bool :=
  match k with
  | One a => atom_blind a
  | Bracket _ members => forallb atom_blind members
  end.

Definition item_blind (it : ritem) : bool :=
  match it with
  | Lit k | Star k => cset_blind k
  | _ => true
  end.

Definition pattern_blind (p : RegExp) : bool := forallb item_blind (body p).

(** Some pattern of the table applies to the record, as the program
    tests it: by provider or by event code. *)
Definition isCrashRecord {host : Host} (record : EventRecord) : bool :=
  existsb (fun entry => providerMatch (snd entry) record
                        || eventIdMatch (snd entry) record)
          CRASH_PATTERNS.

(** The sum of the counts of a table. *)
Definition sumValues (table : list (jsstring * Z)) : Z :=
  fold_right Z.add 0%Z (map snd table).

(** The entry of listChannels for a channel, from the outcome of the
    query for its information. *)
Definition infoOf (raw : RawChannelInfo.t) : ChannelInfo.t :=
  {| ChannelInfo.name := RawChannelInfo.LogName raw;
     ChannelInfo.enabled := RawChannelInfo.IsEnabled raw;
     ChannelInfo.recordCount := orZero (RawChannelInfo.RecordCount raw);
     ChannelInfo.fileSizeBytes := RawChannelInfo.FileSize raw;
     ChannelInfo.oldestRecordTime := RawChannelInfo.OldestRecordTime raw;
     ChannelInfo.newestRecordTime := RawChannelInfo.NewestRecordTime raw |}.

(** The number of crashes of a type. *)
Definition countOfType (type : jsstring) (crashes : list CrashSignal) : Z :=
  Z.of_nat (List.length
              (filter (fun c => jsstring_eqb (crashType c) type) crashes)).

Definition countOfSeverity (sev : Severity.t) (crashes : list CrashSignal) : Z :=
  Z.of_nat (List.length
              (filter (fun c => match severity c, sev with
                                | Severity.Critical, Severity.Critical => true
                                | Severity.High, Severity.High => true
                                | Severity.Medium, Severity.Medium => true
                                | _, _ => false
                                end) crashes)).

(** The character in front of a position of a subject: the last one of
    what stands before the position, if anything does. *)
Definition lastChar (pre : jsstring) : option N := hd_error (rev pre).

(** The same, for a piece of the subject that follows the character
    [prev]. *)
Definition prevAfter (pre : jsstring) (prev : option N) : option N :=
  fold_left (fun _ c => Some c) pre prev.

(** A rule of the form [\bNAME...] whose name begins with a word
    character. *)
Definition starts_with_letter (p : RegExp) : bool :=
  match body p with
  | WordB :: Lit (One (Chr c)) :: _ => is_word c
  | WordB :: _ => false
  | _ => true
  end.

(** The two other errors of validateXPath. *)
Definition tooLong (config : Config) : Thrown :=
  XPathComplexityError
    (js "XPath exceeds maximum length of "
        ++ Number_toString (xpathMaxLength config) ++ js " characters").

Definition disallowedCharacters : Thrown :=
  XPathValidationError (js "XPath contains disallowed characters") [].

(** The filter of a query as the value that queryEvents hands to
    validateXPath. *)
Definition filterValue (options : QueryOptions) : JsValue :=
  match xpath options with
  | Some x => VString x
  | None => VUndefined
  end.

(** *** Blocked constructs

    The constructs that the specification wants blocked, said without
    the regular expressions of the program: the call of a function or a
    node test (its name, white space or none, an opening parenthesis), a
    variable reference (a dollar sign and an identifier), a step along
    an axis (its name, white space or none, two colons), the parent
    traversal (two full stops), a quote followed by a closing and an
    opening bracket, a double hyphen, and the opener of a comment (a
    slash and an asterisk). *)
Inductive BlockedConstruct : Type :=
| FunctionCall (name : string)
| VariableReference
| AxisStep (name : string)
| ParentTraversal
| QuoteBrackets
| DoubleHyphen
| CommentOpener.

(** The functions of external documents and the string, numeric,
    boolean and node functions that the blocklist names. *)
Definition blockedFunctions : list string :=
  [ "document"; "doc";
    "concat"; "string"; "substring"; "translate"; "normalize-space";
    "contains"; "starts-with"; "string-length";
    "count"; "sum"; "floor"; "ceiling"; "round";
    "true"; "false"; "not"; "boolean"; "number";
    "id"; "name"; "local-name"; "namespace-uri" ]%string.

(** The axes that leave the current context. *)
Definition blockedAxes : list string :=
  [ "namespace"; "preceding"; "following"; "preceding-sibling";
    "following-sibling"; "ancestor"; "descendant"; "ancestor-or-self";
    "descendant-or-self" ]%string.

(** The node tests. *)
Definition blockedNodeTests : list string :=
  [ "comment"; "processing-instruction"; "text"; "node" ]%string.

(** The blocked constructs, in the order of the blocklist. *)
Definition blockedConstructs : list BlockedConstruct :=
  map FunctionCall blockedFunctions
  ++ [VariableReference]
  ++ map AxisStep blockedAxes
  ++ [ParentTraversal]
  ++ map FunctionCall blockedNodeTests
  ++ [QuoteBrackets; DoubleHyphen; CommentOpener].

(** The string functions and the boolean functions of XPath 1.0, the
    query language of the filters (sections 4.2 and 4.3 of the
    recommendation). *)
Definition xpathStringFunctions : list string :=
  [ "string"; "concat"; "starts-with"; "contains"; "substring-before";
    "substring-after"; "substring"; "string-length"; "normalize-space";
    "translate" ]%string.

Definition xpathBooleanFunctions : list string :=
  [ "boolean"; "not"; "true"; "false"; "lang" ]%string.

(** A name in any letter case that begins where no letter, digit or
    underscore stands before it, followed by white space or none and by
    [close]. *)
Definition nameBefore (name close s : jsstring) : Prop :=
  exists pre w ws post,
    s = pre ++ w ++ ws ++ close ++ post
    /\ sameIgnoringCase w name
    /\ spaces ws
    /\ is_word_opt (lastChar pre) = false.

(** A construct occurs in a filter. *)
Definition occursIn (k : BlockedConstruct) (s : jsstring) : Prop :=
  match k with
  | FunctionCall name => nameBefore (js name) (js "(") s
  | VariableReference =>
      exists pre c post, s = pre ++ ch "$" :: c :: post /\ is_word c = true
  | AxisStep name => nameBefore (js name) (js "::") s
  | ParentTraversal => exists pre post, s = pre ++ js ".." ++ post
  | QuoteBrackets =>
      exists pre q ws1 ws2 post,
        s = pre ++ q :: ws1 ++ ch "]" :: ws2 ++ ch "[" :: post
        /\ (q = ch "'" \/ q = dquote) /\ spaces ws1 /\ spaces ws2
  | DoubleHyphen => exists pre post, s = pre ++ js "--" ++ post
  | CommentOpener => exists pre post, s = pre ++ js "/*" ++ post
  end.

(** The description that the error carries for a construct. *)
Definition descriptionOf (k : BlockedConstruct) : jsstring :=
  js "Blocked pattern: "
  ++ match k with
     | FunctionCall name => js "\b" ++ js name ++ js "\s*\("
     | VariableReference => js "\$\w+"
     | AxisStep name => js "\b" ++ js name ++ js "\s*::"
     | ParentTraversal => js "\.\."
     | QuoteBrackets => js "['" ++ [dquote] ++ js "]\s*\]\s*\["
     | DoubleHyphen => js "--"
     | CommentOpener => js "\/\*"
     end.

(** [reported s constructs details]: [details] holds the descriptions of
    exactly those of [constructs] that occur in [s], in their order. *)
Inductive reported (s : jsstring)
  : list BlockedConstruct -> list jsstring -> Prop :=
| reported_none : reported s [] []
| reported_hit (k : BlockedConstruct) (rest : list BlockedConstruct)
               (details : list jsstring) :
    occursIn k s -> reported s rest details ->
    reported s (k :: rest) (descriptionOf k :: details)
| reported_miss (k : BlockedConstruct) (rest : list BlockedConstruct)
                (details : list jsstring) :
    ~ occursIn k s -> reported s rest details ->
    reported s (k :: rest) details.

(** The rule of the blocklist for a construct. *)
Definition ruleOf (k : BlockedConstruct) : RegExp :=
  match k with
  | FunctionCall name => call_pattern name
  | VariableReference =>
      {| source := js "\$\w+"; ignoreCase := false;
         body := [Lit (One (Chr (ch "$"))); Lit (One EWord); Star (One EWord)] |}
  | AxisStep name => axis_pattern name
  | ParentTraversal =>
      {| source := js "\.\."; ignoreCase := false; body := lits ".." |}
  | QuoteBrackets =>
      {| source := js "['" ++ [dquote] ++ js "]\s*\]\s*\[";
         ignoreCase := false;
         body := [Lit (Bracket false [Chr (ch "'"); Chr dquote]);
                  Star (One ESpace); Lit (One (Chr (ch "]")));
                  Star (One ESpace); Lit (One (Chr (ch "[")))] |}
  | DoubleHyphen =>
      {| source := js "--"; ignoreCase := false; body := lits "--" |}
  | CommentOpener =>
      {| source := js "\/\*"; ignoreCase := false; body := lits "/*" |}
  end.

(** A source for the examples of getEvent and listChannels: it finds no
    record, and cannot read the information of a channel. *)
Definition exampleTyped : TypedSource exampleHost :=
  {| executePowerShell_event :=
       fun st script timeoutMs => (st, Ok None);
     executePowerShell_info :=
       fun st script timeoutMs =>
         (st, Throw (Error (js "PowerShell exited with code 1: "))) |}.

(* ================================================================== *)
(** * Part II. Properties                                              *)
(* ================================================================== *)

(** ** Strings *)

Lemma jsstring_eqb_eq (a b : jsstring) : jsstring_eqb a b = true <-> a = b.
Proof.
  unfold jsstring_eqb. destruct (list_eq_dec N.eq_dec a b); split;
    congruence.
Qed.

(** ** The channel guard *)

Lemma includes_allowed (s : jsstring) :
  includes_str ALLOWED_CHANNELS s = true
  <-> s = js "System" \/ s = js "Application".
Proof.
  unfold includes_str, ALLOWED_CHANNELS. simpl.
  rewrite !orb_true_iff, !jsstring_eqb_eq. intuition congruence.
Qed.

(** C2 fails for a value that String() cannot convert.  validateChannel
    is documented to throw ChannelNotAllowedError for every channel that
    is not allowed, and builds the error for a value that is no string
    from String(channel).  For an object that has neither a usable
    toString nor a usable valueOf, as Object.create(null), that
    conversion throws a TypeError before the error is built, and
    validateChannel throws the TypeError and not ChannelNotAllowedError.
    The value is refused all the same. *)
Lemma validateChannel_conversion_throws :
  let v := VObject (Throw (TypeError
                             (js "Cannot convert object to primitive value"))) in
  validateChannel v
  = Throw (TypeError (js "Cannot convert object to primitive value"))
  /\ forall shown, validateChannel v <> Throw (ChannelNotAllowedError shown).
Proof. split; [reflexivity | intros shown; discriminate]. Qed.

(** The deviations that the specification lists, each rejected: other
    case, white space around, a NUL or a newline behind, a full-width or
    Cyrillic look-alike, a path in front, other types. *)
Example validateChannel_deviations :
  Forall (fun v => exists shown,
              validateChannel v = Throw (ChannelNotAllowedError shown))
    [ VString (js "system"); VString (js "SYSTEM"); VString (js "SyStEm");
      VString (js "application"); VString (js " System");
      VString (js "System "); VString (js "System" ++ [0%N]);
      VString (js "System" ++ [10%N]);
      VString (65331%N :: js "ystem");
      VString (js "Applic" ++ [1072%N] ++ js "tion");
      VString (js "../Security"); VString (js "System/../Security");
      VString []; VNull; VUndefined; VNumber 123;
      VObject (Ok (js "System")) ].
Proof. repeat constructor; eexists; reflexivity. Qed.

Example validateChannel_allowed :
  validateChannel (VString (js "System")) = Ok (js "System")
  /\ validateChannel (VString (js "Application")) = Ok (js "Application").
Proof. split; reflexivity. Qed.

(** ** combineXPathFilters *)

Lemma validFilters_defined (filters : list (option jsstring)) :
  filter (fun f => match f with
                   | Some s => (0 <? List.length s)%nat
                   | None => false
                   end) filters
  = map Some (definedFilters filters).
Proof.
  induction filters as [|[[|c s]|] r IH]; simpl; rewrite ?IH; reflexivity.
Qed.

(** C10.  combineXPathFilters returns no filter when no filter is defined
    and non-empty, that filter when there is exactly one, and the first
    one alone when there are two or more: the others are dropped, and
    nothing is joined with AND. *)
Theorem combineXPathFilters_first (filters : list (option jsstring)) :
  (definedFilters filters = [] -> combineXPathFilters filters = None)
  /\ (forall f, definedFilters filters = [f] ->
                combineXPathFilters filters = Some f)
  /\ (forall f g rest, definedFilters filters = f :: g :: rest ->
                       combineXPathFilters filters = Some f).
Proof.
  unfold combineXPathFilters. rewrite validFilters_defined.
  repeat split; intros; rewrite H; reflexivity.
Qed.

Lemma combineXPathFilters_first_witness :
  let a := js "*[System[EventID=1000]]" in
  let b := js "*[System[Level=2]]" in
  combineXPathFilters [] = None
  /\ combineXPathFilters [None; Some a; Some []] = Some a
  /\ combineXPathFilters [Some a; None; Some b] = Some a.
Proof.
  intros a b.
  split; [|split].
  - apply (proj1 (combineXPathFilters_first [])). reflexivity.
  - apply (proj1 (proj2 (combineXPathFilters_first [None; Some a; Some []]))).
    reflexivity.
  - apply (proj2 (proj2 (combineXPathFilters_first [Some a; None; Some b]))
             a b []).
    reflexivity.
Defined.

(** ** The clamp of the result cap *)

(** C7, as stated, fails.  With limits whose maximum is 50 an absent cap
    yields 50, not the default 100; with a maximum of 0 the program
    yields 0 where max(1, min(requested, maximum)) is 1. *)
Lemma clampMaxEvents_not_always_default :
  clampMaxEvents None (mkConfig 50 168 30000 500) = 50%Z
  /\ clampMaxEvents None (mkConfig 50 168 30000 500) <> 100%Z
  /\ clampMaxEvents (Some 5%Z) (mkConfig 0 168 30000 500)
     <> Z.max 1 (Z.min 5 0).
Proof. repeat split; vm_compute; congruence. Qed.

(** C7, amended.  The program computes min(max(1, requested ?? 100),
    maximum), the default 100 being a literal of the program.  For limits
    whose maximum is at least 1 this is max(1, min(requested ?? 100,
    maximum)), and a cap of 0 gives 1; a cap of 999999 gives the maximum
    when the maximum is at most 999999; an absent cap gives min(100,
    maximum), which is the default 100 when the maximum is at least 100,
    as it is in the default limits. *)
Theorem clampMaxEvents_formula (requested : option Z) (limits : Config) :
  (1 <= maxEventsPerQuery limits)%Z ->
  let maxCap := maxEventsPerQuery limits in
  let wanted := match requested with Some r => r | None => 100%Z end in
  clampMaxEvents requested limits = Z.max 1 (Z.min wanted maxCap)
  /\ clampMaxEvents (Some 0%Z) limits = 1%Z
  /\ ((maxCap <= 999999)%Z -> clampMaxEvents (Some 999999%Z) limits = maxCap)
  /\ clampMaxEvents None limits = Z.min 100 maxCap
  /\ ((100 <= maxCap)%Z -> clampMaxEvents None limits = 100%Z)
  /\ clampMaxEvents None DEFAULT_CONFIG = 100%Z
  /\ clampMaxEvents (Some 999999%Z) DEFAULT_CONFIG = 1000%Z.
Proof.
  intros H maxCap wanted. unfold clampMaxEvents. fold maxCap. fold wanted.
  repeat split; try reflexivity; intros; lia.
Qed.

Lemma clampMaxEvents_formula_witness :
  clampMaxEvents (Some 250%Z) DEFAULT_CONFIG
  = Z.max 1 (Z.min 250 (maxEventsPerQuery DEFAULT_CONFIG)).
Proof.
  apply (clampMaxEvents_formula (Some 250%Z) DEFAULT_CONFIG).
  simpl. lia.
Defined.

(** ** String.prototype.trim *)

Lemma trimStart_decompose (s : jsstring) :
  exists lead, s = lead ++ trimStart s /\ spaces lead.
Proof.
  induction s as [|c t IH]; simpl.
  - exists []. split; [reflexivity | constructor].
  - destruct (is_space c) eqn:E.
    + destruct IH as [l [H1 H2]]. exists (c :: l). split.
      * simpl. congruence.
      * constructor; assumption.
    + exists []. split; [reflexivity | constructor].
Qed.

Lemma trimStart_solid (c : N) (t : jsstring) :
  is_space c = false -> trimStart (c :: t) = c :: t.
Proof. simpl. intros ->. reflexivity. Qed.

Lemma trimStart_head (s : jsstring) :
  match trimStart s with
  | [] => True
  | c :: _ => is_space c = false
  end.
Proof.
  induction s as [|c t IH]; simpl; [exact I|].
  destruct (is_space c) eqn:E; [exact IH | exact E].
Qed.

Lemma trimStart_idem (s : jsstring) : trimStart (trimStart s) = trimStart s.
Proof.
  pose proof (trimStart_head s) as H.
  destruct (trimStart s) as [|c t]; [reflexivity|].
  now apply trimStart_solid.
Qed.

Lemma trimEnd_decompose (s : jsstring) :
  exists trail, s = trimEnd s ++ trail /\ spaces trail.
Proof.
  unfold trimEnd.
  destruct (trimStart_decompose (rev s)) as [l [H1 H2]].
  exists (rev l). split.
  - rewrite <- rev_app_distr, <- H1, rev_involutive. reflexivity.
  - now apply Forall_rev.
Qed.

Lemma trim_decompose (s : jsstring) :
  exists lead trail,
    s = lead ++ trim s ++ trail /\ spaces lead /\ spaces trail.
Proof.
  destruct (trimStart_decompose s) as [lead [H1 H2]].
  destruct (trimEnd_decompose (trimStart s)) as [trail [H3 H4]].
  exists lead, trail. unfold trim. rewrite <- H3. auto.
Qed.

Lemma trimEnd_head (c : N) (t : jsstring) :
  is_space c = false -> exists t', trimEnd (c :: t) = c :: t'.
Proof.
  intros Hc.
  destruct (trimEnd_decompose (c :: t)) as [tr [H1 H2]].
  destruct (trimEnd (c :: t)) as [|c' t'] eqn:E.
  - simpl in H1. subst tr. inversion H2; congruence.
  - simpl in H1. injection H1 as -> _. eexists; reflexivity.
Qed.

Lemma trimEnd_idem (s : jsstring) : trimEnd (trimEnd s) = trimEnd s.
Proof.
  unfold trimEnd. rewrite rev_involutive, trimStart_idem. reflexivity.
Qed.

(** Trimming a trimmed string changes nothing. *)
Lemma trim_idem (s : jsstring) : trim (trim s) = trim s.
Proof.
  assert (H : trimStart (trim s) = trim s).
  { unfold trim. pose proof (trimStart_head s) as Hh.
    destruct (trimStart s) as [|c t]; [reflexivity|].
    destruct (trimEnd_head c t Hh) as [t' ->].
    now apply trimStart_solid. }
  unfold trim at 1. rewrite H. unfold trim. apply trimEnd_idem.
Qed.

(** ** The bracket scan *)

Lemma depthOf_nil : depthOf [] = 0%Z.
Proof. reflexivity. Qed.

Lemma depthOf_cons (c : N) (p : jsstring) :
  depthOf (c :: p) = (delta c + depthOf p)%Z.
Proof.
  unfold depthOf, occurrences, delta. cbn [filter].
  rewrite (N.eqb_sym (ch "[") c), (N.eqb_sym (ch "]") c).
  destruct (c =? ch "[")%N eqn:E1; destruct (c =? ch "]")%N eqn:E2;
    cbn [List.length]; try lia.
  apply N.eqb_eq in E1, E2. subst c. discriminate.
Qed.

Lemma prefixes_cons (c : N) (t : jsstring) :
  prefixes (c :: t) = [] :: map (cons c) (prefixes t).
Proof.
  unfold prefixes. simpl List.length.
  change (seq 0 (S (S (List.length t))))
    with (0%nat :: seq 1 (S (List.length t))).
  rewrite <- seq_shift, map_cons, !map_map. reflexivity.
Qed.

Lemma prefixes_head (t : jsstring) : exists r, prefixes t = [] :: r.
Proof. unfold prefixes. simpl. eexists; reflexivity. Qed.

Lemma forallb_map_comp {A B : Type} (f : B -> bool) (g : A -> B) (l : list A) :
  forallb f (map g l) = forallb (fun x => f (g x)) l.
Proof. induction l as [|x r IH]; simpl; congruence. Qed.

Lemma forallb_same {A : Type} (f g : A -> bool) (l : list A) :
  (forall x, f x = g x) -> forallb f l = forallb g l.
Proof. intros H. induction l as [|x r IH]; simpl; congruence. Qed.

Lemma fold_max_base (a : Z) (l : list Z) : (a <= fold_right Z.max a l)%Z.
Proof. induction l as [|x r IH]; simpl; lia. Qed.

Lemma fold_max_in (a x : Z) (l : list Z) :
  In x l -> (x <= fold_right Z.max a l)%Z.
Proof.
  induction l as [|y r IH]; simpl; [tauto|].
  intros [->|H]; [lia | specialize (IH H); lia].
Qed.

Lemma fold_max_swap (a b : Z) (l : list Z) :
  Z.max b (fold_right Z.max a l) = Z.max a (fold_right Z.max b l).
Proof. induction l as [|x r IH]; simpl; lia. Qed.

(** What the loop computes from depth [d] and maximum [m]. *)
Lemma bracketScan_spec (s : jsstring) : forall d m : Z,
  (0 <= d)%Z -> (d <= m)%Z ->
  bracketScan s d m =
  if forallb (fun p => (0 <=? d + depthOf p)%Z) (prefixes s)
  then Ok ((d + depthOf s)%Z,
           Z.max m (fold_right Z.max d
                      (map (fun p => (d + depthOf p)%Z) (prefixes s))))
  else Throw unbalanced.
Proof.
  induction s as [|c t IH]; intros d m Hd Hm.
  - simpl. rewrite depthOf_nil, Z.add_0_r.
    replace (0 <=? d)%Z with true by (symmetry; apply Z.leb_le; lia).
    simpl. f_equal. f_equal. lia.
  - rewrite prefixes_cons.
    cbn [forallb map fold_right]. rewrite forallb_map_comp, map_map.
    rewrite depthOf_nil, Z.add_0_r.
    replace (0 <=? d)%Z with true by (symmetry; apply Z.leb_le; lia).
    cbn [andb].
    rewrite (forallb_same _ (fun p => (0 <=? (d + delta c) + depthOf p)%Z))
      by (intros p; rewrite depthOf_cons; f_equal; lia).
    rewrite (map_ext _ (fun p => ((d + delta c) + depthOf p)%Z))
      by (intros p; rewrite depthOf_cons; lia).
    rewrite depthOf_cons.
    destruct (prefixes_head t) as [r Hr].
    assert (Hin : In (d + delta c)%Z
                     (map (fun p => (d + delta c + depthOf p)%Z) (prefixes t))).
    { rewrite Hr. left. rewrite depthOf_nil. lia. }
    pose proof (fold_max_in d _ _ Hin) as Hin'.
    pose proof (fold_max_base (d + delta c)
                  (map (fun p => (d + delta c + depthOf p)%Z) (prefixes t))) as Hb.
    pose proof (fold_max_swap (d + delta c) d
                  (map (fun p => (d + delta c + depthOf p)%Z) (prefixes t))) as Hs.
    cbn [bracketScan]. unfold delta in *.
    destruct (c =? ch "[")%N eqn:E1; [|destruct (c =? ch "]")%N eqn:E2].
    + replace (d + 1 <? 0)%Z with false by (symmetry; apply Z.ltb_ge; lia).
      rewrite IH by lia.
      destruct (forallb _ (prefixes t)); [|reflexivity].
      f_equal. f_equal; lia.
    + destruct (d - 1 <? 0)%Z eqn:E3.
      * rewrite Hr. cbn [forallb]. rewrite depthOf_nil.
        replace (0 <=? d + -1 + 0)%Z with false
          by (symmetry; apply Z.leb_gt; apply Z.ltb_lt in E3; lia).
        reflexivity.
      * apply Z.ltb_ge in E3.
        replace (d - 1)%Z with (d + -1)%Z by lia.
        rewrite IH by lia.
        destruct (forallb _ (prefixes t)); [|reflexivity].
        f_equal. f_equal; lia.
    + replace (d <? 0)%Z with false by (symmetry; apply Z.ltb_ge; lia).
      rewrite Z.add_0_r in *.
      rewrite IH by lia.
      destruct (forallb _ (prefixes t)); [|reflexivity].
      f_equal. f_equal; lia.
Qed.

Lemma nestingDepth_nonneg (s : jsstring) : (0 <= nestingDepth s)%Z.
Proof. apply fold_max_base. Qed.

(** The scan from depth 0, in the words of the specification. *)
Lemma bracketScan_from_zero (s : jsstring) :
  bracketScan s 0 0 =
  if forallb (fun p => (0 <=? depthOf p)%Z) (prefixes s)
  then Ok (depthOf s, nestingDepth s)
  else Throw unbalanced.
Proof.
  rewrite bracketScan_spec by lia.
  rewrite (forallb_same _ (fun p => (0 <=? depthOf p)%Z))
    by (intros p; reflexivity).
  rewrite (map_ext _ depthOf) by (intros p; reflexivity).
  fold (nestingDepth s). pose proof (nestingDepth_nonneg s).
  destruct (forallb _ (prefixes s)); [|reflexivity].
  f_equal. f_equal. lia.
Qed.

(** ** The stages of validateXPath *)

Lemma collectViolations_spec (patterns : list RegExp) (t : jsstring) :
  forall acc,
    collectViolations patterns t acc
    = acc ++ map ruleDescription (filter (fun p => RegExp_test p t) patterns).
Proof.
  induction patterns as [|p r IH]; intros acc; cbn [collectViolations filter].
  - cbn [map]. now rewrite app_nil_r.
  - rewrite IH. destruct (RegExp_test p t); cbn [map].
    + rewrite <- app_assoc. reflexivity.
    + reflexivity.
Qed.

Lemma no_match_no_rule (patterns : list RegExp) (t : jsstring) :
  existsb (fun p => RegExp_test p t) patterns = false
  <-> filter (fun p => RegExp_test p t) patterns = [].
Proof.
  induction patterns as [|p r IH]; cbn [existsb filter].
  - tauto.
  - destruct (RegExp_test p t); cbn [orb].
    + split; discriminate.
    + exact IH.
Qed.

(** The equations of the matcher. *)
Lemma star_loop_nil (K : N -> bool) (cont : option N -> jsstring -> bool)
      (prev : option N) :
  star_loop K cont prev [] = cont prev [].
Proof. reflexivity. Qed.

Lemma star_loop_cons (K : N -> bool) (cont : option N -> jsstring -> bool)
      (prev : option N) (c : N) (t : jsstring) :
  star_loop K cont prev (c :: t)
  = (K c && star_loop K cont (Some c) t) || cont prev (c :: t).
Proof.
  cbn [star_loop]. destruct (K c); [|reflexivity].
  destruct (star_loop K cont (Some c) t); reflexivity.
Qed.

Lemma match_here_Bos (i : bool) (r : list ritem) (prev : option N) (s : jsstring) :
  match_here i (Bos :: r) prev s = is_none prev && match_here i r prev s.
Proof. reflexivity. Qed.

Lemma match_here_Eos (i : bool) (r : list ritem) (prev : option N) (s : jsstring) :
  match_here i (Eos :: r) prev s
  = is_none (hd_error s) && match_here i r prev s.
Proof. reflexivity. Qed.

Lemma match_here_WordB (i : bool) (r : list ritem) (prev : option N) (s : jsstring) :
  match_here i (WordB :: r) prev s
  = xorb (is_word_opt prev) (is_word_opt (hd_error s)) && match_here i r prev s.
Proof. reflexivity. Qed.

Lemma match_here_Lit_nil (i : bool) (k : cset) (r : list ritem) (prev : option N) :
  match_here i (Lit k :: r) prev [] = false.
Proof. reflexivity. Qed.

Lemma match_here_Lit_cons (i : bool) (k : cset) (r : list ritem)
      (prev : option N) (c : N) (t : jsstring) :
  match_here i (Lit k :: r) prev (c :: t)
  = cset_match i k c && match_here i r (Some c) t.
Proof. reflexivity. Qed.

Lemma match_here_Star (i : bool) (k : cset) (r : list ritem)
      (prev : option N) (s : jsstring) :
  match_here i (Star k :: r) prev s
  = star_loop (cset_match i k) (match_here i r) prev s.
Proof. reflexivity. Qed.

Lemma search_nil (i : bool) (items : list ritem) (prev : option N) :
  search i items prev [] = match_here i items prev [].
Proof. cbn [search]. destruct (match_here i items prev []); reflexivity. Qed.

Lemma search_cons (i : bool) (items : list ritem) (prev : option N)
      (c : N) (t : jsstring) :
  search i items prev (c :: t)
  = match_here i items prev (c :: t) || search i items (Some c) t.
Proof. cbn [search]. destruct (match_here i items prev (c :: t)); reflexivity. Qed.

Ltac mh_step :=
  rewrite ?match_here_Bos, ?match_here_Eos, ?match_here_WordB,
    ?match_here_Lit_nil, ?match_here_Lit_cons, ?match_here_Star.

Lemma search_bos (i : bool) (r : list ritem) (s : jsstring) :
  forall c, search i (Bos :: r) (Some c) s = false.
Proof.
  induction s as [|d t IH]; intros c.
  - rewrite search_nil, match_here_Bos. reflexivity.
  - rewrite search_cons, match_here_Bos. apply IH.
Qed.

Lemma star_eos (k : N -> bool) (cont : option N -> jsstring -> bool)
      (s : jsstring) :
  (forall p u, cont p u = is_none (hd_error u)) ->
  forall prev, star_loop k cont prev s = forallb k s.
Proof.
  intros Hc.
  induction s as [|c t IH]; intros prev.
  - rewrite star_loop_nil. now rewrite Hc.
  - rewrite star_loop_cons, IH, Hc. cbn. apply orb_false_r.
Qed.

(** The anchored whitelist expression accepts exactly the non-empty
    strings of whitelisted characters. *)
Lemma allowed_structure_spec (t : jsstring) :
  RegExp_test ALLOWED_STRUCTURE t
  = match t with
    | [] => false
    | _ => forallb allowedChar t
    end.
Proof.
  unfold RegExp_test, ALLOWED_STRUCTURE.
  cbn [ignoreCase body].
  destruct t as [|c t]; [reflexivity|].
  rewrite search_cons, search_bos, orb_false_r.
  rewrite match_here_Bos, match_here_Lit_cons, match_here_Star.
  rewrite star_eos
    by (intros p u; rewrite match_here_Eos; cbn; apply andb_true_r).
  reflexivity.
Qed.

Lemma tooDeep_message :
  XPathComplexityError
    (js "XPath exceeds maximum nesting depth of " ++ Number_toString 5)
  = tooDeep.
Proof. vm_compute. reflexivity. Qed.

Lemma tooManyPredicates_message :
  XPathComplexityError
    (js "XPath exceeds maximum predicate count of " ++ Number_toString 10)
  = tooManyPredicates.
Proof. vm_compute. reflexivity. Qed.

Lemma validateXPath_stages (s : jsstring) (config : Config) :
  trim s <> [] ->
  (Z.of_nat (List.length (trim s)) <= xpathMaxLength config)%Z ->
  containsBlocked (trim s) = false ->
  forallb allowedChar (trim s) = true ->
  validateXPath (VString s) config = bracketStage (trim s).
Proof.
  intros Hne Hlen Hblk Hall.
  unfold validateXPath. remember (trim s) as t eqn:Ht. clear Ht s.
  destruct t as [|c t]; [congruence|].
  cbn [List.length Nat.eqb].
  replace (Z.of_nat (S (List.length t)) >? xpathMaxLength config)%Z with false
    by (symmetry; rewrite Z.gtb_ltb; apply Z.ltb_ge; exact Hlen).
  rewrite collectViolations_spec.
  apply no_match_no_rule in Hblk.
  rewrite Hblk. cbn [map app List.length Nat.ltb Nat.leb].
  rewrite allowed_structure_spec, Hall. cbn [negb].
  rewrite bracketScan_from_zero.
  unfold bracketStage, balanced.
  destruct (forallb (fun p => (0 <=? depthOf p)%Z) (prefixes (c :: t)));
    [|reflexivity].
  cbn [bind andb].
  destruct (depthOf (c :: t) =? 0)%Z; cbn [negb]; [|reflexivity].
  rewrite !Z.gtb_ltb, tooDeep_message, tooManyPredicates_message.
  destruct (5 <? nestingDepth (c :: t))%Z; [reflexivity|].
  destruct (10 <? predicateCount (c :: t))%Z; reflexivity.
Qed.

(** Validation looks at the trimmed filter only. *)
Lemma validateXPath_trim (s : jsstring) (config : Config) :
  validateXPath (VString (trim s)) config = validateXPath (VString s) config.
Proof. unfold validateXPath. rewrite trim_idem. reflexivity. Qed.

(** An accepted filter is the trimmed input. *)
Lemma validateXPath_accepts_trimmed (s t : jsstring) (config : Config) :
  validateXPath (VString s) config = Ok (Some t) -> t = trim s.
Proof.
  unfold validateXPath.
  destruct (List.length (trim s) =? 0)%nat; [discriminate|].
  destruct (_ >? _)%Z; [discriminate|].
  destruct (0 <? _)%nat; [discriminate|].
  destruct (negb (RegExp_test _ _)); [discriminate|].
  destruct (bracketScan (trim s) 0 0) as [[d m]|e]; cbn [bind];
    [|discriminate].
  destruct (negb (d =? 0)%Z); [discriminate|].
  destruct (m >? 5)%Z; [discriminate|].
  destruct (_ >? 10)%Z; [discriminate|].
  congruence.
Qed.

(** C3.  A filter that, surrounding white space apart, is not empty, is
    made of whitelisted characters only, contains no blocked construct,
    is bracket-balanced with nesting depth at most 5 and at most 10
    predicates, and is no longer than the configured maximum (500 in the
    default limits) is returned trimmed and otherwise unchanged; and
    validation is idempotent: what validateXPath has accepted it accepts
    again and returns as it is. *)
Theorem validateXPath_identity (s : jsstring) (config : Config) :
  trim s <> [] ->
  forallb allowedChar (trim s) = true ->
  containsBlocked (trim s) = false ->
  balanced (trim s) = true ->
  (nestingDepth (trim s) <= 5)%Z ->
  (predicateCount (trim s) <= 10)%Z ->
  (Z.of_nat (List.length (trim s)) <= xpathMaxLength config)%Z ->
  validateXPath (VString s) config = Ok (Some (trim s))
  /\ validateXPath (VString (trim s)) config = Ok (Some (trim s))
  /\ (forall s' t' : jsstring,
         validateXPath (VString s') config = Ok (Some t') ->
         validateXPath (VString t') config = Ok (Some t')).
Proof.
  intros Hne Hall Hblk Hbal Hdepth Hpred Hlen.
  assert (H : validateXPath (VString s) config = Ok (Some (trim s))).
  { rewrite validateXPath_stages by assumption.
    unfold bracketStage. rewrite Hbal. cbn [negb].
    replace (5 <? nestingDepth (trim s))%Z with false
      by (symmetry; apply Z.ltb_ge; exact Hdepth).
    replace (10 <? predicateCount (trim s))%Z with false
      by (symmetry; apply Z.ltb_ge; exact Hpred).
    reflexivity. }
  split; [exact H|]. split.
  - rewrite validateXPath_trim. exact H.
  - intros s' t' H'.
    pose proof (validateXPath_accepts_trimmed s' t' config H') as ->.
    rewrite validateXPath_trim. exact H'.
Qed.

Lemma validateXPath_identity_witness :
  let s := js "  *[System[(EventID=1000 or EventID=1001) and Level>=2]] " in
  validateXPath (VString s) DEFAULT_CONFIG
  = Ok (Some (js "*[System[(EventID=1000 or EventID=1001) and Level>=2]]")).
Proof.
  intros s.
  refine (proj1 (validateXPath_identity s DEFAULT_CONFIG _ _ _ _ _ _ _)).
  - vm_compute. discriminate.
  - vm_compute. reflexivity.
  - vm_compute. reflexivity.
  - vm_compute. reflexivity.
  - vm_compute. discriminate.
  - vm_compute. discriminate.
  - vm_compute. discriminate.
Defined.

(** The predicates counted by validateXPath are the opening brackets of
    the trimmed filter. *)
Lemma predicateCount_occurrences (t : jsstring) :
  predicateCount t = occurrences (ch "[") t.
Proof.
  unfold predicateCount, occurrences. f_equal. f_equal.
  apply filter_ext. intros c. apply N.eqb_sym.
Qed.

(** C4.  For a filter that has passed the length check, the blocklist and
    the whitelist: when the bracket depth goes negative somewhere or is
    not zero at the end, the filter is rejected as unbalanced
    (XPathValidationError); a balanced filter is accepted with nesting
    depth up to 5 and up to 10 opening brackets, rejected as too complex
    (XPathComplexityError) from nesting depth 6 on, and from 11 opening
    brackets on.  The number of predicates is the number of occurrences
    of the character [ in the trimmed filter. *)
Theorem bracket_limits (s : jsstring) (config : Config) :
  trim s <> [] ->
  (Z.of_nat (List.length (trim s)) <= xpathMaxLength config)%Z ->
  containsBlocked (trim s) = false ->
  forallb allowedChar (trim s) = true ->
  let t := trim s in
  (balanced t = false -> validateXPath (VString s) config = Throw unbalanced)
  /\ (balanced t = true -> (nestingDepth t <= 5)%Z ->
      (occurrences (ch "[") t <= 10)%Z ->
      validateXPath (VString s) config = Ok (Some t))
  /\ (balanced t = true -> (6 <= nestingDepth t)%Z ->
      validateXPath (VString s) config = Throw tooDeep)
  /\ (balanced t = true -> (nestingDepth t <= 5)%Z ->
      (11 <= occurrences (ch "[") t)%Z ->
      validateXPath (VString s) config = Throw tooManyPredicates).
Proof.
  intros Hne Hlen Hblk Hall t. subst t.
  rewrite validateXPath_stages by assumption. unfold bracketStage.
  rewrite predicateCount_occurrences.
  repeat split.
  - intros ->. reflexivity.
  - intros -> Hd Hp. cbn [negb].
    replace (5 <? nestingDepth (trim s))%Z with false
      by (symmetry; apply Z.ltb_ge; exact Hd).
    replace (10 <? occurrences (ch "[") (trim s))%Z with false
      by (symmetry; apply Z.ltb_ge; exact Hp).
    reflexivity.
  - intros -> Hd. cbn [negb].
    replace (5 <? nestingDepth (trim s))%Z with true
      by (symmetry; apply Z.ltb_lt; lia).
    reflexivity.
  - intros -> Hd Hp. cbn [negb].
    replace (5 <? nestingDepth (trim s))%Z with false
      by (symmetry; apply Z.ltb_ge; exact Hd).
    replace (10 <? occurrences (ch "[") (trim s))%Z with true
      by (symmetry; apply Z.ltb_lt; lia).
    reflexivity.
Qed.

Lemma bracket_limits_witness :
  validateXPath (VString (js "*[a][b][c][d][e][f][g][h][i][j][k]")) DEFAULT_CONFIG
  = Throw tooManyPredicates.
Proof.
  refine (proj2 (proj2 (proj2
            (bracket_limits (js "*[a][b][c][d][e][f][g][h][i][j][k]")
                            DEFAULT_CONFIG _ _ _ _))) _ _ _).
  - vm_compute. discriminate.
  - vm_compute. discriminate.
  - vm_compute. reflexivity.
  - vm_compute. reflexivity.
  - vm_compute. reflexivity.
  - vm_compute. discriminate.
  - vm_compute. discriminate.
Defined.

(** The boundary cases of the specification and of the unit tests. *)
Example nesting_depth_boundary :
  nestingDepth (js "*[a[b[c[d[e]]]]]") = 5%Z
  /\ validateXPath (VString (js "*[a[b[c[d[e]]]]]")) DEFAULT_CONFIG
     = Ok (Some (js "*[a[b[c[d[e]]]]]"))
  /\ nestingDepth (js "*[a[b[c[d[e[f]]]]]]") = 6%Z
  /\ validateXPath (VString (js "*[a[b[c[d[e[f]]]]]]")) DEFAULT_CONFIG
     = Throw tooDeep.
Proof. repeat split; vm_compute; reflexivity. Qed.

Example predicate_count_boundary :
  occurrences (ch "[") (js "*[a][b][c][d][e][f][g][h][i][j]") = 10%Z
  /\ validateXPath (VString (js "*[a][b][c][d][e][f][g][h][i][j]")) DEFAULT_CONFIG
     = Ok (Some (js "*[a][b][c][d][e][f][g][h][i][j]"))
  /\ occurrences (ch "[") (js "*[a][b][c][d][e][f][g][h][i][j][k]") = 11%Z
  /\ validateXPath (VString (js "*[a][b][c][d][e][f][g][h][i][j][k]")) DEFAULT_CONFIG
     = Throw tooManyPredicates.
Proof. repeat split; vm_compute; reflexivity. Qed.

Example unbalanced_brackets :
  validateXPath (VString (js "*[System[EventID=1000]")) DEFAULT_CONFIG
  = Throw unbalanced
  /\ validateXPath (VString (js "*[System[EventID=1000]]]")) DEFAULT_CONFIG
     = Throw unbalanced
  /\ validateXPath (VString (js "*]a[")) DEFAULT_CONFIG = Throw unbalanced.
Proof. repeat split; vm_compute; reflexivity. Qed.

(** ** The blocklist and surrounding white space

    validateXPath looks for the blocked constructs in the trimmed filter.
    A rule of the blocklist starts and ends with a character that is not
    white space, so it matches in the trimmed filter exactly when it
    matches in the filter as given. *)

Ltac bool_props H :=
  repeat (rewrite ?orb_true_iff, ?andb_true_iff, ?orb_false_iff,
            ?andb_false_iff, ?N.eqb_eq, ?N.eqb_neq, ?N.leb_le, ?N.leb_gt in H).

Lemma space_not_word (c : N) : is_space c = true -> is_word c = false.
Proof.
  unfold is_space, is_word, is_digit, in_range. intros H.
  bool_props H.
  destruct (_ || _ || _ || _) eqn:E; [|reflexivity].
  bool_props E. lia.
Qed.

Lemma space_not_digit (c : N) : is_space c = true -> is_digit c = false.
Proof.
  intros H. apply space_not_word in H. unfold is_word in H.
  bool_props H. tauto.
Qed.

Lemma space_canonical (i : bool) (c : N) :
  is_space c = true -> Canonicalize i c = c.
Proof.
  intros H. unfold Canonicalize.
  apply space_not_word in H. unfold is_word in H. bool_props H.
  destruct H as [[[H _] _] _].
  destruct (in_range 97 122 c) eqn:E.
  - unfold in_range in E, H. bool_props E. lia.
  - now rewrite andb_false_r.
Qed.

Lemma atom_solid_sound (i : bool) (a : atom) (c : N) :
  atom_solid i a = true -> is_space c = true -> atom_match i a c = false.
Proof.
  destruct a as [p| | |]; cbn [atom_solid atom_match]; intros Ha Hc.
  - rewrite (space_canonical i c Hc).
    destruct (Canonicalize i p =? c)%N eqn:E; [|reflexivity].
    apply N.eqb_eq in E. rewrite E, Hc in Ha. discriminate.
  - discriminate.
  - now apply space_not_word.
  - now apply space_not_digit.
Qed.

Lemma cset_solid_sound (i : bool) (k : cset) (c : N) :
  cset_solid i k = true -> is_space c = true -> cset_match i k c = false.
Proof.
  destruct k as [a|[|] members]; cbn [cset_solid cset_match]; intros Hk Hc.
  - now apply atom_solid_sound.
  - discriminate.
  - cbn [xorb]. induction members as [|a r IH]; [reflexivity|].
    cbn [forallb existsb] in *. apply andb_true_iff in Hk as [H1 H2].
    rewrite (atom_solid_sound i a c H1 Hc), IH by assumption. reflexivity.
Qed.

Lemma blocked_patterns_stable : forallb stable_pattern BLOCKED_PATTERNS = true.
Proof. vm_compute. reflexivity. Qed.

Lemma star_loop_spaces (K : N -> bool) (cont : option N -> jsstring -> bool)
      (ws : jsstring) :
  (forall u, spaces u -> forall p, cont p u = false) ->
  spaces ws -> forall prev, star_loop K cont prev ws = false.
Proof.
  intros Hc Hws. induction Hws as [|w ws' Hw Hws' IH]; intros prev.
  - rewrite star_loop_nil. apply Hc. constructor.
  - rewrite star_loop_cons, IH, andb_false_r. cbn [orb].
    apply Hc. now constructor.
Qed.

Lemma match_here_spaces (i : bool) (items : list ritem) :
  needs_solid i items = true ->
  forall ws, spaces ws -> forall prev, match_here i items prev ws = false.
Proof.
  induction items as [|it r IH]; cbn [needs_solid]; [discriminate|].
  destruct it as [| | |k|k]; intros Hn ws Hws prev; mh_step.
  - rewrite IH by assumption. apply andb_false_r.
  - rewrite IH by assumption. apply andb_false_r.
  - rewrite IH by assumption. apply andb_false_r.
  - destruct Hws as [|w ws' Hw Hws']; [reflexivity|].
    rewrite match_here_Lit_cons.
    destruct (cset_solid i k) eqn:Ek.
    + now rewrite (cset_solid_sound i k w Ek Hw).
    + cbn [orb] in Hn. rewrite IH by assumption. apply andb_false_r.
  - apply star_loop_spaces; [|assumption].
    intros u Hu p. now apply IH.
Qed.

Lemma star_loop_true (K : N -> bool) (cont : option N -> jsstring -> bool)
      (s : jsstring) :
  (forall p u, cont p u = true) ->
  forall prev, star_loop K cont prev s = true.
Proof.
  intros Hc. destruct s as [|c t]; intros prev.
  - rewrite star_loop_nil. apply Hc.
  - rewrite star_loop_cons, Hc. apply orb_true_r.
Qed.

(** White space behind the subject does not change a match. *)
Lemma match_here_trailing (i : bool) (items : list ritem) (ws : jsstring) :
  ws_stable i items = true -> spaces ws ->
  forall s prev,
    match_here i items prev (s ++ ws) = match_here i items prev s.
Proof.
  intros Hst Hws. induction items as [|it r IH]; [reflexivity|].
  destruct it as [| | |k|k]; cbn [ws_stable] in Hst; intros s prev;
    mh_step.
  - now rewrite IH.
  - discriminate.
  - apply andb_true_iff in Hst as [Hn Hr].
    destruct s as [|c s'].
    + cbn [app]. rewrite !(match_here_spaces i r Hn) by (assumption || constructor).
      now rewrite !andb_false_r.
    + rewrite IH by assumption. reflexivity.
  - apply andb_true_iff in Hst as [Hn Hr].
    destruct s as [|c s'].
    + cbn [app]. rewrite match_here_Lit_nil.
      now apply match_here_spaces.
    + cbn [app]. rewrite !match_here_Lit_cons. now rewrite IH.
  - apply andb_true_iff in Hst as [Hn Hr].
    revert prev. induction s as [|c s' IHs]; intros prev.
    + cbn [app]. rewrite star_loop_nil.
      destruct r as [|it' r'].
      * now apply star_loop_true.
      * cbn [is_nil orb] in Hn.
        rewrite (match_here_spaces i (it' :: r') Hn) by constructor.
        apply star_loop_spaces; [|assumption].
        intros u Hu p. now apply match_here_spaces.
    + cbn [app]. rewrite !star_loop_cons, IHs.
      change (c :: s' ++ ws) with ((c :: s') ++ ws). now rewrite IH.
Qed.

Lemma match_here_leading (i : bool) (items : list ritem) (w : N) (s : jsstring) :
  starts_solid i items = true -> is_space w = true ->
  forall prev, match_here i items prev (w :: s) = false.
Proof.
  induction items as [|it r IH]; cbn [starts_solid]; [discriminate|].
  destruct it as [| | |k|k]; try discriminate; intros Hs Hw prev;
    mh_step.
  - rewrite IH by assumption. apply andb_false_r.
  - now rewrite (cset_solid_sound i k w Hs Hw).
Qed.

(** Only whether the character before is a word character matters. *)
Lemma match_here_prev (i : bool) (items : list ritem) :
  no_bos items = true ->
  forall p1 p2 s, is_word_opt p1 = is_word_opt p2 ->
                  match_here i items p1 s = match_here i items p2 s.
Proof.
  unfold no_bos.
  induction items as [|it r IH]; [reflexivity|].
  cbn [forallb]. intros Hb p1 p2 s Hp.
  apply andb_true_iff in Hb as [Hit Hr].
  destruct it as [| | |k|k]; mh_step.
  - discriminate.
  - now rewrite (IH Hr p1 p2 s Hp).
  - now rewrite Hp, (IH Hr p1 p2 s Hp).
  - destruct s as [|c t]; reflexivity.
  - destruct s as [|c t]; rewrite ?star_loop_nil, ?star_loop_cons;
      now rewrite (IH Hr p1 p2 _ Hp).
Qed.

Lemma search_spaces (i : bool) (items : list ritem) (ws : jsstring) :
  needs_solid i items = true -> spaces ws ->
  forall prev, search i items prev ws = false.
Proof.
  intros Hn Hws. induction Hws as [|w ws' Hw Hws' IH]; intros prev.
  - rewrite search_nil.
    rewrite match_here_spaces by (assumption || constructor). reflexivity.
  - rewrite search_cons.
    rewrite match_here_spaces by (assumption || now constructor).
    apply IH.
Qed.

Lemma search_trailing (i : bool) (items : list ritem) (ws : jsstring) :
  ws_stable i items = true -> needs_solid i items = true -> spaces ws ->
  forall s prev, search i items prev (s ++ ws) = search i items prev s.
Proof.
  intros Hst Hn Hws. induction s as [|c s' IH]; intros prev.
  - cbn [app]. rewrite !search_spaces by (assumption || constructor).
    reflexivity.
  - cbn [app]. rewrite !search_cons.
    change (c :: s' ++ ws) with ((c :: s') ++ ws).
    now rewrite match_here_trailing, IH.
Qed.

Lemma search_prev (i : bool) (items : list ritem) (p1 p2 : option N)
      (s : jsstring) :
  no_bos items = true -> is_word_opt p1 = is_word_opt p2 ->
  search i items p1 s = search i items p2 s.
Proof.
  intros Hb Hp. destruct s as [|c t]; rewrite ?search_nil, ?search_cons;
    now rewrite (match_here_prev i items Hb p1 p2 _ Hp).
Qed.

Lemma search_leading (i : bool) (items : list ritem) (lead : jsstring) :
  starts_solid i items = true -> no_bos items = true -> spaces lead ->
  forall s, search i items None (lead ++ s) = search i items None s.
Proof.
  intros Hs Hb Hl. induction Hl as [|w l Hw Hl IH]; intros s; [reflexivity|].
  cbn [app]. rewrite search_cons, match_here_leading by assumption.
  cbn [orb]. rewrite <- IH.
  apply search_prev; [assumption|].
  cbn [is_word_opt]. now apply space_not_word.
Qed.

(** A rule of the blocklist matches in a filter exactly when it matches
    in the trimmed filter. *)
Lemma blocked_test_trim (p : RegExp) (s : jsstring) :
  In p BLOCKED_PATTERNS -> RegExp_test p (trim s) = RegExp_test p s.
Proof.
  intros Hin.
  pose proof (proj1 (forallb_forall _ _) blocked_patterns_stable p Hin) as Hp.
  unfold stable_pattern in Hp.
  apply andb_true_iff in Hp as [Hp H4]. apply andb_true_iff in Hp as [Hp H3].
  apply andb_true_iff in Hp as [H1 H2].
  destruct (trim_decompose s) as [lead [trail [E [Hl Ht]]]].
  unfold RegExp_test. rewrite E at 2.
  rewrite search_leading, search_trailing by assumption. reflexivity.
Qed.

Lemma matchedRules_trim (s : jsstring) : matchedRules (trim s) = matchedRules s.
Proof. apply filter_ext_in. intros p Hp. now apply blocked_test_trim. Qed.

Lemma blocked_test_nil (p : RegExp) :
  In p BLOCKED_PATTERNS -> RegExp_test p [] = false.
Proof.
  intros Hin.
  pose proof (proj1 (forallb_forall _ _) blocked_patterns_stable p Hin) as Hp.
  unfold stable_pattern in Hp. apply andb_true_iff in Hp as [_ H4].
  unfold RegExp_test. apply search_spaces; [assumption | constructor].
Qed.

Lemma containsBlocked_rules (patterns : list RegExp) (s : jsstring) :
  existsb (fun p => RegExp_test p s) patterns = true ->
  filter (fun p => RegExp_test p s) patterns <> [].
Proof.
  intros H E. apply no_match_no_rule in E. congruence.
Qed.

(** ** Substrings *)

Lemma startsWith_spec (sub s : jsstring) :
  startsWith s sub = true <-> exists post, s = sub ++ post.
Proof.
  revert s. induction sub as [|x sub' IH]; intros s.
  - destruct s; cbn; split; eauto.
  - destruct s as [|y s']; cbn [startsWith].
    + split; [discriminate | intros [post H]; discriminate].
    + rewrite andb_true_iff, N.eqb_eq, IH. split.
      * intros [-> [post ->]]. exists post. reflexivity.
      * intros [post H]. cbn in H. injection H as -> ->. eauto.
Qed.

(** [includes] finds exactly the strings that have the pattern inside. *)
Lemma includes_spec (s sub : jsstring) :
  includes s sub = true <-> exists pre post, s = pre ++ sub ++ post.
Proof.
  induction s as [|c t IH]; cbn [includes].
  - rewrite orb_false_r, startsWith_spec. split.
    + intros [post H]. exists [], post. exact H.
    + intros [pre [post H]]. destruct pre; [eauto|discriminate].
  - rewrite orb_true_iff, startsWith_spec, IH. split.
    + intros [[post H]|[pre [post H]]].
      * exists [], post. exact H.
      * exists (c :: pre), post. cbn. now rewrite H.
    + intros [[|d pre] [post H]].
      * left. exists post. exact H.
      * right. cbn in H. injection H as _ ->. eauto.
Qed.

(** ** The extraction rules *)

Lemma lits_js (w : string) :
  lits w = map (fun c => Lit (One (Chr c))) (js w).
Proof. unfold lits, js. now rewrite map_map. Qed.

(** A run of pattern characters consumes a piece of the subject that is
    equal to it up to case. *)
Lemma exec_literal {A : Type} (l : jsstring) (r : list ritem)
      (k : option N -> jsstring -> option A) :
  forall prev s a,
    exec_here true (map (fun c => Lit (One (Chr c))) l ++ r) prev s k = Some a ->
    exists lab rest prev',
      s = lab ++ rest /\ sameIgnoringCase lab l
      /\ exec_here true r prev' rest k = Some a.
Proof.
  induction l as [|p l' IH]; intros prev s a H.
  - exists [], s, prev. repeat split. exact H.
  - cbn [map app exec_here] in H. destruct s as [|c t]; [discriminate|].
    destruct (cset_match true (One (Chr p)) c) eqn:E; [|discriminate].
    destruct (IH _ _ _ H) as [lab [rest [prev' [H1 [H2 H3]]]]].
    exists (c :: lab), rest, prev'. repeat split.
    + cbn. now rewrite H1.
    + unfold sameIgnoringCase in *. cbn [map]. rewrite H2. f_equal.
      cbn in E. apply N.eqb_eq in E. now symmetry.
    + exact H3.
Qed.

(** A star consumes a run of its class and hands over the rest. *)
Lemma star_exec_sound {A : Type} (K : N -> bool)
      (cont : option N -> jsstring -> option A) :
  forall s prev a,
    star_exec K cont prev s = Some a ->
    exists run rest prev',
      s = run ++ rest /\ Forall (fun c => K c = true) run
      /\ cont prev' rest = Some a.
Proof.
  induction s as [|c t IH]; intros prev a H; cbn [star_exec] in H.
  - exists [], [], prev. repeat split; [constructor | exact H].
  - destruct (K c) eqn:Ec.
    + destruct (star_exec K cont (Some c) t) as [a'|] eqn:Es.
      * injection H as ->.
        destruct (IH _ _ Es) as [run [rest [prev' [H1 [H2 H3]]]]].
        exists (c :: run), rest, prev'. repeat split.
        -- cbn. now rewrite H1.
        -- now constructor.
        -- exact H3.
      * exists [], (c :: t), prev. repeat split; [constructor | exact H].
    + exists [], (c :: t), prev. repeat split; [constructor | exact H].
Qed.

(** When the rest of the pattern always succeeds, a star consumes the
    longest run of its class. *)
Lemma star_exec_greedy {A : Type} (K : N -> bool)
      (cont : option N -> jsstring -> option A) :
  (forall p u, cont p u <> None) ->
  forall s prev,
    exists run rest prev',
      s = run ++ rest /\ Forall (fun c => K c = true) run
      /\ (rest = [] \/ exists c rest', rest = c :: rest' /\ K c = false)
      /\ star_exec K cont prev s = cont prev' rest.
Proof.
  intros Hc. induction s as [|c t IH]; intros prev; cbn [star_exec].
  - exists [], [], prev. repeat split; [constructor | now left].
  - destruct (K c) eqn:Ec.
    + destruct (IH (Some c)) as [run [rest [prev' [H1 [H2 [H3 H4]]]]]].
      exists (c :: run), rest, prev'. repeat split.
      * cbn. now rewrite H1.
      * now constructor.
      * exact H3.
      * rewrite H4. destruct (cont prev' rest) eqn:Ek; [reflexivity|].
        now apply Hc in Ek.
    + exists [], (c :: t), prev. repeat split; [constructor | right; eauto].
Qed.

Lemma firstn_consumed (run rest : jsstring) :
  firstn (List.length (run ++ rest) - List.length rest) (run ++ rest) = run.
Proof.
  rewrite length_app, Nat.add_sub. rewrite firstn_app, Nat.sub_diag.
  cbn [firstn]. rewrite firstn_all. apply app_nil_r.
Qed.

Lemma canon_eqb_nonletter (x c : N) :
  in_range 97 122 x = false -> in_range 65 90 x = false ->
  (Canonicalize true x =? Canonicalize true c)%N = (c =? x)%N.
Proof.
  unfold Canonicalize. intros H1 H2. rewrite H1. cbn [andb].
  destruct (in_range 97 122 c) eqn:E.
  - unfold in_range in *. bool_props E. bool_props H1. bool_props H2.
    replace (x =? c - 32)%N with false by (symmetry; apply N.eqb_neq; lia).
    symmetry. apply N.eqb_neq. lia.
  - apply N.eqb_sym.
Qed.

Lemma field_chars_spec (c : N) :
  cset_match true FIELD_CHARS c = negb (endsField c).
Proof.
  unfold FIELD_CHARS, endsField. cbn [cset_match existsb atom_match].
  rewrite !canon_eqb_nonletter by reflexivity.
  rewrite orb_false_r, xorb_true_l, orb_assoc. reflexivity.
Qed.

(** What a match of an extraction rule that starts here captures. *)
Lemma capture_here_spec (label : string) (prev : option N) (s cap : jsstring) :
  capture_here (field_rule label) prev s = Some cap ->
  exists lab ws post,
    s = lab ++ ws ++ cap ++ post
    /\ sameIgnoringCase lab (js label)
    /\ spaces ws
    /\ cap <> []
    /\ Forall (fun c => endsField c = false) cap
    /\ (post = [] \/ exists c post', post = c :: post' /\ endsField c = true).
Proof.
  unfold capture_here, field_rule. cbn [ignoreCase1 before group].
  rewrite lits_js. intros H.
  apply exec_literal in H as [lab [rest [p1 [-> [Hlab H]]]]].
  cbn [exec_here] in H.
  apply star_exec_sound in H as [ws [s1 [p2 [-> [Hws H]]]]].
  cbn beta in H. destruct s1 as [|c t]; [discriminate|].
  destruct (cset_match true FIELD_CHARS c) eqn:Ec; [|discriminate].
  destruct (star_exec_greedy (cset_match true FIELD_CHARS)
              (fun (_ : option N) (s2 : jsstring) =>
                 Some (firstn (List.length (c :: t) - List.length s2) (c :: t)))
              ltac:(discriminate) t (Some c))
    as [run [post [p3 [-> [Hrun [Hpost Hx]]]]]].
  rewrite Hx in H.
  change (c :: run ++ post) with ((c :: run) ++ post) in H.
  rewrite firstn_consumed in H. injection H as <-.
  exists lab, ws, post. repeat split.
  - assumption.
  - exact Hws.
  - discriminate.
  - constructor.
    + rewrite field_chars_spec in Ec. now destruct (endsField c).
    + eapply Forall_impl; [|exact Hrun]. cbn beta. intros a Ha.
      rewrite field_chars_spec in Ha. now destruct (endsField a).
  - destruct Hpost as [->|[d [post' [-> Hd]]]]; [now left|right].
    exists d, post'. split; [reflexivity|].
    rewrite field_chars_spec in Hd. now destruct (endsField d).
Qed.

Lemma String_match1_spec (re : RegExp1) (s : jsstring) :
  forall prev cap,
    String_match1 re prev s = Some cap ->
    exists pre rest prev',
      s = pre ++ rest /\ capture_here re prev' rest = Some cap.
Proof.
  induction s as [|c t IH]; intros prev cap H; cbn [String_match1] in H.
  - destruct (capture_here re prev []) eqn:E; [|discriminate].
    exists [], [], prev. split; [reflexivity | congruence].
  - destruct (capture_here re prev (c :: t)) eqn:E.
    + exists [], (c :: t), prev. split; [reflexivity | congruence].
    + destruct (IH _ _ H) as [pre [rest [prev' [-> H2]]]].
      exists (c :: pre), rest, prev'. split; [reflexivity | exact H2].
Qed.

(** A field that is extracted stands in the message behind its label. *)
Lemma extractField_captured (label : string) (message field : jsstring) :
  extractField (field_rule label) message = Some field ->
  capturedAfter (js label) message field.
Proof.
  unfold extractField.
  destruct (String_match1 (field_rule label) None message) as [cap|] eqn:E;
    [|discriminate].
  intros H. injection H as <-.
  apply String_match1_spec in E as [pre [rest [prev' [-> E]]]].
  apply capture_here_spec in E as [lab [ws [post [-> [H1 [H2 [H3 [H4 H5]]]]]]]].
  exists pre, lab, ws, cap, post. repeat split; assumption.
Qed.

(** No label, no field. *)
Lemma extractField_absent (label : string) (message : jsstring) :
  ~ mentions (js label) message ->
  extractField (field_rule label) message = None.
Proof.
  intros Hn.
  destruct (extractField (field_rule label) message) as [f|] eqn:E;
    [|reflexivity].
  exfalso. apply Hn.
  apply extractField_captured in E
    as [pre [lab [ws [run [post [-> [Hlab _]]]]]]].
  exists pre, lab, (ws ++ run ++ post). split; [reflexivity | exact Hlab].
Qed.

(** A piece of the subject that is equal to a run of pattern characters
    up to case is consumed by it. *)
Lemma exec_literal_complete {A : Type} (l : jsstring) (r : list ritem)
      (k : option N -> jsstring -> option A) :
  forall lab rest prev,
    sameIgnoringCase lab l ->
    exec_here true (map (fun c => Lit (One (Chr c))) l ++ r) prev (lab ++ rest) k
    = exec_here true r (prevAfter lab prev) rest k.
Proof.
  unfold sameIgnoringCase.
  induction l as [|p l' IH]; intros lab rest prev H.
  - destruct lab; [reflexivity | discriminate].
  - destruct lab as [|c lab']; [discriminate|].
    cbn [map] in H. injection H as Hc Hl.
    cbn [map app exec_here cset_match atom_match].
    rewrite Hc, N.eqb_refl. cbn [prevAfter fold_left].
    apply (IH lab' rest (Some c) Hl).
Qed.

(** A star consumes a whole run of its class when the rest of the
    pattern succeeds behind the run. *)
Lemma star_exec_run {A : Type} (K : N -> bool)
      (cont : option N -> jsstring -> option A) (rest : jsstring) (a : A) :
  (rest = [] \/ exists c rest', rest = c :: rest' /\ K c = false) ->
  forall run prev,
    Forall (fun c => K c = true) run ->
    cont (prevAfter run prev) rest = Some a ->
    star_exec K cont prev (run ++ rest) = Some a.
Proof.
  intros Hstop. induction run as [|c t IH]; intros prev Hrun Hk.
  - cbn [app prevAfter fold_left] in *.
    destruct Hstop as [->|[c [rest' [-> Hc]]]]; cbn [star_exec].
    + exact Hk.
    + rewrite Hc. exact Hk.
  - inversion Hrun as [|? ? Hc Ht]; subst.
    cbn [app star_exec]. rewrite Hc.
    rewrite (IH (Some c) Ht Hk). reflexivity.
Qed.

(** The capture of an extraction rule at a mention of its label that a
    field follows. *)
Lemma capture_here_complete (label : string) (prev : option N)
      (lab ws run post : jsstring) :
  sameIgnoringCase lab (js label) ->
  Forall (fun c => is_space c = true) ws ->
  (exists c run', run = c :: run' /\ is_space c = false) ->
  Forall (fun c => endsField c = false) run ->
  (post = [] \/ exists c post', post = c :: post' /\ endsField c = true) ->
  capture_here (field_rule label) prev (lab ++ ws ++ run ++ post) = Some run.
Proof.
  intros Hlab Hws [c [run' [-> Hc]]] Hrun Hpost.
  unfold capture_here, field_rule. cbn [ignoreCase1 before group].
  rewrite lits_js, exec_literal_complete by exact Hlab.
  cbn [exec_here].
  apply star_exec_run.
  - right. exists c, (run' ++ post). split; [reflexivity | exact Hc].
  - exact Hws.
  - inversion Hrun as [|? ? Ec Er]; subst.
    cbn [app exec_here]. rewrite field_chars_spec, Ec. cbn [negb].
    apply star_exec_run.
    + destruct Hpost as [->|[d [post' [-> Hd]]]]; [now left|right].
      exists d, post'. split; [reflexivity|].
      rewrite field_chars_spec, Hd. reflexivity.
    + eapply Forall_impl; [|exact Er]. cbn beta. intros a Ha.
      rewrite field_chars_spec, Ha. reflexivity.
    + cbn beta. apply (f_equal Some), (firstn_consumed (c :: run') post).
Qed.

Lemma prevAfter_app (a b : jsstring) (prev : option N) :
  prevAfter (a ++ b) prev = prevAfter b (prevAfter a prev).
Proof. unfold prevAfter. apply fold_left_app. Qed.

(** The search returns the capture of the first position at which the
    rule matches. *)
Lemma String_match1_first (re : RegExp1) (rest cap : jsstring) :
  forall pre prev,
    (forall pre1 x, pre = pre1 ++ x -> x <> [] ->
                    capture_here re (prevAfter pre1 prev) (x ++ rest) = None) ->
    capture_here re (prevAfter pre prev) rest = Some cap ->
    String_match1 re prev (pre ++ rest) = Some cap.
Proof.
  induction pre as [|c t IH]; intros prev Hearly Hcap.
  - cbn [app prevAfter fold_left] in *.
    destruct rest; cbn [String_match1]; now rewrite Hcap.
  - cbn [app String_match1].
    pose proof (Hearly [] (c :: t) eq_refl ltac:(discriminate)) as H0.
    cbn [app prevAfter fold_left] in H0. rewrite H0.
    apply IH.
    + intros pre1 x E Hx.
      apply (Hearly (c :: pre1) x); [cbn; now rewrite E | exact Hx].
    + exact Hcap.
Qed.

(** A field that stands behind the first mention of the label is
    extracted. *)
Lemma extractField_complete (label : string) (message field : jsstring) :
  fieldBehind (js label) message field ->
  extractField (field_rule label) message = Some field.
Proof.
  intros [pre [lab [ws [run [post [-> [Hlab [Hfirst [Hws [Hc [Hrun [Hpost ->]]]]]]]]]]]].
  unfold extractField.
  rewrite (String_match1_first (field_rule label)
             (lab ++ ws ++ run ++ post) run pre None); [reflexivity| |].
  - intros pre1 x -> Hx.
    destruct (capture_here (field_rule label) (prevAfter pre1 None)
                (x ++ lab ++ ws ++ run ++ post)) as [cap|] eqn:E;
      [|reflexivity].
    exfalso.
    apply capture_here_spec in E
      as [lab' [ws' [post' [E [Hlab' _]]]]].
    specialize (Hfirst pre1 lab' (ws' ++ cap ++ post')).
    rewrite <- E, <- app_assoc in Hfirst.
    specialize (Hfirst eq_refl Hlab').
    rewrite length_app in Hfirst.
    destruct x; [congruence | cbn [List.length] in Hfirst; lia].
  - now apply capture_here_complete.
Qed.

(** ** Classification of one record *)

Section Classification.
Context {host : Host}.

Lemma patternApplies_iff (pattern : CrashPattern) (record : EventRecord) :
  providerMatch pattern record || eventIdMatch pattern record = true
  <-> patternApplies pattern record.
Proof.
  unfold patternApplies, providerMatch, eventIdMatch, containsIgnoringCase.
  rewrite orb_true_iff, !existsb_exists. split.
  - intros [[p [H1 H2]]|[z [H1 H2]]].
    + left. exists p. split; [exact H1|]. now apply includes_spec.
    + right. apply Z.eqb_eq in H2. now subst z.
  - intros [[p [H1 H2]]|H].
    + left. exists p. split; [exact H1|]. now apply includes_spec.
    + right. exists (eventId record). split; [exact H | apply Z.eqb_refl].
Qed.

(** The loop over the patterns either finds no pattern that applies and
    adds nothing, or adds the signal of the first one that applies. *)
Lemma matchPatterns_first (record : EventRecord)
      (entries : list (jsstring * CrashPattern)) (crashes : list CrashSignal) :
  (Forall (fun entry => ~ patternApplies (snd entry) record) entries
   /\ matchPatterns record entries crashes = crashes)
  \/ exists earlier type pattern later,
      entries = earlier ++ (type, pattern) :: later
      /\ Forall (fun entry => ~ patternApplies (snd entry) record) earlier
      /\ patternApplies pattern record
      /\ matchPatterns record entries crashes
         = crashes ++ [signalFor record type].
Proof.
  induction entries as [|[type pattern] rest IH]; cbn [matchPatterns].
  - left. split; [constructor | reflexivity].
  - destruct (providerMatch pattern record || eventIdMatch pattern record)
      eqn:E.
    + right. exists [], type, pattern, rest.
      repeat split; [constructor | now apply patternApplies_iff].
    + assert (Hn : ~ patternApplies pattern record).
      { rewrite <- patternApplies_iff. congruence. }
      destruct IH as [[H1 H2]|[earlier [t [p [later [H1 [H2 [H3 H4]]]]]]]].
      * left. split; [now constructor | exact H2].
      * right. exists ((type, pattern) :: earlier), t, p, later.
        repeat split.
        -- cbn. now rewrite H1.
        -- now constructor.
        -- exact H3.
        -- exact H4.
Qed.

Lemma severityOf_spec (type : jsstring) :
  ((type = js "SystemCrash" \/ type = js "WHEA") ->
   severityOf type = Severity.Critical)
  /\ ((type = js "ApplicationCrash" \/ type = js "ServiceFailure") ->
      severityOf type = Severity.High)
  /\ ((type <> js "SystemCrash" /\ type <> js "WHEA"
       /\ type <> js "ApplicationCrash" /\ type <> js "ServiceFailure") ->
      severityOf type = Severity.Medium).
Proof.
  repeat split.
  - intros [->| ->]; reflexivity.
  - intros [->| ->]; reflexivity.
  - intros [H1 [H2 [H3 H4]]]. unfold severityOf.
    rewrite <- jsstring_eqb_eq in H1, H2, H3, H4.
    apply not_true_is_false in H1, H2, H3, H4.
    now rewrite H1, H2, H3, H4.
Qed.

(** C5.  The pattern table is, in order, ApplicationCrash,
    ApplicationHang, SystemCrash, ServiceFailure, WHEA.  For every record
    the classification adds nothing when no pattern applies, and
    otherwise adds exactly one signal, the one of the first pattern of
    the table that applies: it carries the record and the name of that
    pattern; its severity is Critical for SystemCrash and WHEA, High for
    ApplicationCrash and ServiceFailure and Medium otherwise; its
    faulting application and faulting module, when present, are what
    stands in the message behind the label 'Faulting application name:'
    or 'Faulting module name:' (in any case) and optional white space, up
    to the next comma or line break, trimmed; a message without the
    label gives no field; and a field that stands behind the first
    mention of the label, beginning with a character that is not white
    space, is extracted: the signal carries it, trimmed. *)
Theorem classification_first_match (record : EventRecord)
        (crashes : list CrashSignal) :
  map fst CRASH_PATTERNS
  = [js "ApplicationCrash"; js "ApplicationHang"; js "SystemCrash";
     js "ServiceFailure"; js "WHEA"]
  /\ ((Forall (fun entry => ~ patternApplies (snd entry) record) CRASH_PATTERNS
       /\ matchPatterns record CRASH_PATTERNS crashes = crashes)
      \/ exists earlier type pattern later signal,
          CRASH_PATTERNS = earlier ++ (type, pattern) :: later
          /\ Forall (fun entry => ~ patternApplies (snd entry) record) earlier
          /\ patternApplies pattern record
          /\ matchPatterns record CRASH_PATTERNS crashes = crashes ++ [signal]
          /\ event signal = record
          /\ crashType signal = type
          /\ ((type = js "SystemCrash" \/ type = js "WHEA") ->
              severity signal = Severity.Critical)
          /\ ((type = js "ApplicationCrash" \/ type = js "ServiceFailure") ->
              severity signal = Severity.High)
          /\ ((type <> js "SystemCrash" /\ type <> js "WHEA"
               /\ type <> js "ApplicationCrash"
               /\ type <> js "ServiceFailure") ->
              severity signal = Severity.Medium)
          /\ (forall f, faultingApplication signal = Some f ->
                        capturedAfter (js "Faulting application name:")
                                      (message record) f)
          /\ (~ mentions (js "Faulting application name:") (message record) ->
              faultingApplication signal = None)
          /\ (forall f, faultingModule signal = Some f ->
                        capturedAfter (js "Faulting module name:")
                                      (message record) f)
          /\ (~ mentions (js "Faulting module name:") (message record) ->
              faultingModule signal = None)
          /\ (forall f, fieldBehind (js "Faulting application name:")
                                    (message record) f ->
                        faultingApplication signal = Some f)
          /\ (forall f, fieldBehind (js "Faulting module name:")
                                    (message record) f ->
                        faultingModule signal = Some f)).
Proof.
  split; [reflexivity|].
  destruct (matchPatterns_first record CRASH_PATTERNS crashes)
    as [H|[earlier [type [pattern [later [H1 [H2 [H3 H4]]]]]]]].
  - now left.
  - right. exists earlier, type, pattern, later, (signalFor record type).
    destruct (severityOf_spec type) as [S1 [S2 S3]].
    repeat split; try assumption.
    + apply extractField_captured.
    + apply extractField_absent.
    + apply extractField_captured.
    + apply extractField_absent.
    + apply extractField_complete.
    + apply extractField_complete.
Qed.

End Classification.

(** The examples of the specification, on the example host. *)
Example classify_application_error :
  let r := sampleRecord 1000 "Application Error"
             "Faulting application name: notepad.exe, version: 10.0.22621.1"
             "2025-12-26T10:30:00.000Z" in
  matchPatterns (host := exampleHost) r CRASH_PATTERNS []
  = [ {| event := r; crashType := js "ApplicationCrash";
         severity := Severity.High;
         faultingApplication := Some (js "notepad.exe");
         faultingModule := None |} ].
Proof. vm_compute. reflexivity. Qed.

(** The field of the example of the specification stands behind the
    first mention of its label. *)
Example field_behind_label :
  fieldBehind (js "Faulting application name:")
    (js "Faulting application name: notepad.exe, version: 10.0.22621.1")
    (js "notepad.exe").
Proof.
  exists [], (js "Faulting application name:"), (js " "), (js "notepad.exe"),
    (js ", version: 10.0.22621.1").
  split; [reflexivity|]. split; [reflexivity|].
  split; [intros; apply Nat.le_0_l|].
  split; [repeat constructor|].
  split; [eexists; eexists; split; reflexivity|].
  split; [repeat constructor|].
  split; [right; eexists; eexists; split; reflexivity|].
  vm_compute. reflexivity.
Qed.

(** Of two mentions of the label, the field behind the first is the
    one extracted. *)
Example extract_first_mention :
  extractField APP_RULE
    (js "faulting APPLICATION name:   a.exe , Faulting application name: b.exe")
  = Some (js "a.exe").
Proof. vm_compute. reflexivity. Qed.

Example classify_whea :
  let r := sampleRecord 17 "Microsoft-Windows-WHEA-Logger" "A corrected hardware error has occurred."
             "2025-12-26T10:30:00.000Z" in
  map (fun x => (crashType x, severity x))
      (matchPatterns (host := exampleHost) r CRASH_PATTERNS [])
  = [(js "WHEA", Severity.Critical)].
Proof. vm_compute. reflexivity. Qed.

Example classify_no_pattern :
  matchPatterns (host := exampleHost)
    (sampleRecord 100 "My Application" "Service terminated unexpectedly."
       "2025-12-26T10:30:00.000Z") CRASH_PATTERNS []
  = [].
Proof. vm_compute. reflexivity. Qed.

(** Event code 1001 belongs to ApplicationCrash and to SystemCrash, and
    the provider here to SystemCrash: the first pattern wins. *)
Example classify_ambiguous :
  map (fun x => (crashType x, severity x))
      (matchPatterns (host := exampleHost)
         (sampleRecord 1001 "BugCheck" "The computer has rebooted from a bugcheck."
            "2025-12-26T10:30:00.000Z") CRASH_PATTERNS [])
  = [(js "ApplicationCrash", Severity.High)].
Proof. vm_compute. reflexivity. Qed.

(** ** Array.prototype.sort with a comparison by a key, larger keys first *)

Section SortFacts.
Context {A : Type}.
Variable compareFn : A -> A -> option Z.
Variable key : A -> Z.

Lemma keyed_comesAfter (l : list A) (a b : A) :
  keyed compareFn key l -> In a l -> In b l ->
  comesAfter compareFn a b = (key a <? key b)%Z.
Proof.
  intros Hk Ha Hb. unfold comesAfter. rewrite (Hk a b Ha Hb).
  destruct (key a <? key b)%Z eqn:E.
  - apply Z.ltb_lt in E. apply Z.ltb_lt. lia.
  - apply Z.ltb_ge in E. apply Z.ltb_ge. lia.
Qed.

Lemma keyed_incl (l l' : list A) : incl l' l -> keyed compareFn key l -> keyed compareFn key l'.
Proof. intros Hi Hk a b Ha Hb. apply Hk; now apply Hi. Qed.

Lemma insertSorted_perm (a : A) (l : list A) :
  Permutation (a :: l) (insertSorted compareFn a l).
Proof.
  induction l as [|b r IH]; cbn [insertSorted]; [reflexivity|].
  destruct (comesAfter compareFn a b); [|reflexivity].
  rewrite perm_swap. now apply perm_skip.
Qed.

Lemma Array_sort_perm (l : list A) : Permutation l (Array_sort compareFn l).
Proof.
  induction l as [|a r IH]; cbn [Array_sort]; [reflexivity|].
  rewrite <- insertSorted_perm. now apply perm_skip.
Qed.

Lemma insertSorted_sorted (a : A) (l : list A) :
  keyed compareFn key (a :: l) -> StronglySorted (notBefore key) l ->
  StronglySorted (notBefore key) (insertSorted compareFn a l).
Proof.
  intros Hk Hs. induction Hs as [|b r Hs IH Hb]; cbn [insertSorted].
  - repeat constructor.
  - rewrite (keyed_comesAfter (a :: b :: r) a b Hk) by (cbn; tauto).
    destruct (key a <? key b)%Z eqn:E.
    + apply Z.ltb_lt in E. constructor.
      * apply IH. eapply keyed_incl; [|exact Hk].
        intros x [->|Hx]; cbn; tauto.
      * eapply Permutation_Forall; [apply insertSorted_perm|].
        constructor; [unfold notBefore; lia | exact Hb].
    + apply Z.ltb_ge in E. constructor.
      * now constructor.
      * constructor; [exact E|].
        eapply Forall_impl; [|exact Hb]. unfold notBefore. intros x Hx. lia.
Qed.

Lemma Array_sort_sorted (l : list A) :
  keyed compareFn key l -> StronglySorted (notBefore key) (Array_sort compareFn l).
Proof.
  induction l as [|a r IH]; intros Hk; cbn [Array_sort]; [constructor|].
  apply insertSorted_sorted.
  - eapply keyed_incl; [|exact Hk].
    intros x [->|Hx]; [now left|right].
    eapply Permutation_in; [symmetry; apply Array_sort_perm | exact Hx].
  - apply IH. eapply keyed_incl; [|exact Hk]. intros x Hx. now right.
Qed.

(** Stability: the elements of one key keep their order. *)
Lemma insertSorted_stable (a : A) (l : list A) (t : Z) :
  keyed compareFn key (a :: l) ->
  filter (fun x => (key x =? t)%Z) (insertSorted compareFn a l)
  = filter (fun x => (key x =? t)%Z) (a :: l).
Proof.
  intros Hk. induction l as [|b r IH]; cbn [insertSorted]; [reflexivity|].
  rewrite (keyed_comesAfter (a :: b :: r) a b Hk) by (cbn; tauto).
  assert (Hk' : keyed compareFn key (a :: r)).
  { eapply keyed_incl; [|exact Hk]. intros x [->|Hx]; cbn; tauto. }
  specialize (IH Hk').
  destruct (key a <? key b)%Z eqn:E; [|reflexivity].
  apply Z.ltb_lt in E.
  cbn [filter] in *. rewrite IH.
  destruct (key b =? t)%Z eqn:Eb; [|reflexivity].
  apply Z.eqb_eq in Eb.
  replace (key a =? t)%Z with false by (symmetry; apply Z.eqb_neq; lia).
  reflexivity.
Qed.

Lemma Array_sort_stable (l : list A) (t : Z) :
  keyed compareFn key l ->
  filter (fun x => (key x =? t)%Z) (Array_sort compareFn l)
  = filter (fun x => (key x =? t)%Z) l.
Proof.
  induction l as [|a r IH]; intros Hk; cbn [Array_sort]; [reflexivity|].
  rewrite insertSorted_stable.
  - cbn [filter]. rewrite IH; [reflexivity|].
    eapply keyed_incl; [|exact Hk]. intros x Hx. now right.
  - eapply keyed_incl; [|exact Hk].
    intros x [->|Hx]; [now left|right].
    eapply Permutation_in; [symmetry; apply Array_sort_perm | exact Hx].
Qed.

End SortFacts.

(** ** The scan over the channels *)

Section Scan.
Context {host : Host}.

Lemma matchPatterns_app (record : EventRecord)
      (entries : list (jsstring * CrashPattern)) (crashes : list CrashSignal) :
  matchPatterns record entries crashes
  = crashes ++ matchPatterns record entries [].
Proof.
  induction entries as [|[type pattern] rest IH]; cbn [matchPatterns].
  - now rewrite app_nil_r.
  - destruct (providerMatch pattern record || eventIdMatch pattern record);
      [reflexivity | exact IH].
Qed.

Lemma classifyEvents_app (events : list EventRecord) :
  forall crashes,
    classifyEvents events crashes = crashes ++ classifyEvents events [].
Proof.
  induction events as [|e r IH]; intros crashes; cbn [classifyEvents].
  - now rewrite app_nil_r.
  - rewrite IH, (IH (matchPatterns e CRASH_PATTERNS [])).
    rewrite (matchPatterns_app e CRASH_PATTERNS crashes).
    now rewrite app_assoc.
Qed.

Lemma validateChannel_allowed_string (c : jsstring) :
  In c ALLOWED_CHANNELS -> validateChannel (VString c) = Ok c.
Proof.
  intros [<-|[<-|[]]]; reflexivity.
Qed.

(** The loop over allowed channels never throws: a query that fails adds
    nothing, the others add their signals. *)
Lemma scanChannels_spec (startTime : jsstring) (config : Config)
      (channels : list jsstring) :
  Forall (fun c => In c ALLOWED_CHANNELS) channels ->
  forall st crashes,
    scanChannels channels startTime config st crashes
    = (snd (channelOutcomes channels startTime config st),
       Ok (crashes
             ++ List.concat (map signalsOf
                          (fst (channelOutcomes channels startTime config st))))).
Proof.
  induction 1 as [|c r Hc Hr IH]; intros st crashes;
    cbn [scanChannels channelOutcomes].
  - cbn. now rewrite app_nil_r.
  - rewrite (validateChannel_allowed_string c Hc).
    fold (scanQuery startTime).
    destruct (queryEvents st c (scanQuery startTime) config) as [st1 outcome].
    destruct outcome as [events|e]; rewrite IH;
      destruct (channelOutcomes r startTime config st1) as [outcomes st2];
      cbn [fst snd map List.concat signalsOf].
    + rewrite classifyEvents_app, app_assoc. reflexivity.
    + reflexivity.
Qed.

Lemma newestFirst_keyed (l : list CrashSignal) :
  Forall readable l -> keyed newestFirst instant l.
Proof.
  intros Hl a b Ha Hb. rewrite Forall_forall in Hl.
  pose proof (Hl a Ha) as Ra. pose proof (Hl b Hb) as Rb.
  unfold readable, newestFirst, instant in *.
  destruct (Date_parse (timeCreated (event a))); [|congruence].
  destruct (Date_parse (timeCreated (event b))); [|congruence].
  reflexivity.
Qed.

(** C6.  In a scan over allowed channels whose start time can be
    written, a query that fails on one channel is swallowed: the scan
    never fails, a failed channel contributes no signal, and the signals
    of the other channels are all returned.  The result is the stable
    sort of the signals found, in the order of the scan (channel by
    channel, and in a channel in the order of its records); when the
    timestamps of the signals can be read, it is ordered newest first,
    and signals of the same instant keep their order of the scan. *)
Theorem scan_isolates_failures_and_sorts
        (Date_now : Z) (st : SourceState) (options : CrashOptions)
        (config : Config) (startTime : jsstring) :
  let scanned := match channels options with
                 | Some l => l
                 | None => [js "System"; js "Application"]
                 end in
  Forall (fun c => In c ALLOWED_CHANNELS) scanned ->
  scanStartTime Date_now options config = Ok startTime ->
  let outcomes := channelOutcomes scanned startTime config st in
  let found := List.concat (map signalsOf (fst outcomes)) in
  let returned := Array_sort newestFirst found in
  findCrashSignals Date_now st options config = (snd outcomes, Ok returned)
  /\ (forall e, signalsOf (Throw e) = [])
  /\ Permutation found returned
  /\ (Forall readable found ->
      StronglySorted (fun a b => (instant b <= instant a)%Z) returned
      /\ forall t, filter (fun x => (instant x =? t)%Z) returned
                   = filter (fun x => (instant x =? t)%Z) found).
Proof.
  intros scanned Hallowed Hstart outcomes found returned.
  repeat split.
  - unfold findCrashSignals. fold scanned. rewrite Hstart.
    rewrite (scanChannels_spec startTime config scanned Hallowed). reflexivity.
  - apply Array_sort_perm.
  - apply (Array_sort_sorted newestFirst instant). now apply newestFirst_keyed.
  - intros t. apply (Array_sort_stable newestFirst instant).
    now apply newestFirst_keyed.
Qed.

End Scan.

(** A scan on the example host: the failure on System is swallowed, and
    the three signals of Application come newest first, the two of the
    same instant in the order of the log. *)
Lemma scan_isolates_failures_and_sorts_witness :
  exists remaining returned,
    findCrashSignals (host := exampleHost) 1766745000000 sampleSource
      {| hours := None; channels := None |} DEFAULT_CONFIG
    = (remaining, Ok returned)
    /\ map (fun x => (recordId (event x), crashType x)) returned
       = [(2%Z, js "ServiceFailure"); (1%Z, js "ApplicationCrash");
          (3%Z, js "ApplicationHang")].
Proof.
  destruct (scan_isolates_failures_and_sorts (host := exampleHost)
              1766745000000 sampleSource
              {| hours := None; channels := None |} DEFAULT_CONFIG
              (js "2025-12-25T10:30:00.000Z")) as [H _].
  - constructor; [left; reflexivity|].
    constructor; [right; left; reflexivity | constructor].
  - vm_compute. reflexivity.
  - eexists. eexists. split; [exact H|]. vm_compute. reflexivity.
Defined.

(** ** Time bounds *)

Lemma iso_shape_spec (s : jsstring) : RegExp_test ISO_SHAPE s = isoShape s.
Proof.
  unfold RegExp_test, ISO_SHAPE, startsWithIsoShape_items, isoShape.
  cbn [ignoreCase body].
  destruct s as [|c0 s]; [reflexivity|].
  rewrite search_cons, search_bos, orb_false_r, match_here_Bos.
  cbn [is_none andb].
  do 18 (rewrite match_here_Lit_cons;
         destruct s as [|? s];
         [ rewrite match_here_Lit_nil;
           cbn [cset_match atom_match Canonicalize andb]; btauto |]).
  rewrite match_here_Lit_cons.
  cbn [match_here cset_match atom_match Canonicalize andb forallb].
  btauto.
Qed.

Lemma toISOString_cases (t : Z) :
  (exists iso, toISOString t = Ok iso)
  \/ exists msg, toISOString t = Throw (RangeError msg).
Proof.
  unfold toISOString. destruct (8640000000000000 <? Z.abs t)%Z.
  - right. eexists. reflexivity.
  - left. destruct (civil_from_days (t / msPerDay)) as [[y m] d].
    eexists. reflexivity.
Qed.

(** C8, as stated, fails: a start time whose month, day, hour, minute
    and second are all 99 is no ISO 8601 timestamp, and one followed by
    arbitrary text is none either, yet buildTimeRangeXPath accepts both
    and puts them in the filter; an empty string is not a timestamp and
    is skipped without an error. *)
Lemma shape_is_not_strict_iso :
  strictIso8601 (js "2025-99-99T99:99:99") = None
  /\ buildTimeRangeXPath (Some (js "2025-99-99T99:99:99")) None
     = Ok (Some (js "*[System[TimeCreated[@SystemTime>='2025-99-99T99:99:99']]]"))
  /\ strictIso8601 (js "2025-01-01T00:00:00' or '1'='1") = None
  /\ buildTimeRangeXPath (Some (js "2025-01-01T00:00:00' or '1'='1")) None
     = Ok (Some (js "*[System[TimeCreated[@SystemTime>='2025-01-01T00:00:00' or '1'='1']]]"))
  /\ strictIso8601 [] = None
  /\ buildTimeRangeXPath (Some []) None = Ok None.
Proof. repeat split; vm_compute; reflexivity. Qed.

Section TimeBounds.
Context {host : Host}.

Lemma buildTimeRangeXPath_fails (startTime endTime : option jsstring) :
  (exists e, buildTimeRangeXPath startTime endTime = Throw e)
  <-> (exists s, truthy startTime = Some s /\ isoShape s = false)
      \/ (exists s, truthy endTime = Some s /\ isoShape s = false).
Proof.
  unfold buildTimeRangeXPath.
  destruct (truthy startTime) as [st|]; destruct (truthy endTime) as [et|];
    rewrite ?iso_shape_spec;
    repeat match goal with
           | |- context [isoShape ?x] => destruct (isoShape x) eqn:?
           end;
    cbn [negb bind];
    repeat match goal with
           | |- context [(List.length ?l =? 0)%nat] =>
               destruct (List.length l =? 0)%nat
           end;
    split;
    try (intros [e H]; discriminate H);
    try (intros [[s [H1 H2]]|[s [H1 H2]]]; congruence);
    try (intros _; eexists; reflexivity);
    try (intros _; left; eexists; split; [reflexivity | assumption]);
    try (intros _; right; eexists; split; [reflexivity | assumption]).
Qed.

(** C8, amended.  buildTimeRangeXPath fails exactly when a start or end
    time that is given and not empty does not begin with the shape
    dddd-dd-ddTdd:dd:dd (a test of the shape of the first 19 characters,
    not a strict reading of ISO 8601: the ranges of the fields and the
    text behind are not looked at), and then with XPathValidationError;
    an absent or empty time is skipped.  The time bounds of queryEvents
    fail with the error 'Invalid startTime format' or 'Invalid endTime
    format' exactly when the bound is given, not empty, and the host's
    Date yields an invalid date for it.  Neither enforces an order
    between start and end: a pair of bounds is accepted exactly when
    each bound is accepted alone. *)
Theorem time_bounds_checked_by_shape (startTime endTime : option jsstring) :
  ((exists e, buildTimeRangeXPath startTime endTime = Throw e)
   <-> (exists s, truthy startTime = Some s /\ isoShape s = false)
       \/ (exists s, truthy endTime = Some s /\ isoShape s = false))
  /\ (forall e, buildTimeRangeXPath startTime endTime = Throw e ->
                exists msg, e = XPathValidationError msg [])
  /\ ((exists r, buildTimeRangeXPath startTime endTime = Ok r)
      <-> (exists r1, buildTimeRangeXPath startTime None = Ok r1)
          /\ (exists r2, buildTimeRangeXPath None endTime = Ok r2))
  /\ (timeFilter "startTime" "StartTime" startTime
      = Throw (Error (js "Invalid startTime format"))
      <-> exists s, truthy startTime = Some s /\ Date_parse s = None)
  /\ (timeFilter "endTime" "EndTime" endTime
      = Throw (Error (js "Invalid endTime format"))
      <-> exists s, truthy endTime = Some s /\ Date_parse s = None).
Proof.
  split; [apply buildTimeRangeXPath_fails|]. split; [|split; [|split]].
  - unfold buildTimeRangeXPath. intros e.
    destruct (truthy startTime) as [st|]; destruct (truthy endTime) as [et|];
      repeat match goal with
             | |- context [RegExp_test ISO_SHAPE ?x] =>
                 destruct (RegExp_test ISO_SHAPE x)
             end;
      cbn [negb bind];
      repeat match goal with
             | |- context [(List.length ?l =? 0)%nat] =>
                 destruct (List.length l =? 0)%nat
             end;
      intros H; try discriminate H; injection H as <-; eexists; reflexivity.
  - assert (Hok : forall a b,
               (exists r, buildTimeRangeXPath a b = Ok r)
               <-> ~ exists e, buildTimeRangeXPath a b = Throw e).
    { intros a b. destruct (buildTimeRangeXPath a b) as [r|e]; split.
      - intros _ [e H]. discriminate.
      - intros _. eauto.
      - intros [r H]. discriminate.
      - intros H. exfalso. apply H. eauto. }
    rewrite !Hok, !buildTimeRangeXPath_fails. cbn [truthy]. split.
    + intros H. split; intros [[s [H1 H2]]|[s [H1 H2]]];
        try discriminate; apply H; eauto.
    + intros [H1 H2] [X|X]; [apply H1 | apply H2]; eauto.
  - unfold timeFilter. destruct (truthy startTime) as [s|].
    + destruct (Date_parse s) as [t|] eqn:E.
      * split; [|intros [s' [X Y]]; congruence].
        destruct (toISOString_cases t) as [[iso ->]|[msg ->]]; discriminate.
      * split; [eauto | reflexivity].
    + split; [discriminate | intros [s' [X Y]]; discriminate].
  - unfold timeFilter. destruct (truthy endTime) as [s|].
    + destruct (Date_parse s) as [t|] eqn:E.
      * split; [|intros [s' [X Y]]; congruence].
        destruct (toISOString_cases t) as [[iso ->]|[msg ->]]; discriminate.
      * split; [eauto | reflexivity].
    + split; [discriminate | intros [s' [X Y]]; discriminate].
Qed.

End TimeBounds.

(** The end may lie before the start. *)
Example end_before_start :
  buildTimeRangeXPath (Some (js "2025-12-31T23:59:59Z"))
                      (Some (js "2025-01-01T00:00:00Z"))
  = Ok (Some (js "*[System[TimeCreated[@SystemTime>='2025-12-31T23:59:59Z'] and TimeCreated[@SystemTime<='2025-01-01T00:00:00Z']]]"))
  /\ buildTimeRangeXPath (Some (js "invalid-date")) None
     = Throw (XPathValidationError
                (js "Invalid startTime format, expected ISO 8601") []).
Proof. split; vm_compute; reflexivity. Qed.

(** ** The hours to look back and the clock *)

Section Lookback.
Context {host : Host}.

(** C9, amended.  The clamp of the hours to look back is a function of
    the requested hours and the limits alone, min(max(1, requested ?? 24),
    maximum), and lies between 1 and the maximum when the maximum is at
    least 1.  'Now' is not an argument of the scan: findCrashSignals reads
    the clock itself, and the start time of the prepared query is that
    reading minus the clamped hours.  Two runs with equal arguments
    prepare equal queries when they read the same value from the clock. *)
Theorem lookback_clamp_deterministic
        (Date_now1 Date_now2 : Z) (channel : jsstring)
        (options : CrashOptions) (config : Config) :
  (1 <= maxTimeRangeHours config)%Z ->
  let wanted := match hours options with Some h => h | None => 24%Z end in
  clampHours (hours options) config
  = Z.min (Z.max 1 wanted) (maxTimeRangeHours config)
  /\ (1 <= clampHours (hours options) config <= maxTimeRangeHours config)%Z
  /\ scanStartTime Date_now1 options config
     = toISOString (Date_now1
                    - clampHours (hours options) config * 60 * 60 * 1000)
  /\ (Date_now1 = Date_now2 ->
      preparedQuery Date_now1 channel options config
      = preparedQuery Date_now2 channel options config).
Proof.
  intros Hmax wanted. repeat split.
  - unfold clampHours. fold wanted. lia.
  - unfold clampHours. fold wanted. lia.
  - intros ->. reflexivity.
Qed.

End Lookback.

Lemma lookback_clamp_deterministic_witness :
  (1 <= clampHours (Some 500%Z) DEFAULT_CONFIG <= 168)%Z.
Proof.
  apply (lookback_clamp_deterministic (host := exampleHost) 0 0 (js "System")
           {| hours := Some 500%Z; channels := None |} DEFAULT_CONFIG).
  simpl. lia.
Defined.

(** C9, as stated, fails: with the same options and limits, a scan that
    reads 0 from the clock and one that reads 3600000 prepare different
    queries. *)
Lemma prepared_query_follows_clock :
  let options := {| hours := None; channels := None |} in
  scanStartTime 0 options DEFAULT_CONFIG = Ok (js "1969-12-31T00:00:00.000Z")
  /\ scanStartTime 3600000 options DEFAULT_CONFIG
     = Ok (js "1969-12-31T01:00:00.000Z")
  /\ preparedQuery (host := exampleHost) 0 (js "System") options DEFAULT_CONFIG
     <> preparedQuery (host := exampleHost) 3600000 (js "System") options
                      DEFAULT_CONFIG.
Proof.
  intros options. split; [vm_compute; reflexivity|].
  split; [vm_compute; reflexivity|].
  intros H.
  apply (f_equal (fun r => match r with
                           | Ok script => script
                           | Throw _ => []
                           end)) in H.
  apply jsstring_eqb_eq in H. vm_compute in H. discriminate H.
Qed.

(** ** Blocked constructs *)

Lemma prevAfter_last (pre : jsstring) : prevAfter pre None = lastChar pre.
Proof.
  unfold prevAfter, lastChar.
  assert (H : forall prev, fold_left (fun _ c => Some c) pre prev
                           = match rev pre with
                             | c :: _ => Some c
                             | [] => prev
                             end).
  { induction pre as [|c t IH]; intros prev; [reflexivity|].
    cbn [fold_left rev]. rewrite IH.
    destruct (rev t); reflexivity. }
  rewrite H. destruct (rev pre); reflexivity.
Qed.

(** A match at a position is found by the search. *)
Lemma search_at (i : bool) (items : list ritem) (pre rest : jsstring) :
  forall prev,
    match_here i items (prevAfter pre prev) rest = true ->
    search i items prev (pre ++ rest) = true.
Proof.
  induction pre as [|c t IH]; intros prev H.
  - cbn [app prevAfter fold_left] in *.
    destruct rest as [|d u]; [now rewrite search_nil|].
    rewrite search_cons, H. reflexivity.
  - cbn [app]. rewrite search_cons.
    rewrite (IH (Some c)) by exact H. apply orb_true_r.
Qed.

(** A run of pattern characters matches a piece of the subject that is
    equal to it up to case. *)
Lemma match_here_literal (i : bool) (l : jsstring) (r : list ritem) :
  forall w prev rest,
    map (Canonicalize i) w = map (Canonicalize i) l ->
    match_here i (map (fun c => Lit (One (Chr c))) l ++ r) prev (w ++ rest)
    = match_here i r (prevAfter w prev) rest.
Proof.
  induction l as [|p l' IH]; intros w prev rest H.
  - destruct w; [reflexivity | discriminate].
  - destruct w as [|c w']; [discriminate|].
    cbn [map] in H. injection H as Hc Hw.
    cbn [map app]. rewrite match_here_Lit_cons.
    cbn [cset_match atom_match]. rewrite Hc, N.eqb_refl. cbn [andb].
    apply (IH w' (Some c) rest Hw).
Qed.

(** A star can take a whole run of its class. *)
Lemma star_loop_run (K : N -> bool) (cont : option N -> jsstring -> bool)
      (run rest : jsstring) :
  Forall (fun c => K c = true) run ->
  forall prev,
    cont (prevAfter run prev) rest = true ->
    star_loop K cont prev (run ++ rest) = true.
Proof.
  induction 1 as [|c t Hc Ht IH]; intros prev H.
  - cbn [app prevAfter fold_left] in *.
    destruct rest as [|d u]; [exact H|].
    rewrite star_loop_cons, H. apply orb_true_r.
  - cbn [app]. rewrite star_loop_cons, Hc.
    rewrite (IH (Some c)) by exact H. reflexivity.
Qed.

Lemma canon_word (c : N) : is_word (Canonicalize true c) = is_word c.
Proof.
  unfold Canonicalize. cbn [andb].
  destruct (in_range 97 122 c) eqn:E; [|reflexivity].
  unfold is_word. rewrite E. cbn [orb].
  unfold in_range in *. bool_props E.
  replace ((65 <=? c - 32) && (c - 32 <=? 90))%N with true
    by (symmetry; apply andb_true_iff; split; apply N.leb_le; lia).
  now rewrite orb_true_r.
Qed.

(** A name and what closes it: [\bNAME\s*CLOSE], case ignored. *)
Lemma named_rule_matches (name close : jsstring) (n0 : N) (names : jsstring)
      (pre w ws post : jsstring) :
  name = n0 :: names -> is_word n0 = true ->
  sameIgnoringCase w name -> spaces ws ->
  is_word_opt (lastChar pre) = false ->
  search true
         (WordB :: map (fun c => Lit (One (Chr c))) name
                ++ Star (One ESpace) :: map (fun c => Lit (One (Chr c))) close)
         None (pre ++ w ++ ws ++ close ++ post)
  = true.
Proof.
  intros Hname Hn0 Hw Hws Hpre.
  apply search_at. rewrite prevAfter_last, match_here_WordB, Hpre.
  unfold sameIgnoringCase in Hw.
  assert (Hhead : is_word_opt (hd_error (w ++ ws ++ close ++ post)) = true).
  { subst name. destruct w as [|c w']; [discriminate|].
    cbn [map] in Hw. injection Hw as Hc _.
    cbn [app hd_error is_word_opt].
    now rewrite <- canon_word, Hc, canon_word. }
  rewrite Hhead. cbn [xorb andb].
  rewrite (match_here_literal true name _ w _ _ Hw), match_here_Star.
  apply star_loop_run; [exact Hws|].
  rewrite <- (app_nil_r (map (fun c => Lit (One (Chr c))) close)).
  now rewrite (match_here_literal true close [] close _ post eq_refl).
Qed.

Lemma literal_rule_matches (src : jsstring) (lit : string)
      (pre post : jsstring) :
  RegExp_test {| source := src; ignoreCase := false; body := lits lit |}
              (pre ++ js lit ++ post) = true.
Proof.
  unfold RegExp_test. cbn [ignoreCase body].
  apply search_at. rewrite lits_js.
  rewrite <- (app_nil_r (map (fun c => Lit (One (Chr c))) (js lit))).
  now rewrite (match_here_literal false (js lit) [] (js lit) _ post eq_refl).
Qed.

(** The blocklist of the program is the list of the rules of the blocked
    constructs. *)
Lemma BLOCKED_PATTERNS_constructs :
  BLOCKED_PATTERNS = map ruleOf blockedConstructs.
Proof. reflexivity. Qed.

Lemma ruleDescription_ruleOf (k : BlockedConstruct) :
  ruleDescription (ruleOf k) = descriptionOf k.
Proof. destruct k; reflexivity. Qed.

(** What a match says about the subject. *)
Lemma search_sound (i : bool) (items : list ritem) (s : jsstring) :
  forall prev,
    search i items prev s = true ->
    exists pre rest,
      s = pre ++ rest /\ match_here i items (prevAfter pre prev) rest = true.
Proof.
  induction s as [|c t IH]; intros prev H.
  - rewrite search_nil in H. exists [], []. split; [reflexivity | exact H].
  - rewrite search_cons in H. apply orb_true_iff in H as [H|H].
    + exists [], (c :: t). split; [reflexivity | exact H].
    + destruct (IH _ H) as [pre [rest [-> Hm]]].
      exists (c :: pre), rest. split; [reflexivity | exact Hm].
Qed.

Lemma match_here_literal_sound (i : bool) (l : jsstring) (r : list ritem) :
  forall s prev,
    match_here i (map (fun c => Lit (One (Chr c))) l ++ r) prev s = true ->
    exists w rest,
      s = w ++ rest
      /\ map (Canonicalize i) w = map (Canonicalize i) l
      /\ match_here i r (prevAfter w prev) rest = true.
Proof.
  induction l as [|p l' IH]; intros s prev H.
  - exists [], s. repeat split. exact H.
  - cbn [map app] in H. destruct s as [|c t].
    + rewrite match_here_Lit_nil in H. discriminate.
    + rewrite match_here_Lit_cons in H. apply andb_true_iff in H as [Hc H].
      destruct (IH _ _ H) as [w [rest [-> [Hw Hm]]]].
      exists (c :: w), rest. repeat split.
      * cbn [map]. rewrite Hw. f_equal.
        cbn [cset_match atom_match] in Hc. apply N.eqb_eq in Hc. now symmetry.
      * exact Hm.
Qed.

Lemma star_loop_sound (K : N -> bool) (cont : option N -> jsstring -> bool)
      (s : jsstring) :
  forall prev,
    star_loop K cont prev s = true ->
    exists run rest,
      s = run ++ rest /\ Forall (fun c => K c = true) run
      /\ cont (prevAfter run prev) rest = true.
Proof.
  induction s as [|c t IH]; intros prev H.
  - rewrite star_loop_nil in H. exists [], [].
    repeat split; [constructor | exact H].
  - rewrite star_loop_cons in H. apply orb_true_iff in H as [H|H].
    + apply andb_true_iff in H as [Hc H].
      destruct (IH _ H) as [run [rest [-> [Hrun Hk]]]].
      exists (c :: run), rest. repeat split; [now constructor | exact Hk].
    + exists [], (c :: t). repeat split; [constructor | exact H].
Qed.

Lemma canonical_false (w l : jsstring) :
  map (Canonicalize false) w = map (Canonicalize false) l -> w = l.
Proof.
  assert (H : forall x, map (Canonicalize false) x = x).
  { induction x as [|c t IH]; [reflexivity|]. cbn [map]. now rewrite IH. }
  now rewrite !H.
Qed.

(** Characters that are no letters are matched as they are. *)
Lemma canonical_nonletters (cl close : jsstring) :
  Forall (fun x => in_range 97 122 x = false /\ in_range 65 90 x = false)
         close ->
  map (Canonicalize true) cl = map (Canonicalize true) close -> cl = close.
Proof.
  intros Hn. revert cl.
  induction Hn as [|d u [H1 H2] Hu IH]; intros [|c t] H; try discriminate;
    [reflexivity|].
  cbn [map] in H. injection H as Hc Ht.
  f_equal; [|now apply IH].
  pose proof (canon_eqb_nonletter d c H1 H2) as E.
  rewrite <- Hc, N.eqb_refl in E. symmetry in E. now apply N.eqb_eq in E.
Qed.

(** A rule [\bNAME\s*CLOSE] matches exactly where the name stands before
    what closes it. *)
Lemma named_rule_iff (name close : jsstring) (n0 : N) (names : jsstring)
      (s : jsstring) :
  name = n0 :: names -> is_word n0 = true ->
  Forall (fun x => in_range 97 122 x = false /\ in_range 65 90 x = false)
         close ->
  search true
         (WordB :: map (fun c => Lit (One (Chr c))) name
                ++ Star (One ESpace) :: map (fun c => Lit (One (Chr c))) close)
         None s = true
  <-> nameBefore name close s.
Proof.
  intros Hname Hn0 Hclose. split.
  - intros H. apply search_sound in H as [pre [rest [-> H]]].
    rewrite match_here_WordB in H. apply andb_true_iff in H as [Hb H].
    apply match_here_literal_sound in H as [w [rest' [-> [Hw H]]]].
    rewrite match_here_Star in H.
    apply star_loop_sound in H as [ws [rest'' [-> [Hws H]]]].
    rewrite <- (app_nil_r (map (fun c => Lit (One (Chr c))) close)) in H.
    apply match_here_literal_sound in H as [cl [post [-> [Hcl _]]]].
    apply (canonical_nonletters cl close Hclose) in Hcl. subst cl.
    exists pre, w, ws, post. repeat split; try assumption.
    rewrite prevAfter_last in Hb.
    assert (Hhead : is_word_opt (hd_error (w ++ ws ++ close ++ post)) = true).
    { subst name. destruct w as [|c w']; [discriminate|].
      cbn [map] in Hw. injection Hw as Hc _.
      cbn [app hd_error is_word_opt].
      now rewrite <- canon_word, Hc, canon_word. }
    rewrite Hhead in Hb.
    destruct (is_word_opt (lastChar pre)); [discriminate | reflexivity].
  - intros [pre [w [ws [post [-> [Hw [Hws Hpre]]]]]]].
    now apply (named_rule_matches name close n0 names).
Qed.

(** A literal rule matches exactly where its text stands. *)
Lemma literal_rule_iff (src : jsstring) (lit : string) (s : jsstring) :
  RegExp_test {| source := src; ignoreCase := false; body := lits lit |} s
  = true
  <-> exists pre post, s = pre ++ js lit ++ post.
Proof.
  split.
  - unfold RegExp_test. cbn [ignoreCase body]. rewrite lits_js. intros H.
    apply search_sound in H as [pre [rest [-> H]]].
    rewrite <- (app_nil_r (map (fun c => Lit (One (Chr c))) (js lit))) in H.
    apply match_here_literal_sound in H as [w [post [-> [Hw _]]]].
    apply canonical_false in Hw. subst w. now exists pre, post.
  - intros [pre [post ->]]. apply literal_rule_matches.
Qed.

Lemma blocked_names_are_names :
  Forall (fun name => exists n0 names,
              js name = n0 :: names /\ is_word n0 = true)
         (blockedFunctions ++ blockedAxes ++ blockedNodeTests).
Proof. repeat constructor; eexists; eexists; split; reflexivity. Qed.

Lemma blocked_name_listed (name : string) :
  In (FunctionCall name) blockedConstructs
  \/ In (AxisStep name) blockedConstructs ->
  In name (blockedFunctions ++ blockedAxes ++ blockedNodeTests).
Proof.
  unfold blockedConstructs.
  rewrite !in_app_iff, !in_map_iff. cbn [In].
  intros [H|H];
    repeat match goal with
           | H : _ \/ _ |- _ => destruct H as [H|H]
           | H : exists _, _ |- _ => destruct H as [? [? ?]]
           | H : False |- _ => destruct H
           | H : FunctionCall _ = FunctionCall _ |- _ =>
               injection H as H; subst
           | H : AxisStep _ = AxisStep _ |- _ => injection H as H; subst
           | H : _ = _ |- _ => discriminate H
           end; tauto.
Qed.

(** Each rule of the blocklist matches exactly the filters in which its
    construct occurs. *)
Lemma ruleOf_iff (k : BlockedConstruct) (s : jsstring) :
  In k blockedConstructs ->
  RegExp_test (ruleOf k) s = true <-> occursIn k s.
Proof.
  intros Hin.
  pose proof blocked_names_are_names as Hnames.
  rewrite Forall_forall in Hnames.
  destruct k as [name| |name| | | |]; cbn [ruleOf occursIn].
  - destruct (Hnames name) as [n0 [names [Hname Hn0]]];
      [apply blocked_name_listed; now left|].
    unfold RegExp_test, call_pattern. cbn [ignoreCase body].
    rewrite lits_js.
    apply (named_rule_iff (js name) (js "(") n0 names s Hname Hn0).
    repeat constructor.
  - unfold RegExp_test. cbn [ignoreCase body]. split.
    + intros H. apply search_sound in H as [pre [rest [-> H]]].
      destruct rest as [|d rest]; [discriminate|].
      rewrite match_here_Lit_cons in H. apply andb_true_iff in H as [Hd H].
      cbn [cset_match atom_match Canonicalize andb] in Hd.
      apply N.eqb_eq in Hd. subst d.
      destruct rest as [|c post]; [discriminate|].
      rewrite match_here_Lit_cons in H. apply andb_true_iff in H as [Hc _].
      exists pre, c, post. split; [reflexivity | exact Hc].
    + intros [pre [c [post [-> Hc]]]].
      apply search_at. rewrite !match_here_Lit_cons.
      cbn [cset_match atom_match]. rewrite Hc, N.eqb_refl. cbn [andb].
      rewrite match_here_Star. apply star_loop_true. reflexivity.
  - destruct (Hnames name) as [n0 [names [Hname Hn0]]];
      [apply blocked_name_listed; now right|].
    unfold RegExp_test, axis_pattern. cbn [ignoreCase body].
    rewrite lits_js.
    apply (named_rule_iff (js name) (js "::") n0 names s Hname Hn0).
    repeat constructor.
  - apply literal_rule_iff.
  - unfold RegExp_test. cbn [ignoreCase body]. split.
    + intros H. apply search_sound in H as [pre [rest [-> H]]].
      destruct rest as [|q rest]; [discriminate|].
      rewrite match_here_Lit_cons in H. apply andb_true_iff in H as [Hq H].
      rewrite match_here_Star in H.
      apply star_loop_sound in H as [ws1 [rest1 [-> [H1 H]]]].
      destruct rest1 as [|b1 rest1]; [discriminate|].
      rewrite match_here_Lit_cons in H. apply andb_true_iff in H as [Hb1 H].
      rewrite match_here_Star in H.
      apply star_loop_sound in H as [ws2 [rest2 [-> [H2 H]]]].
      destruct rest2 as [|b2 post]; [discriminate|].
      rewrite match_here_Lit_cons in H. apply andb_true_iff in H as [Hb2 _].
      cbn [cset_match atom_match Canonicalize andb] in Hb1, Hb2.
      apply N.eqb_eq in Hb1, Hb2. subst b1 b2.
      exists pre, q, ws1, ws2, post. repeat split; try assumption.
      cbn [cset_match existsb atom_match Canonicalize andb xorb] in Hq.
      rewrite orb_false_r in Hq. apply orb_true_iff in Hq.
      destruct Hq as [Hq|Hq]; apply N.eqb_eq in Hq; auto.
    + intros [pre [q [ws1 [ws2 [post [-> [Hq [H1 H2]]]]]]]].
      apply search_at. rewrite match_here_Lit_cons.
      replace (cset_match false (Bracket false [Chr (ch "'"); Chr dquote]) q)
        with true by (destruct Hq as [-> | ->]; reflexivity).
      cbn [andb]. rewrite match_here_Star.
      apply star_loop_run; [exact H1|].
      rewrite match_here_Lit_cons.
      replace (cset_match false (One (Chr (ch "]"))) (ch "]")) with true
        by reflexivity.
      cbn [andb]. rewrite match_here_Star.
      apply star_loop_run; [exact H2|].
      reflexivity.
  - apply literal_rule_iff.
  - apply literal_rule_iff.
Qed.

(** The rules that match, said by the constructs that occur. *)
Lemma reported_rules (s : jsstring) (constructs : list BlockedConstruct) :
  (forall k, In k constructs ->
             RegExp_test (ruleOf k) s = true <-> occursIn k s) ->
  reported s constructs
           (map ruleDescription
                (filter (fun p => RegExp_test p s) (map ruleOf constructs))).
Proof.
  induction constructs as [|k rest IH]; intros H; cbn [map filter].
  - constructor.
  - pose proof (H k (or_introl eq_refl)) as Hk.
    assert (Hrest : reported s rest
                      (map ruleDescription
                           (filter (fun p => RegExp_test p s)
                                   (map ruleOf rest)))).
    { apply IH. intros k' Hk'. apply H. now right. }
    destruct (RegExp_test (ruleOf k) s) eqn:E; cbn [map].
    + rewrite ruleDescription_ruleOf.
      apply reported_hit; [now apply Hk | exact Hrest].
    + apply reported_miss; [|exact Hrest].
      intros X. apply Hk in X. discriminate.
Qed.

Lemma reported_in (s : jsstring) (k : BlockedConstruct)
      (constructs : list BlockedConstruct) (details : list jsstring) :
  reported s constructs details -> In k constructs -> occursIn k s ->
  In (descriptionOf k) details.
Proof.
  induction 1 as [|k' rest details Hk' Hr IH|k' rest details Hk' Hr IH];
    intros Hin Hocc.
  - destruct Hin.
  - destruct Hin as [->|Hin]; [now left | right; now apply IH].
  - destruct Hin as [->|Hin]; [contradiction | now apply IH].
Qed.

(** A filter in which a blocked construct occurs is matched by the rule
    of the construct, and is not empty when trimmed. *)
Lemma occurs_matched (k : BlockedConstruct) (s : jsstring) :
  In k blockedConstructs -> occursIn k s ->
  In (ruleOf k) BLOCKED_PATTERNS
  /\ RegExp_test (ruleOf k) s = true
  /\ trim s <> [].
Proof.
  intros Hin Hocc.
  assert (Hp : In (ruleOf k) BLOCKED_PATTERNS).
  { rewrite BLOCKED_PATTERNS_constructs. now apply in_map. }
  assert (Ht : RegExp_test (ruleOf k) s = true) by now apply ruleOf_iff.
  repeat split; try assumption.
  intros E. rewrite <- (blocked_test_trim _ s Hp), E in Ht.
  rewrite (blocked_test_nil _ Hp) in Ht. discriminate.
Qed.

(** C1, as stated, fails.  substring-before and substring-after are
    string functions of the query language and lang is a boolean
    function, and a filter that calls one of them is accepted; and a
    filter that calls document() and is longer than the maximum length is
    rejected as too complex (XPathComplexityError), not as containing a
    blocked construct. *)
Lemma blocked_construct_not_rejected :
  (In "substring-before"%string xpathStringFunctions
   /\ occursIn (FunctionCall "substring-before")
               (js "*[substring-before(Data,'x')='y']")
   /\ validateXPath (VString (js "*[substring-before(Data,'x')='y']"))
                    DEFAULT_CONFIG
      = Ok (Some (js "*[substring-before(Data,'x')='y']")))
  /\ (In "substring-after"%string xpathStringFunctions
      /\ occursIn (FunctionCall "substring-after")
                  (js "*[substring-after(Data,'x')='y']")
      /\ validateXPath (VString (js "*[substring-after(Data,'x')='y']"))
                       DEFAULT_CONFIG
         = Ok (Some (js "*[substring-after(Data,'x')='y']")))
  /\ (In "lang"%string xpathBooleanFunctions
      /\ occursIn (FunctionCall "lang") (js "*[lang('en')]")
      /\ validateXPath (VString (js "*[lang('en')]")) DEFAULT_CONFIG
         = Ok (Some (js "*[lang('en')]")))
  /\ (let s := js "document(" ++ repeat (ch "a") 500 ++ js ")" in
      In (FunctionCall "document") blockedConstructs
      /\ occursIn (FunctionCall "document") s
      /\ validateXPath (VString s) DEFAULT_CONFIG
         = Throw (XPathComplexityError
                    (js "XPath exceeds maximum length of 500 characters"))).
Proof.
  split; [|split; [|split]]; cbv zeta.
  - split; [cbn; tauto|]. split; [|vm_compute; reflexivity].
    exists (js "*["), (js "substring-before"), [], (js "Data,'x')='y']").
    repeat split; constructor.
  - split; [cbn; tauto|]. split; [|vm_compute; reflexivity].
    exists (js "*["), (js "substring-after"), [], (js "Data,'x')='y']").
    repeat split; constructor.
  - split; [cbn; tauto|]. split; [|vm_compute; reflexivity].
    exists (js "*["), (js "lang"), [], (js "'en')]").
    repeat split; constructor.
  - split; [cbn; tauto|]. split; [|vm_compute; reflexivity].
    exists [], (js "document"), [], (repeat (ch "a") 500 ++ js ")").
    repeat split; constructor.
Qed.

(** C1, amended.  The blocked constructs are: a call of one of the
    functions document, doc, concat, string, substring, translate,
    normalize-space, contains, starts-with, string-length, count, sum,
    floor, ceiling, round, true, false, not, boolean, number, id, name,
    local-name and namespace-uri or of one of the node tests comment,
    processing-instruction, text and node; a variable reference; a step
    along one of the axes namespace, preceding, following,
    preceding-sibling, following-sibling, ancestor, descendant,
    ancestor-or-self and descendant-or-self; the parent traversal '..'; a
    quote followed by a closing and an opening bracket; a double hyphen;
    and the comment opener.  A filter in which one of them occurs,
    whatever surrounds it, is rejected with XPathValidationError when its
    trimmed length does not exceed the configured maximum: the error
    carries, in the order of the blocklist, the descriptions of exactly
    the blocked constructs that occur in the filter, that of the given
    one among them.  When the filter is longer than the maximum it is
    rejected as too long (XPathComplexityError) instead. *)
Theorem blocked_construct_rejected
        (k : BlockedConstruct) (s : jsstring) (config : Config) :
  In k blockedConstructs -> occursIn k s ->
  ((Z.of_nat (List.length (trim s)) <= xpathMaxLength config)%Z ->
   exists details,
     validateXPath (VString s) config
     = Throw (XPathValidationError (js "XPath contains blocked constructs")
                details)
     /\ reported s blockedConstructs details
     /\ In (descriptionOf k) details)
  /\ ((xpathMaxLength config < Z.of_nat (List.length (trim s)))%Z ->
      validateXPath (VString s) config = Throw (tooLong config)).
Proof.
  intros Hin Hocc.
  destruct (occurs_matched k s Hin Hocc) as [Hp [Ht Hne]].
  assert (Hrep : reported s blockedConstructs
                   (map ruleDescription (matchedRules s))).
  { rewrite BLOCKED_PATTERNS_constructs. apply reported_rules.
    intros k' Hk'. now apply ruleOf_iff. }
  split.
  - intros Hlen. exists (map ruleDescription (matchedRules s)).
    split; [|split; [exact Hrep | now apply (reported_in s k blockedConstructs)]].
    assert (Hrules : matchedRules s <> []).
    { intros E.
      assert (X : In (ruleOf k) (matchedRules s))
        by (apply filter_In; now split).
      rewrite E in X. destruct X. }
    unfold validateXPath.
    rewrite collectViolations_spec, matchedRules_trim.
    destruct (trim s) as [|c t]; [congruence|].
    cbn [List.length Nat.eqb].
    replace (Z.of_nat (S (List.length t)) >? xpathMaxLength config)%Z with false
      by (symmetry; rewrite Z.gtb_ltb; apply Z.ltb_ge; exact Hlen).
    destruct (matchedRules s) as [|p r]; [congruence|].
    reflexivity.
  - intros Hlen. unfold validateXPath, tooLong.
    destruct (trim s) as [|c t]; [congruence|].
    cbn [List.length Nat.eqb].
    replace (Z.of_nat (S (List.length t)) >? xpathMaxLength config)%Z with true
      by (symmetry; rewrite Z.gtb_ltb; apply Z.ltb_lt; exact Hlen).
    reflexivity.
Qed.

Lemma blocked_construct_rejected_witness :
  exists details,
    validateXPath (VString (js " *[System[EventID=$var]] and count( x ) "))
                  DEFAULT_CONFIG
    = Throw (XPathValidationError (js "XPath contains blocked constructs")
               details)
    /\ reported (js " *[System[EventID=$var]] and count( x ) ")
                blockedConstructs details
    /\ In (descriptionOf (FunctionCall "count")) details.
Proof.
  refine (proj1 (blocked_construct_rejected
                   (FunctionCall "count")
                   (js " *[System[EventID=$var]] and count( x ) ")
                   DEFAULT_CONFIG _ _) _).
  - apply in_or_app. left. apply in_map. cbn. tauto.
  - exists (js " *[System[EventID=$var]] and "), (js "count"), [], (js " x ) ").
    repeat split; constructor.
  - vm_compute. discriminate.
Defined.

(** What the error carries for that filter. *)
Example blocked_constructs_reported :
  validateXPath (VString (js " *[System[EventID=$var]] and count( x ) "))
                DEFAULT_CONFIG
  = Throw (XPathValidationError (js "XPath contains blocked constructs")
             [js "Blocked pattern: \bcount\s*\("; js "Blocked pattern: \$\w+"]).
Proof. vm_compute. reflexivity. Qed.

(* ================================================================== *)
(** * Part III. Further properties of the code *)

(** ** validateXPath as a cascade of checks *)

(** The checks of validateXPath in their order, in the notions of the
    specification. *)
Lemma validateXPath_cascade (s : jsstring) (config : Config) :
  validateXPath (VString s) config
  = if is_nil (trim s) then Ok None
    else if (xpathMaxLength config <? Z.of_nat (List.length (trim s)))%Z
    then Throw (tooLong config)
    else if containsBlocked (trim s)
    then Throw (XPathValidationError (js "XPath contains blocked constructs")
                  (map ruleDescription (matchedRules (trim s))))
    else if negb (forallb allowedChar (trim s))
    then Throw disallowedCharacters
    else bracketStage (trim s).
Proof.
  destruct (trim s) as [|c t] eqn:Ht.
  - unfold validateXPath. rewrite Ht. reflexivity.
  - cbn [is_nil].
    destruct (xpathMaxLength config <? Z.of_nat (List.length (c :: t)))%Z eqn:Hlen.
    + unfold validateXPath. rewrite Ht. cbn [List.length Nat.eqb].
      rewrite Z.gtb_ltb. cbn [List.length] in Hlen. rewrite Hlen. reflexivity.
    + apply Z.ltb_ge in Hlen.
      destruct (containsBlocked (c :: t)) eqn:Hblk.
      * unfold validateXPath. rewrite Ht. cbn [List.length Nat.eqb].
        replace (Z.of_nat (S (List.length t)) >? xpathMaxLength config)%Z
          with false
          by (symmetry; rewrite Z.gtb_ltb; apply Z.ltb_ge; exact Hlen).
        rewrite collectViolations_spec.
        pose proof (containsBlocked_rules BLOCKED_PATTERNS (c :: t) Hblk) as Hr.
        destruct (matchedRules (c :: t)) as [|p r]; [congruence|].
        reflexivity.
      * destruct (forallb allowedChar (c :: t)) eqn:Hall; cbn [negb].
        -- rewrite <- Ht. apply validateXPath_stages; rewrite Ht;
             [discriminate | exact Hlen | exact Hblk | exact Hall].
        -- unfold validateXPath. rewrite Ht. cbn [List.length Nat.eqb].
           replace (Z.of_nat (S (List.length t)) >? xpathMaxLength config)%Z
             with false
             by (symmetry; rewrite Z.gtb_ltb; apply Z.ltb_ge; exact Hlen).
           rewrite collectViolations_spec.
           apply no_match_no_rule in Hblk. rewrite Hblk.
           cbn [map app List.length Nat.ltb Nat.leb].
           rewrite allowed_structure_spec, Hall. reflexivity.
Qed.

(** ** White space around a filter *)

Lemma trimStart_spaces_app (l x : jsstring) :
  spaces l -> trimStart (l ++ x) = trimStart x.
Proof.
  induction 1 as [|c l Hc Hl IH]; [reflexivity|].
  cbn [app trimStart]. rewrite Hc. exact IH.
Qed.

Lemma trimStart_spaces (s : jsstring) : spaces s -> trimStart s = [].
Proof.
  intros H. rewrite <- (app_nil_r s). now rewrite trimStart_spaces_app.
Qed.

Lemma trimStart_nil (s : jsstring) : trimStart s = [] -> spaces s.
Proof.
  intros H. destruct (trimStart_decompose s) as [lead [E Hl]].
  rewrite H, app_nil_r in E. now subst.
Qed.

Lemma trimStart_app_solid (s r : jsstring) :
  trimStart s <> [] -> trimStart (s ++ r) = trimStart s ++ r.
Proof.
  induction s as [|c t IH]; cbn [app trimStart]; [congruence|].
  destruct (is_space c); [exact IH | reflexivity].
Qed.

Lemma spaces_rev (l : jsstring) : spaces l -> spaces (rev l).
Proof.
  unfold spaces. rewrite !Forall_forall. intros H c Hc.
  apply H. now apply in_rev.
Qed.

Lemma trimEnd_spaces_app (x r : jsstring) :
  spaces r -> trimEnd (x ++ r) = trimEnd x.
Proof.
  intros H. unfold trimEnd. rewrite rev_app_distr.
  rewrite trimStart_spaces_app by now apply spaces_rev. reflexivity.
Qed.

(** White space in front of and behind a text does not show after trim. *)
Lemma trim_padding (lead s trail : jsstring) :
  spaces lead -> spaces trail -> trim (lead ++ s ++ trail) = trim s.
Proof.
  intros Hl Hr. unfold trim. rewrite trimStart_spaces_app by exact Hl.
  destruct (trimStart s) as [|c t] eqn:E.
  - rewrite trimStart_spaces; [reflexivity|].
    apply Forall_app. split; [now apply trimStart_nil | exact Hr].
  - rewrite trimStart_app_solid by congruence.
    rewrite E. now apply trimEnd_spaces_app.
Qed.

Lemma trim_nil_iff (s : jsstring) : trim s = [] <-> spaces s.
Proof.
  split.
  - intros H. destruct (trim_decompose s) as [lead [trail [E [Hl Hr]]]].
    rewrite H in E. cbn [app] in E. rewrite E.
    apply Forall_app. now split.
  - intros H. unfold trim. now rewrite trimStart_spaces.
Qed.

Lemma bracketStage_not_none (t : jsstring) : bracketStage t <> Ok None.
Proof.
  unfold bracketStage.
  destruct (negb (balanced t)); [discriminate|].
  destruct (5 <? nestingDepth t)%Z; [discriminate|].
  destruct (10 <? predicateCount t)%Z; discriminate.
Qed.



(** X2.  validateXPath answers that there is no filter exactly for null,
    for undefined and for a string made of white space only (the empty
    string included); every other value is either returned as a filter
    or rejected. *)
Theorem validateXPath_no_filter (v : JsValue) (config : Config) :
  validateXPath v config = Ok None
  <-> v = VNull \/ v = VUndefined \/ exists s, v = VString s /\ spaces s.
Proof.
  split.
  - destruct v as [| | b | z | s | shown]; try discriminate; auto.
    rewrite validateXPath_cascade. intros H.
    right; right. exists s. split; [reflexivity|].
    apply trim_nil_iff.
    destruct (trim s) as [|c u]; [reflexivity|]. cbn [is_nil] in H.
    destruct (xpathMaxLength config <? _)%Z; [discriminate|].
    destruct (containsBlocked (c :: u)); [discriminate|].
    destruct (negb (forallb allowedChar (c :: u))); [discriminate|].
    now apply bracketStage_not_none in H.
  - intros [-> | [-> | [s [-> Hs]]]]; try reflexivity.
    rewrite validateXPath_cascade.
    apply trim_nil_iff in Hs. rewrite Hs. reflexivity.
Qed.

(** X3.  White space in front of a filter and behind it never changes
    the verdict of validateXPath: the padded filter gets the same answer,
    the same returned text or the same error, as the filter itself. *)
Theorem validateXPath_ignores_padding
        (lead s trail : jsstring) (config : Config) :
  spaces lead -> spaces trail ->
  validateXPath (VString (lead ++ s ++ trail)) config
  = validateXPath (VString s) config.
Proof.
  intros Hl Hr.
  rewrite <- (validateXPath_trim (lead ++ s ++ trail)), <- (validateXPath_trim s).
  now rewrite trim_padding.
Qed.

Lemma validateXPath_ignores_padding_witness :
  validateXPath (VString (js "  " ++ js "*[System[Level=2]]" ++ [9%N; 10%N]))
                DEFAULT_CONFIG
  = validateXPath (VString (js "*[System[Level=2]]")) DEFAULT_CONFIG.
Proof.
  apply (validateXPath_ignores_padding
           (js "  ") (js "*[System[Level=2]]") [9%N; 10%N] DEFAULT_CONFIG).
  - repeat constructor.
  - repeat constructor.
Defined.

(** X4.  The order of the rejections.  A filter that is not blank and
    whose trimmed length exceeds the configured maximum is rejected as
    too complex whatever it contains; a filter within the limit that
    holds no blocked construct but some character outside the whitelist
    is rejected with 'XPath contains disallowed characters'. *)
Theorem validateXPath_rejections (s : jsstring) (config : Config) :
  (trim s <> [] ->
   (xpathMaxLength config < Z.of_nat (List.length (trim s)))%Z ->
   validateXPath (VString s) config = Throw (tooLong config))
  /\ ((Z.of_nat (List.length (trim s)) <= xpathMaxLength config)%Z ->
      containsBlocked s = false ->
      (exists c, In c (trim s) /\ allowedChar c = false) ->
      validateXPath (VString s) config = Throw disallowedCharacters).
Proof.
  split.
  - intros Hne Hlen. rewrite validateXPath_cascade.
    destruct (trim s); [congruence|]. cbn [is_nil].
    apply Z.ltb_lt in Hlen. now rewrite Hlen.
  - intros Hlen Hblk [c [Hin Hc]]. rewrite validateXPath_cascade.
    destruct (trim s) as [|a u] eqn:Ht; [destruct Hin|]. cbn [is_nil].
    apply Z.ltb_ge in Hlen. rewrite Hlen.
    assert (Hb : containsBlocked (a :: u) = false).
    { rewrite <- Ht. apply no_match_no_rule.
      rewrite matchedRules_trim. now apply no_match_no_rule. }
    rewrite Hb.
    assert (Ha : forallb allowedChar (a :: u) = false).
    { apply not_true_is_false. intros X.
      rewrite forallb_forall in X. rewrite (X c Hin) in Hc. discriminate. }
    rewrite Ha. reflexivity.
Qed.

Lemma validateXPath_rejections_witness :
  validateXPath (VString (js "*[System[Provider[@Name='a;b']]]")) DEFAULT_CONFIG
  = Throw disallowedCharacters.
Proof.
  refine (proj2 (validateXPath_rejections
                   (js "*[System[Provider[@Name='a;b']]]") DEFAULT_CONFIG) _ _ _).
  - vm_compute. discriminate.
  - vm_compute. reflexivity.
  - exists (ch ";"). split; [vm_compute; tauto | vm_compute; reflexivity].
Defined.

Lemma Throw_inj {A : Type} (a b : Thrown) : @Throw A a = Throw b -> a = b.
Proof. congruence. Qed.

(** X5.  Every rejection by validateXPath has one of seven causes, and
    the error tells which.  A value that is no string, null or undefined
    gives 'XPath must be a string'.  For a string that is not blank the
    checks come in this order, on the trimmed text: longer than the
    maximum (XPathComplexityError); a blocked construct
    (XPathValidationError with the rules that match); a character outside
    the whitelist; brackets that are not balanced; nesting deeper than 5
    (XPathComplexityError); more than 10 predicates
    (XPathComplexityError).  validateXPath throws nothing else. *)
Theorem validateXPath_rejection_causes
        (v : JsValue) (config : Config) (e : Thrown) :
  validateXPath v config = Throw e ->
  (e = XPathValidationError (js "XPath must be a string") []
   /\ forall s, v <> VString s)
  \/ exists s,
      let t := trim s in
      let len := Z.of_nat (List.length t) in
      v = VString s /\ t <> []
      /\ ((xpathMaxLength config < len)%Z /\ e = tooLong config
          \/ (len <= xpathMaxLength config)%Z
             /\ (containsBlocked t = true
                 /\ e = XPathValidationError
                          (js "XPath contains blocked constructs")
                          (map ruleDescription (matchedRules t))
                 \/ containsBlocked t = false
                    /\ (forallb allowedChar t = false
                        /\ e = disallowedCharacters
                        \/ forallb allowedChar t = true
                           /\ (balanced t = false /\ e = unbalanced
                               \/ balanced t = true
                                  /\ ((5 < nestingDepth t)%Z /\ e = tooDeep
                                      \/ (nestingDepth t <= 5)%Z
                                         /\ (10 < predicateCount t)%Z
                                         /\ e = tooManyPredicates))))).
Proof.
  destruct v as [| | b | z | s | shown]; try discriminate;
    try (intros H; apply Throw_inj in H; subst e; left; split;
         [reflexivity | intros s; discriminate]).
  rewrite validateXPath_cascade. intros H. right. exists s. cbv zeta.
  split; [reflexivity|].
  destruct (trim s) as [|c u] eqn:Ht; [discriminate|]. cbn [is_nil] in H.
  split; [discriminate|].
  destruct (xpathMaxLength config <? _)%Z eqn:Hlen.
  { apply Throw_inj in H. subst e. left.
    split; [now apply Z.ltb_lt | reflexivity]. }
  right. split; [now apply Z.ltb_ge|].
  destruct (containsBlocked (c :: u)) eqn:Hblk.
  { apply Throw_inj in H. subst e. left. split; reflexivity. }
  right. split; [reflexivity|].
  destruct (forallb allowedChar (c :: u)) eqn:Hall; cbn [negb] in H.
  2:{ apply Throw_inj in H. subst e. left. split; reflexivity. }
  right. split; [reflexivity|].
  unfold bracketStage in H.
  destruct (balanced (c :: u)) eqn:Hbal; cbn [negb] in H.
  2:{ apply Throw_inj in H. subst e. left. split; reflexivity. }
  right. split; [reflexivity|].
  destruct (5 <? nestingDepth (c :: u))%Z eqn:Hd.
  { apply Throw_inj in H. subst e. left.
    split; [now apply Z.ltb_lt | reflexivity]. }
  right. split; [now apply Z.ltb_ge|].
  destruct (10 <? predicateCount (c :: u))%Z eqn:Hp; [|discriminate].
  apply Throw_inj in H. subst e. split; [now apply Z.ltb_lt | reflexivity].
Qed.

Lemma validateXPath_rejection_causes_witness :
  (XPathValidationError (js "XPath must be a string") []
   = XPathValidationError (js "XPath must be a string") []
   /\ forall s, VNumber 5 <> VString s)
  \/ exists s,
      let t := trim s in
      let len := Z.of_nat (List.length t) in
      VNumber 5 = VString s /\ t <> []
      /\ ((xpathMaxLength DEFAULT_CONFIG < len)%Z
          /\ XPathValidationError (js "XPath must be a string") []
             = tooLong DEFAULT_CONFIG
          \/ (len <= xpathMaxLength DEFAULT_CONFIG)%Z
             /\ (containsBlocked t = true
                 /\ XPathValidationError (js "XPath must be a string") []
                    = XPathValidationError
                        (js "XPath contains blocked constructs")
                        (map ruleDescription (matchedRules t))
                 \/ containsBlocked t = false
                    /\ (forallb allowedChar t = false
                        /\ XPathValidationError (js "XPath must be a string") []
                           = disallowedCharacters
                        \/ forallb allowedChar t = true
                           /\ (balanced t = false
                               /\ XPathValidationError
                                    (js "XPath must be a string") []
                                  = unbalanced
                               \/ balanced t = true
                                  /\ ((5 < nestingDepth t)%Z
                                      /\ XPathValidationError
                                           (js "XPath must be a string") []
                                         = tooDeep
                                      \/ (nestingDepth t <= 5)%Z
                                         /\ (10 < predicateCount t)%Z
                                         /\ XPathValidationError
                                              (js "XPath must be a string") []
                                            = tooManyPredicates))))).
Proof.
  apply (validateXPath_rejection_causes (VNumber 5) DEFAULT_CONFIG).
  reflexivity.
Defined.

(** ** The channel guard *)

(** X6.  The three functions of the channel guard agree: isChannelAllowed
    says yes exactly for the values that validateChannel returns, and
    getAllowedChannels lists exactly the strings that validateChannel
    returns. *)
Theorem channel_guard_coherent :
  (forall v, isChannelAllowed v = true <-> exists c, validateChannel v = Ok c)
  /\ (forall c, In c getAllowedChannels <-> validateChannel (VString c) = Ok c).
Proof.
  split.
  - intros v. destruct v as [| | [|] | z | s | [shown|thrown]];
      try (split; [discriminate | intros [c H]; discriminate]).
    unfold isChannelAllowed, validateChannel.
    destruct s as [|a s'].
    + split; [discriminate | intros [c H]; discriminate].
    + cbv beta iota delta [List.length Nat.eqb].
      destruct (includes_str ALLOWED_CHANNELS (a :: s')); cbn [negb].
      * split; [eauto | reflexivity].
      * split; [discriminate | intros [c H]; discriminate].
  - intros c. unfold getAllowedChannels. split.
    + apply validateChannel_allowed_string.
    + unfold validateChannel. destruct c as [|a s']; [discriminate|].
      cbv beta iota delta [List.length Nat.eqb].
      destruct (includes_str ALLOWED_CHANNELS (a :: s')) eqn:E; cbn [negb];
        [|discriminate].
      intros _. apply includes_allowed in E. unfold ALLOWED_CHANNELS.
      destruct E as [-> | ->]; [left | right; left]; reflexivity.
Qed.

(** X23.  validateChannel returns a channel only for a string that is
    exactly 'System' or 'Application', and then returns that very string;
    nothing is trimmed, folded or normalized on the way.  Every other
    value is refused: with ChannelNotAllowedError when String() can
    convert the value to a text, as it can every string, undefined, null,
    every boolean and every number; and with what the conversion throws
    when it throws. *)
Theorem validateChannel_exact (v : JsValue) :
  match validateChannel v with
  | Ok c => v = VString c /\ (c = js "System" \/ c = js "Application")
  | Throw e =>
      v <> VString (js "System") /\ v <> VString (js "Application")
      /\ match String_ v with
         | Ok _ => exists shown, e = ChannelNotAllowedError shown
         | Throw thrown => e = thrown
         end
  end.
Proof.
  destruct v as [| | [|] | z | s | [shown|thrown]];
    try (simpl; repeat split; try discriminate; try reflexivity;
         eexists; reflexivity).
  unfold validateChannel, String_.
  destruct s as [|c s'].
  - simpl. repeat split; try discriminate. eexists; reflexivity.
  - cbv beta iota delta [List.length Nat.eqb].
    destruct (includes_str ALLOWED_CHANNELS (c :: s')) eqn:E; simpl.
    + split; [reflexivity|]. now apply includes_allowed.
    + assert (H : ~ (c :: s' = js "System" \/ c :: s' = js "Application")).
      { rewrite <- includes_allowed. congruence. }
      repeat split.
      * intros X. apply H. left. congruence.
      * intros X. apply H. right. congruence.
      * eexists; reflexivity.
Qed.

(** ** escapePowerShellString *)

Lemma singleQuoted_units (n : nat) :
  forall body out,
    (List.length body <= n)%nat ->
    singleQuoted body = Some out ->
    (2 * List.length out + List.length (filter isSingleQuote body)
     = 2 * List.length body)%nat.
Proof.
  induction n as [|n IH]; intros body out Hn H.
  - destruct body; [|cbn in Hn; lia]. injection H as <-. reflexivity.
  - destruct body as [|c t]; [injection H as <-; reflexivity|].
    cbn [singleQuoted] in H. cbn [filter].
    destruct (isSingleQuote c) eqn:Ec.
    + destruct t as [|c2 t2]; [discriminate|].
      cbn [filter]. destruct (isSingleQuote c2) eqn:Ec2; [|discriminate].
      destruct (singleQuoted t2) as [o|] eqn:Eo; [|discriminate].
      cbn [option_map] in H. injection H as <-.
      cbn [List.length] in *. specialize (IH t2 o ltac:(lia) Eo). lia.
    + destruct (singleQuoted t) as [o|] eqn:Eo; [|discriminate].
      cbn [option_map] in H. injection H as <-.
      cbn [List.length] in *. specialize (IH t o ltac:(lia) Eo). lia.
Qed.

Lemma escapePowerShellString_units (str : jsstring) :
  (2 * List.length (escapePowerShellString str)
   + List.length (filter typographicQuote str)
   = 2 * List.length str
     + List.length (filter isSingleQuote (escapePowerShellString str)))%nat.
Proof.
  unfold escapePowerShellString.
  induction str as [|c t IH]; [reflexivity|].
  cbn [flat_map filter].
  destruct (c =? ch "'")%N eqn:E.
  - apply N.eqb_eq in E. subst c. cbn [app filter].
    change (isSingleQuote (ch "'")) with true.
    change (typographicQuote (ch "'")) with false.
    cbv iota. cbn [List.length]. lia.
  - assert (Q : isSingleQuote c = typographicQuote c)
      by (unfold isSingleQuote; rewrite E; reflexivity).
    cbn [app filter]. rewrite Q.
    destruct (typographicQuote c); cbn [List.length]; lia.
Qed.

Lemma escapePowerShellString_plain (str : jsstring) :
  forallb (fun c => negb (typographicQuote c)) str = true ->
  singleQuoted (escapePowerShellString str) = Some str.
Proof.
  unfold escapePowerShellString.
  induction str as [|c t IH]; [reflexivity|].
  cbn [forallb flat_map]. intros H. apply andb_true_iff in H as [Hc Ht].
  apply negb_true_iff in Hc.
  destruct (c =? ch "'")%N eqn:E.
  - apply N.eqb_eq in E. subst c.
    cbn [app singleQuoted].
    change (isSingleQuote (ch "'")) with true. cbv iota.
    rewrite (IH Ht). reflexivity.
  - assert (Q : isSingleQuote c = false)
      by (unfold isSingleQuote; rewrite E, Hc; reflexivity).
    cbn [app singleQuoted]. rewrite Q, (IH Ht). reflexivity.
Qed.

(** What validateChannel returns is one of the two allowed names. *)
Lemma validateChannel_returns_allowed (v : JsValue) (c : jsstring) :
  validateChannel v = Ok c -> c = js "System" \/ c = js "Application".
Proof.
  destruct v as [| | [|] | z | s | [shown|thrown]]; try discriminate.
  unfold validateChannel. destruct s as [|a s']; [discriminate|].
  cbv beta iota delta [List.length Nat.eqb].
  destruct (includes_str ALLOWED_CHANNELS (a :: s')) eqn:E; cbn [negb];
    [|discriminate].
  intros H. assert (X : a :: s' = c) by congruence. subst c.
  now apply includes_allowed.
Qed.

(** The whitelist of validateXPath holds no typographic quote. *)
Lemma allowedChar_no_typographicQuote (c : N) :
  allowedChar c = true -> typographicQuote c = false.
Proof.
  destruct (typographicQuote c) eqn:E; [|reflexivity].
  unfold typographicQuote in E. cbn [existsb] in E.
  rewrite !orb_true_iff, !N.eqb_eq in E.
  destruct E as [->|[->|[->|[->|E]]]]; [| | | |discriminate E];
    intros X; vm_compute in X; discriminate X.
Qed.

Lemma validateXPath_accepted_allowed
      (v : JsValue) (config : Config) (t : jsstring) :
  validateXPath v config = Ok (Some t) -> forallb allowedChar t = true.
Proof.
  destruct v as [| | b | z | s | shown]; try discriminate.
  rewrite validateXPath_cascade. intros H.
  destruct (trim s) as [|c u] eqn:Ht; [discriminate|]. cbn [is_nil] in H.
  destruct (xpathMaxLength config <? _)%Z; [discriminate|].
  destruct (containsBlocked (c :: u)); [discriminate|].
  destruct (forallb allowedChar (c :: u)) eqn:Hall; [|discriminate].
  cbn [negb] in H. unfold bracketStage in H.
  destruct (balanced (c :: u)); [|discriminate]. cbn [negb] in H.
  destruct (5 <? nestingDepth (c :: u))%Z; [discriminate|].
  destruct (10 <? predicateCount (c :: u))%Z; [discriminate|].
  injection H as <-. exact Hall.
Qed.

(** X7.  Escaping doubles the apostrophe and nothing else.  The tokenizer
    of PowerShell reads the escaped text between single quotes back as
    the original text exactly when the text holds none of the
    typographic quotes U+2018, U+2019, U+201A and U+201B, which
    PowerShell takes for single quotes as well and which are not
    doubled.  This is so for every text that escapePowerShellString
    meets in the reader: a filter that validateXPath has accepted, whose
    characters are whitelisted, and a channel that validateChannel has
    returned. *)
Theorem escapePowerShellString_round_trip (str : jsstring) :
  (singleQuoted (escapePowerShellString str) = Some str
   <-> forallb (fun c => negb (typographicQuote c)) str = true)
  /\ (forall v config,
         validateXPath v config = Ok (Some str) ->
         singleQuoted (escapePowerShellString str) = Some str)
  /\ (forall v,
         validateChannel v = Ok str ->
         singleQuoted (escapePowerShellString str) = Some str).
Proof.
  split; [split|split].
  - intros H.
    pose proof (singleQuoted_units _ _ _ (Nat.le_refl _) H) as U.
    pose proof (escapePowerShellString_units str) as V.
    assert (Z0 : List.length (filter typographicQuote str) = 0%nat) by lia.
    apply forallb_forall. intros c Hc.
    destruct (typographicQuote c) eqn:E; [|reflexivity].
    assert (Hin : In c (filter typographicQuote str))
      by (apply filter_In; now split).
    destruct (filter typographicQuote str); [destruct Hin | discriminate].
  - apply escapePowerShellString_plain.
  - intros v config H. apply escapePowerShellString_plain.
    apply validateXPath_accepted_allowed in H.
    apply forallb_forall. intros c Hc. apply negb_true_iff.
    apply allowedChar_no_typographicQuote.
    rewrite forallb_forall in H. now apply H.
  - intros v H. apply escapePowerShellString_plain.
    destruct (validateChannel_returns_allowed v str H) as [-> | ->];
      vm_compute; reflexivity.
Qed.

Lemma escapePowerShellString_round_trip_witness :
  singleQuoted
    (escapePowerShellString
       (js "*[System[Provider[@Name='Application Error']]]"))
  = Some (js "*[System[Provider[@Name='Application Error']]]").
Proof.
  apply (proj1 (proj2 (escapePowerShellString_round_trip
                         (js "*[System[Provider[@Name='Application Error']]]")))
           (VString (js "  *[System[Provider[@Name='Application Error']]]"))
           DEFAULT_CONFIG).
  vm_compute. reflexivity.
Defined.

(** A typographic quote is left as it is, and ends the literal. *)
Example typographic_quote_not_doubled :
  let str := js "a" ++ [8217%N] ++ js "; b" in
  escapePowerShellString str = str
  /\ singleQuoted (escapePowerShellString str) = None.
Proof. split; vm_compute; reflexivity. Qed.

(** ** Blocked names in any case *)

Lemma blocked_names_start_with_letters :
  forallb starts_with_letter BLOCKED_PATTERNS = true.
Proof. vm_compute. reflexivity. Qed.

Lemma name_of_rule (p : RegExp) (name : string) (r : list ritem) :
  In p BLOCKED_PATTERNS -> body p = WordB :: lits name ++ r ->
  (forall k r', r <> Lit k :: r') ->
  exists n0 names, js name = n0 :: names /\ is_word n0 = true.
Proof.
  intros Hin Hbody Hr.
  pose proof blocked_names_start_with_letters as H.
  rewrite forallb_forall in H. specialize (H p Hin).
  unfold starts_with_letter in H. rewrite Hbody, lits_js in H.
  destruct (js name) as [|n0 names]; cbn [map app] in H.
  - destruct r as [|[| | |k|k] r']; try discriminate.
    exfalso. now apply (Hr k r').
  - exists n0, names. split; [reflexivity | exact H].
Qed.

(** A filter that a rule of the blocklist matches is rejected, and the
    error names that rule. *)
Lemma rejected_by_rule (p : RegExp) (s : jsstring) (config : Config) :
  In p BLOCKED_PATTERNS -> RegExp_test p s = true ->
  (Z.of_nat (List.length (trim s)) <= xpathMaxLength config)%Z ->
  exists details,
    validateXPath (VString s) config
    = Throw (XPathValidationError (js "XPath contains blocked constructs")
               details)
    /\ In (ruleDescription p) details.
Proof.
  intros Hin Ht Hlen.
  rewrite <- (blocked_test_trim p s Hin) in Ht.
  rewrite validateXPath_cascade.
  destruct (trim s) as [|c t] eqn:E.
  - rewrite (blocked_test_nil p Hin) in Ht. discriminate.
  - cbn [is_nil]. apply Z.ltb_ge in Hlen. rewrite Hlen.
    assert (Hb : containsBlocked (c :: t) = true).
    { apply existsb_exists. exists p. split; assumption. }
    rewrite Hb. eexists. split; [reflexivity|].
    apply in_map. apply filter_In. split; assumption.
Qed.

(** X8.  The names of the blocklist are caught in any letter case and
    with any white space before what closes them.  A filter in which a
    blocked function name, written in any mix of upper and lower case,
    stands at the start or after a character that is no letter, digit or
    underscore, and is followed by white space (or none) and an opening
    parenthesis, is rejected with XPathValidationError when it is within
    the length limit, and the error names the rule; so is a filter with a
    blocked axis name followed by white space (or none) and two colons. *)
Theorem blocked_names_in_any_case
        (name : string) (pre w ws post : jsstring) (config : Config) :
  sameIgnoringCase w (js name) -> spaces ws ->
  is_word_opt (lastChar pre) = false ->
  (In (call_pattern name) BLOCKED_PATTERNS ->
   (Z.of_nat (List.length (trim (pre ++ w ++ ws ++ js "(" ++ post)))
    <= xpathMaxLength config)%Z ->
   exists details,
     validateXPath (VString (pre ++ w ++ ws ++ js "(" ++ post)) config
     = Throw (XPathValidationError (js "XPath contains blocked constructs")
                details)
     /\ In (ruleDescription (call_pattern name)) details)
  /\ (In (axis_pattern name) BLOCKED_PATTERNS ->
      (Z.of_nat (List.length (trim (pre ++ w ++ ws ++ js "::" ++ post)))
       <= xpathMaxLength config)%Z ->
      exists details,
        validateXPath (VString (pre ++ w ++ ws ++ js "::" ++ post)) config
        = Throw (XPathValidationError (js "XPath contains blocked constructs")
                   details)
        /\ In (ruleDescription (axis_pattern name)) details).
Proof.
  intros Hw Hws Hpre. split; intros Hin Hlen.
  - apply (rejected_by_rule _ _ config Hin); [|exact Hlen].
    destruct (name_of_rule (call_pattern name) name
                [Star (One ESpace); Lit (One (Chr (ch "(")))] Hin eq_refl)
      as [n0 [names [Hname Hn0]]]; [discriminate|].
    unfold RegExp_test, call_pattern. cbn [ignoreCase body].
    rewrite lits_js.
    apply (named_rule_matches (js name) (js "(") n0 names pre w ws post
             Hname Hn0 Hw Hws Hpre).
  - apply (rejected_by_rule _ _ config Hin); [|exact Hlen].
    destruct (name_of_rule (axis_pattern name) name
                [Star (One ESpace); Lit (One (Chr (ch ":")));
                 Lit (One (Chr (ch ":")))] Hin eq_refl)
      as [n0 [names [Hname Hn0]]]; [discriminate|].
    unfold RegExp_test, axis_pattern. cbn [ignoreCase body].
    rewrite lits_js.
    apply (named_rule_matches (js name) (js "::") n0 names pre w ws post
             Hname Hn0 Hw Hws Hpre).
Qed.

Lemma blocked_names_in_any_case_witness :
  exists details,
    validateXPath (VString (js "*[" ++ js "CoNcAt" ++ js "  "
                               ++ js "(" ++ js "'a','b')]"))
                  DEFAULT_CONFIG
    = Throw (XPathValidationError (js "XPath contains blocked constructs")
               details)
    /\ In (ruleDescription (call_pattern "concat")) details.
Proof.
  refine (proj1 (blocked_names_in_any_case "concat" (js "*[") (js "CoNcAt")
                   (js "  ") (js "'a','b')]") DEFAULT_CONFIG _ _ _) _ _).
  - vm_compute. reflexivity.
  - repeat constructor.
  - vm_compute. reflexivity.
  - vm_compute. tauto.
  - vm_compute. discriminate.
Defined.

(** ** Blocked marks anywhere in a filter *)

(** X9.  Five marks are caught wherever they stand in a filter: two
    full stops in a row (parent traversal), two hyphens in a row, a
    slash followed by an asterisk, a dollar sign followed by a letter, a
    digit or an underscore (a variable reference), and a single or
    double quote followed, white space apart, by a closing and then an
    opening bracket.  A filter within the length limit that contains one
    of them is rejected with XPathValidationError, and the error names
    the rule. *)
Theorem blocked_marks_anywhere (s : jsstring) (config : Config) :
  (Z.of_nat (List.length (trim s)) <= xpathMaxLength config)%Z ->
  let rejectedFor (rule : jsstring) :=
    exists details,
      validateXPath (VString s) config
      = Throw (XPathValidationError (js "XPath contains blocked constructs")
                 details)
      /\ In (js "Blocked pattern: " ++ rule) details in
  (includes s (js "..") = true -> rejectedFor (js "\.\."))
  /\ (includes s (js "--") = true -> rejectedFor (js "--"))
  /\ (includes s (js "/*") = true -> rejectedFor (js "\/\*"))
  /\ ((exists pre c post, s = pre ++ ch "$" :: c :: post /\ is_word c = true) ->
      rejectedFor (js "\$\w+"))
  /\ ((exists pre q ws1 ws2 post,
          s = pre ++ q :: ws1 ++ ch "]" :: ws2 ++ ch "[" :: post
          /\ (q = ch "'" \/ q = dquote) /\ spaces ws1 /\ spaces ws2) ->
      rejectedFor (js "['" ++ [dquote] ++ js "]\s*\]\s*\[")).
Proof.
  intros Hlen rejectedFor. unfold rejectedFor.
  split; [|split; [|split; [|split]]].
  - intros H. apply includes_spec in H as [pre [post ->]].
    apply (rejected_by_rule
             {| source := js "\.\."; ignoreCase := false; body := lits ".." |});
      [vm_compute; tauto | apply literal_rule_matches | exact Hlen].
  - intros H. apply includes_spec in H as [pre [post ->]].
    apply (rejected_by_rule
             {| source := js "--"; ignoreCase := false; body := lits "--" |});
      [vm_compute; tauto | apply literal_rule_matches | exact Hlen].
  - intros H. apply includes_spec in H as [pre [post ->]].
    apply (rejected_by_rule
             {| source := js "\/\*"; ignoreCase := false; body := lits "/*" |});
      [vm_compute; tauto | apply literal_rule_matches | exact Hlen].
  - intros [pre [c [post [-> Hc]]]].
    apply (rejected_by_rule
             {| source := js "\$\w+"; ignoreCase := false;
                body := [Lit (One (Chr (ch "$"))); Lit (One EWord);
                         Star (One EWord)] |});
      [vm_compute; tauto | | exact Hlen].
    unfold RegExp_test. cbn [ignoreCase body].
    apply search_at. rewrite !match_here_Lit_cons.
    cbn [cset_match atom_match]. rewrite Hc, N.eqb_refl. cbn [andb].
    rewrite match_here_Star. apply star_loop_true. reflexivity.
  - intros [pre [q [ws1 [ws2 [post [-> [Hq [H1 H2]]]]]]]].
    apply (rejected_by_rule
             {| source := js "['" ++ [dquote] ++ js "]\s*\]\s*\[";
                ignoreCase := false;
                body := [Lit (Bracket false [Chr (ch "'"); Chr dquote]);
                         Star (One ESpace); Lit (One (Chr (ch "]")));
                         Star (One ESpace); Lit (One (Chr (ch "[")))] |});
      [vm_compute; tauto | | exact Hlen].
    unfold RegExp_test. cbn [ignoreCase body].
    apply search_at. rewrite match_here_Lit_cons.
    replace (cset_match false (Bracket false [Chr (ch "'"); Chr dquote]) q)
      with true by (destruct Hq as [-> | ->]; reflexivity).
    cbn [andb]. rewrite match_here_Star.
    apply star_loop_run; [exact H1|].
    rewrite match_here_Lit_cons.
    replace (cset_match false (One (Chr (ch "]"))) (ch "]")) with true
      by reflexivity.
    cbn [andb]. rewrite match_here_Star.
    apply star_loop_run; [exact H2|].
    reflexivity.
Qed.

Lemma blocked_marks_anywhere_witness :
  exists details,
    validateXPath (VString (js "*[System/../Security]")) DEFAULT_CONFIG
    = Throw (XPathValidationError (js "XPath contains blocked constructs")
               details)
    /\ In (js "Blocked pattern: " ++ js "\.\.") details.
Proof.
  refine (proj1 (blocked_marks_anywhere (js "*[System/../Security]")
                   DEFAULT_CONFIG _) _).
  - vm_compute. discriminate.
  - vm_compute. reflexivity.
Defined.

(** ** Queries that fail before they are run *)

Lemma allowed_iff (c : jsstring) :
  In c ALLOWED_CHANNELS <-> includes_str ALLOWED_CHANNELS c = true.
Proof.
  rewrite includes_allowed. unfold ALLOWED_CHANNELS. cbn [In].
  intuition congruence.
Qed.

Lemma validateChannel_disallowed (c : jsstring) :
  ~ In c ALLOWED_CHANNELS ->
  exists shown, validateChannel (VString c) = Throw (ChannelNotAllowedError shown).
Proof.
  intros H. unfold validateChannel. destruct c as [|a r].
  - eexists. reflexivity.
  - cbv beta iota delta [List.length Nat.eqb].
    destruct (includes_str ALLOWED_CHANNELS (a :: r)) eqn:E.
    + exfalso. apply H. now apply allowed_iff.
    + eexists. reflexivity.
Qed.

Section FailFast.
Context {host : Host}.

(** X10.  queryEvents checks before it runs anything.  For a channel that
    is not allowed it fails with ChannelNotAllowedError; for an allowed
    channel whose filter validateXPath rejects it fails with that very
    error; for an accepted filter and a start time that the Date of the
    host cannot read it fails with 'Invalid startTime format'.  In all
    three cases no script is run: the log source is left as it was. *)
Theorem queryEvents_fails_before_query
        (st : SourceState) (channel : jsstring) (options : QueryOptions)
        (config : Config) :
  (~ In channel ALLOWED_CHANNELS ->
   exists shown,
     queryEvents st channel options config
     = (st, Throw (ChannelNotAllowedError shown)))
  /\ (forall e,
        In channel ALLOWED_CHANNELS ->
        validateXPath (filterValue options) config = Throw e ->
        queryEvents st channel options config = (st, Throw e))
  /\ (forall f s,
        In channel ALLOWED_CHANNELS ->
        validateXPath (filterValue options) config = Ok f ->
        truthy (startTime options) = Some s ->
        Date_parse s = None ->
        queryEvents st channel options config
        = (st, Throw (Error (js "Invalid startTime format")))).
Proof.
  unfold queryEvents, queryScript. fold (filterValue options).
  split; [|split].
  - intros H. destruct (validateChannel_disallowed channel H) as [shown E].
    exists shown. rewrite E. reflexivity.
  - intros e Hc He. rewrite (validateChannel_allowed_string channel Hc).
    cbn [bind]. rewrite He. reflexivity.
  - intros f s Hc Hf Hs Hd. rewrite (validateChannel_allowed_string channel Hc).
    cbn [bind]. rewrite Hf. cbn [bind].
    unfold timeFilter at 1. rewrite Hs, Hd. reflexivity.
Qed.

End FailFast.

Lemma queryEvents_fails_before_query_witness :
  queryEvents (host := exampleHost) sampleSource (js "Application")
    {| xpath := Some (js "*[System[EventID=$id]]"); startTime := None;
       endTime := None; maxEvents := None |} DEFAULT_CONFIG
  = (sampleSource,
     Throw (XPathValidationError (js "XPath contains blocked constructs")
              [js "Blocked pattern: \$\w+"])).
Proof.
  refine (proj1 (proj2 (queryEvents_fails_before_query (host := exampleHost)
                          sampleSource (js "Application")
                          {| xpath := Some (js "*[System[EventID=$id]]");
                             startTime := None; endTime := None;
                             maxEvents := None |} DEFAULT_CONFIG)) _ _ _).
  - right; left; reflexivity.
  - vm_compute. reflexivity.
Defined.

(** ** The classification of the records of a channel *)

Section ClassifyOrder.
Context {host : Host}.

Lemma matchPatterns_cases (record : EventRecord)
      (entries : list (jsstring * CrashPattern)) :
  (existsb (fun entry => providerMatch (snd entry) record
                         || eventIdMatch (snd entry) record) entries = false
   /\ matchPatterns record entries [] = [])
  \/ (existsb (fun entry => providerMatch (snd entry) record
                            || eventIdMatch (snd entry) record) entries = true
      /\ exists type, In type (map fst entries)
                      /\ matchPatterns record entries []
                         = [signalFor record type]).
Proof.
  induction entries as [|[type pattern] rest IH]; cbn [matchPatterns existsb snd].
  - left. split; reflexivity.
  - destruct (providerMatch pattern record || eventIdMatch pattern record).
    + right. split; [reflexivity|]. exists type.
      split; [left; reflexivity | reflexivity].
    + cbn [orb]. destruct IH as [[H1 H2] | [H1 [t [Ht H2]]]].
      * left. split; assumption.
      * right. split; [assumption|]. exists t.
        split; [right; exact Ht | exact H2].
Qed.

(** X11.  The classification keeps the records of a channel in their
    order and neither repeats nor invents one: the records of the signals
    are exactly the records to which some pattern of the table applies,
    by provider or by event code, in the order of the log.  Every signal
    carries a crash type of the table, the severity of that type and the
    fields extracted from the message of its own record. *)
Theorem classifyEvents_in_order (events : list EventRecord) :
  map event (classifyEvents events []) = filter isCrashRecord events
  /\ Forall (fun x => In (crashType x) (map fst CRASH_PATTERNS)
                      /\ x = signalFor (event x) (crashType x))
            (classifyEvents events []).
Proof.
  induction events as [|e r [IH1 IH2]]; cbn [classifyEvents filter].
  - split; [reflexivity | constructor].
  - rewrite classifyEvents_app.
    unfold isCrashRecord at 1.
    destruct (matchPatterns_cases e CRASH_PATTERNS)
      as [[H1 H2] | [H1 [t [Ht H2]]]]; rewrite H1, H2.
    + split; [exact IH1 | exact IH2].
    + cbn [app map event]. split.
      * f_equal. exact IH1.
      * constructor; [|exact IH2]. split; [exact Ht | reflexivity].
Qed.

End ClassifyOrder.

(** ** A channel that is not allowed in a scan *)

Section ScanAbort.
Context {host : Host}.

Lemma scanChannels_app (startTime : jsstring) (config : Config)
      (before rest : list jsstring) :
  Forall (fun c => In c ALLOWED_CHANNELS) before ->
  forall st crashes,
    scanChannels (before ++ rest) startTime config st crashes
    = scanChannels rest startTime config
        (snd (channelOutcomes before startTime config st))
        (crashes ++ List.concat
                      (map signalsOf
                           (fst (channelOutcomes before startTime config st)))).
Proof.
  induction 1 as [|c r Hc Hr IH]; intros st crashes;
    cbn [app scanChannels channelOutcomes].
  - cbn. now rewrite app_nil_r.
  - rewrite (validateChannel_allowed_string c Hc).
    fold (scanQuery startTime).
    destruct (queryEvents st c (scanQuery startTime) config) as [st1 outcome].
    destruct outcome as [events|e]; rewrite IH;
      destruct (channelOutcomes r startTime config st1) as [outcomes st2];
      cbn [fst snd map List.concat signalsOf].
    + rewrite classifyEvents_app, app_assoc. reflexivity.
    + reflexivity.
Qed.

(** X12.  A channel that is not allowed is no failure that the scan
    swallows: validateChannel is called outside the try.  When the list
    of channels holds one that is not allowed, findCrashSignals fails
    with ChannelNotAllowedError; the allowed channels before it have been
    queried, their signals are lost, and the channels behind it are not
    queried. *)
Theorem scan_stops_at_disallowed_channel
        (Date_now : Z) (st : SourceState) (options : CrashOptions)
        (config : Config) (startTime : jsstring)
        (before : list jsstring) (bad : jsstring) (behind : list jsstring) :
  channels options = Some (before ++ bad :: behind) ->
  Forall (fun c => In c ALLOWED_CHANNELS) before ->
  ~ In bad ALLOWED_CHANNELS ->
  scanStartTime Date_now options config = Ok startTime ->
  exists shown,
    findCrashSignals Date_now st options config
    = (snd (channelOutcomes before startTime config st),
       Throw (ChannelNotAllowedError shown)).
Proof.
  intros Hch Hbefore Hbad Hstart.
  destruct (validateChannel_disallowed bad Hbad) as [shown E].
  exists shown. unfold findCrashSignals. rewrite Hch, Hstart.
  rewrite (scanChannels_app startTime config before (bad :: behind) Hbefore).
  cbn [scanChannels]. rewrite E. reflexivity.
Qed.

End ScanAbort.

Lemma scan_stops_at_disallowed_channel_witness :
  exists shown,
    findCrashSignals (host := exampleHost) 1766745000000 sampleSource
      {| hours := None;
         channels := Some [js "System"; js "Security"; js "Application"] |}
      DEFAULT_CONFIG
    = (snd (channelOutcomes (host := exampleHost) [js "System"]
              (js "2025-12-25T10:30:00.000Z") DEFAULT_CONFIG sampleSource),
       Throw (ChannelNotAllowedError shown)).
Proof.
  apply (scan_stops_at_disallowed_channel (host := exampleHost)
           1766745000000 sampleSource
           {| hours := None;
              channels := Some [js "System"; js "Security"; js "Application"] |}
           DEFAULT_CONFIG (js "2025-12-25T10:30:00.000Z")
           [js "System"] (js "Security") [js "Application"]).
  - reflexivity.
  - constructor; [left; reflexivity | constructor].
  - vm_compute. intuition discriminate.
  - vm_compute. reflexivity.
Defined.

(** ** listChannels and getEvent *)

Section Channels.
Context {host : Host} {typed : TypedSource host}.

Lemma getChannelInfo_allowed (st : SourceState) (c : jsstring)
      (config : Config) :
  In c ALLOWED_CHANNELS ->
  getChannelInfo st c config
  = (fst (executePowerShell_info st (getChannelInfoScript c)
                                 (queryTimeoutMs config)),
     match snd (executePowerShell_info st (getChannelInfoScript c)
                                       (queryTimeoutMs config)) with
     | Ok raw => Ok (infoOf raw)
     | Throw e => Throw e
     end).
Proof.
  intros Hc. unfold getChannelInfo.
  rewrite (validateChannel_allowed_string c Hc).
  destruct (executePowerShell_info st (getChannelInfoScript c)
                                   (queryTimeoutMs config)) as [st1 [raw|e]];
    reflexivity.
Qed.

(** X13.  listChannels always answers, and always with two entries, the
    one for System and then the one for Application.  No failure of the
    log source makes it fail: a channel whose information cannot be read
    is listed under its name as not enabled and with 0 records, the other
    channel is still asked, and a channel that can be read is listed with
    what the source reports, a missing record count being 0.  The tool
    list_channels returns these two entries under the default limits,
    with the two allowed channels beside them, whatever its parameters. *)
Theorem listChannels_always_answers
        (st : SourceState) (config : Config) (params : Params) :
  let ask (limits : Config) (s : SourceState) (c : jsstring) :=
    executePowerShell_info s (getChannelInfoScript c) (queryTimeoutMs limits) in
  let entry (c : jsstring) (outcome : result RawChannelInfo.t) :=
    match outcome with
    | Ok raw => infoOf raw
    | Throw _ => unreadableChannel c
    end in
  let answers (limits : Config) :=
    let first := ask limits st (js "System") in
    let second := ask limits (fst first) (js "Application") in
    (fst second,
     [entry (js "System") (snd first); entry (js "Application") (snd second)]) in
  listChannels st config = answers config
  /\ list_channels st params
     = (fst (answers DEFAULT_CONFIG),
        Returned {| ListChannelsResult.channels := snd (answers DEFAULT_CONFIG);
                    ListChannelsResult.allowedChannels :=
                      [js "System"; js "Application"] |})
  /\ (forall e, entry (js "System") (Throw e)
                = {| ChannelInfo.name := js "System";
                     ChannelInfo.enabled := false;
                     ChannelInfo.recordCount := 0;
                     ChannelInfo.fileSizeBytes := None;
                     ChannelInfo.oldestRecordTime := None;
                     ChannelInfo.newestRecordTime := None |})
  /\ (forall raw, ChannelInfo.recordCount (entry (js "System") (Ok raw))
                  = orZero (RawChannelInfo.RecordCount raw)).
Proof.
  cbv zeta.
  assert (Hlist : forall limits,
             listChannels st limits
             = (fst (executePowerShell_info
                       (fst (executePowerShell_info
                               st (getChannelInfoScript (js "System"))
                               (queryTimeoutMs limits)))
                       (getChannelInfoScript (js "Application"))
                       (queryTimeoutMs limits)),
                [match snd (executePowerShell_info
                              st (getChannelInfoScript (js "System"))
                              (queryTimeoutMs limits)) with
                 | Ok raw => infoOf raw
                 | Throw _ => unreadableChannel (js "System")
                 end;
                 match snd (executePowerShell_info
                              (fst (executePowerShell_info
                                      st (getChannelInfoScript (js "System"))
                                      (queryTimeoutMs limits)))
                              (getChannelInfoScript (js "Application"))
                              (queryTimeoutMs limits)) with
                 | Ok raw => infoOf raw
                 | Throw _ => unreadableChannel (js "Application")
                 end])).
  { intros limits. unfold listChannels. cbn [listChannelsLoop].
    rewrite (getChannelInfo_allowed st (js "System") limits)
      by (left; reflexivity).
    destruct (executePowerShell_info st (getChannelInfoScript (js "System"))
                                     (queryTimeoutMs limits)) as [st1 o1].
    cbn [fst snd].
    destruct o1 as [raw1|e1];
      rewrite (getChannelInfo_allowed st1 (js "Application") limits)
        by (right; left; reflexivity);
      destruct (executePowerShell_info st1
                  (getChannelInfoScript (js "Application"))
                  (queryTimeoutMs limits)) as [st2 [raw2|e2]];
      reflexivity. }
  split; [apply Hlist|]. split; [|split].
  - unfold list_channels. rewrite Hlist. reflexivity.
  - reflexivity.
  - reflexivity.
Qed.

(** X14.  getEvent asks the log source only for an allowed channel and a
    record identifier that is not negative: for a channel that is not
    allowed it fails with ChannelNotAllowedError, for an allowed channel
    and a negative identifier with 'recordId must be a non-negative
    integer', in both cases without running a script (the channel is
    looked at first).  Otherwise it runs one script; a failure of the
    source is passed on, an answer of null means that there is no such
    record, and a record that is found is returned parsed. *)
Theorem getEvent_checks_first
        (st : SourceState) (channel : jsstring) (recordId : Z)
        (config : Config) :
  (~ In channel ALLOWED_CHANNELS ->
   exists shown,
     getEvent st channel recordId config
     = (st, Throw (ChannelNotAllowedError shown)))
  /\ (In channel ALLOWED_CHANNELS -> (recordId < 0)%Z ->
      getEvent st channel recordId config
      = (st, Throw (Error (js "recordId must be a non-negative integer"))))
  /\ (In channel ALLOWED_CHANNELS -> (0 <= recordId)%Z ->
      let answer := executePowerShell_event
                      st (getEventScript channel recordId)
                      (queryTimeoutMs config) in
      getEvent st channel recordId config
      = (fst answer,
         match snd answer with
         | Throw e => Throw e
         | Ok None => Ok None
         | Ok (Some raw) => Ok (Some (parseEvent raw))
         end)).
Proof.
  unfold getEvent. split; [|split].
  - intros H. destruct (validateChannel_disallowed channel H) as [shown E].
    exists shown. rewrite E. reflexivity.
  - intros Hc Hid. rewrite (validateChannel_allowed_string channel Hc).
    apply Z.ltb_lt in Hid. rewrite Hid. reflexivity.
  - intros Hc Hid. cbv zeta.
    rewrite (validateChannel_allowed_string channel Hc).
    apply Z.ltb_ge in Hid. rewrite Hid.
    destruct (executePowerShell_event st (getEventScript channel recordId)
                                      (queryTimeoutMs config))
      as [st1 [[raw|]|e]]; reflexivity.
Qed.

End Channels.

Lemma getEvent_checks_first_witness :
  getEvent (host := exampleHost) (typed := exampleTyped) sampleSource
           (js "Application") (-1) DEFAULT_CONFIG
  = (sampleSource,
     Throw (Error (js "recordId must be a non-negative integer"))).
Proof.
  refine (proj1 (proj2 (getEvent_checks_first (host := exampleHost)
                          (typed := exampleTyped) sampleSource
                          (js "Application") (-1) DEFAULT_CONFIG)) _ _).
  - right; left; reflexivity.
  - lia.
Defined.

(** ** The summary of find_crash_signals *)

Lemma jsstring_eqb_refl (a : jsstring) : jsstring_eqb a a = true.
Proof. now apply jsstring_eqb_eq. Qed.

Lemma jsstring_eqb_neq (a b : jsstring) : jsstring_eqb a b = false <-> a <> b.
Proof.
  rewrite <- jsstring_eqb_eq. destruct (jsstring_eqb a b); intuition congruence.
Qed.

Lemma tableGet_set (table : list (jsstring * Z)) (key : jsstring) (value : Z)
      (other : jsstring) :
  tableGet (tableSet table key value) other
  = if jsstring_eqb key other then Some value else tableGet table other.
Proof.
  induction table as [|[k v] rest IH]; cbn [tableSet tableGet].
  - reflexivity.
  - destruct (jsstring_eqb k key) eqn:E; cbn [tableGet].
    + apply jsstring_eqb_eq in E. subst k.
      destruct (jsstring_eqb key other); reflexivity.
    + rewrite IH. destruct (jsstring_eqb k other) eqn:F; [|reflexivity].
      apply jsstring_eqb_eq in F. subst other.
      replace (jsstring_eqb key k) with false; [reflexivity|].
      symmetry. apply jsstring_eqb_neq. apply jsstring_eqb_neq in E. congruence.
Qed.

Lemma sumValues_bump (table : list (jsstring * Z)) (key : jsstring) :
  sumValues (tableSet table key (orZero (tableGet table key) + 1))
  = (sumValues table + 1)%Z.
Proof.
  unfold sumValues.
  induction table as [|[k v] rest IH]; cbn [tableSet tableGet].
  - cbn. lia.
  - destruct (jsstring_eqb k key); cbn [map snd fold_right orZero].
    + lia.
    + rewrite IH. lia.
Qed.

Lemma tableSet_keys (table : list (jsstring * Z)) (key : jsstring) (value : Z) :
  map fst (tableSet table key value)
  = if existsb (fun k => jsstring_eqb k key) (map fst table)
    then map fst table
    else map fst table ++ [key].
Proof.
  induction table as [|[k v] rest IH]; cbn [tableSet map fst existsb].
  - reflexivity.
  - destruct (jsstring_eqb k key); cbn [orb map fst]; [reflexivity|].
    rewrite IH. destruct (existsb _ (map fst rest)); reflexivity.
Qed.

Lemma tableSet_nodup (table : list (jsstring * Z)) (key : jsstring) (value : Z) :
  NoDup (map fst table) -> NoDup (map fst (tableSet table key value)).
Proof.
  intros H. rewrite tableSet_keys.
  destruct (existsb _ (map fst table)) eqn:E; [exact H|].
  apply NoDup_app; [exact H | repeat constructor; intros [] |].
  intros k Hk [Ek|[]]. subst k.
  assert (X : existsb (fun k0 => jsstring_eqb k0 key) (map fst table) = true).
  { apply existsb_exists. exists key.
    split; [exact Hk | apply jsstring_eqb_refl]. }
  congruence.
Qed.

Lemma tableSet_positive (table : list (jsstring * Z)) (key : jsstring) :
  Forall (fun entry => (1 <= snd entry)%Z) table ->
  Forall (fun entry => (1 <= snd entry)%Z)
         (tableSet table key (orZero (tableGet table key) + 1)).
Proof.
  induction 1 as [|[k v] rest Hk Hr IH]; cbn [tableSet tableGet].
  - constructor; [cbn; lia | constructor].
  - destruct (jsstring_eqb k key); cbn [orZero].
    + constructor; [cbn in *; lia | exact Hr].
    + constructor; [exact Hk | exact IH].
Qed.

Lemma countOfType_cons (type : jsstring) (c : CrashSignal)
      (crashes : list CrashSignal) :
  countOfType type (c :: crashes)
  = ((if jsstring_eqb (crashType c) type then 1 else 0)
     + countOfType type crashes)%Z.
Proof.
  unfold countOfType. cbn [filter].
  destruct (jsstring_eqb (crashType c) type); cbn [List.length]; lia.
Qed.

Lemma summarizeLoop_spec (crashes : list CrashSignal) :
  forall summary,
    let final := summarizeLoop crashes summary in
    total final = total summary
    /\ (forall type,
           orZero (tableGet (byCrashType final) type)
           = (orZero (tableGet (byCrashType summary) type)
              + countOfType type crashes)%Z)
    /\ sumValues (byCrashType final)
       = (sumValues (byCrashType summary) + Z.of_nat (List.length crashes))%Z
    /\ (NoDup (map fst (byCrashType summary)) ->
        NoDup (map fst (byCrashType final)))
    /\ (Forall (fun entry => (1 <= snd entry)%Z) (byCrashType summary) ->
        Forall (fun entry => (1 <= snd entry)%Z) (byCrashType final))
    /\ Critical (bySeverity final)
       = (Critical (bySeverity summary)
          + countOfSeverity Severity.Critical crashes)%Z
    /\ High (bySeverity final)
       = (High (bySeverity summary) + countOfSeverity Severity.High crashes)%Z
    /\ Medium (bySeverity final)
       = (Medium (bySeverity summary)
          + countOfSeverity Severity.Medium crashes)%Z.
Proof.
  induction crashes as [|c r IH]; intros summary; cbn zeta.
  - cbn [summarizeLoop]. unfold countOfType, countOfSeverity. cbn.
    repeat split; try lia; auto.
  - cbn [summarizeLoop].
    match goal with
    | |- context [summarizeLoop r ?s] => specialize (IH s)
    end.
    cbn zeta in IH. cbn [total byCrashType bySeverity] in IH.
    destruct IH as [I1 [I2 [I3 [I4 [I5 [I6 [I7 I8]]]]]]].
    split; [exact I1|]. split; [|split; [|split; [|split]]].
    + intros type. rewrite I2, tableGet_set, countOfType_cons.
      destruct (jsstring_eqb (crashType c) type) eqn:E; cbn [orZero]; [|lia].
      apply jsstring_eqb_eq in E. subst type. lia.
    + rewrite I3, sumValues_bump. cbn [List.length]. lia.
    + intros H. apply I4. now apply tableSet_nodup.
    + intros H. apply I5. now apply tableSet_positive.
    + rewrite I6, I7, I8. unfold countOfSeverity. cbn [filter].
      destruct (severity c); cbn [Critical High Medium List.length];
        repeat split; lia.
Qed.

(** X15.  The summary of find_crash_signals counts every signal once by
    type and once by severity.  The total is the number of signals; the
    count listed for a type is the number of signals of that type, a type
    is listed once, only types that occur are listed, and the counts by
    type add up to the total; the three counts by severity are the
    numbers of signals of each severity, and add up to the total. *)
Theorem summary_counts_every_signal (crashes : list CrashSignal) :
  let summary := summarize crashes in
  total summary = Z.of_nat (List.length crashes)
  /\ (forall type,
         orZero (tableGet (byCrashType summary) type)
         = countOfType type crashes)
  /\ NoDup (map fst (byCrashType summary))
  /\ Forall (fun entry => (1 <= snd entry)%Z) (byCrashType summary)
  /\ sumValues (byCrashType summary) = total summary
  /\ Critical (bySeverity summary) = countOfSeverity Severity.Critical crashes
  /\ High (bySeverity summary) = countOfSeverity Severity.High crashes
  /\ Medium (bySeverity summary) = countOfSeverity Severity.Medium crashes
  /\ (Critical (bySeverity summary) + High (bySeverity summary)
      + Medium (bySeverity summary))%Z = total summary.
Proof.
  cbn zeta. unfold summarize.
  match goal with
  | |- context [summarizeLoop crashes ?s] =>
      pose proof (summarizeLoop_spec crashes s) as H
  end.
  cbn zeta in H. cbn [total byCrashType bySeverity Critical High Medium] in H.
  destruct H as [I1 [I2 [I3 [I4 [I5 [I6 [I7 I8]]]]]]].
  assert (Hsev : (countOfSeverity Severity.Critical crashes
                  + countOfSeverity Severity.High crashes
                  + countOfSeverity Severity.Medium crashes
                  = Z.of_nat (List.length crashes))%Z).
  { unfold countOfSeverity. clear.
    induction crashes as [|c r IH]; [reflexivity|].
    cbn [filter]. destruct (severity c); cbn [List.length]; lia. }
  repeat split.
  - exact I1.
  - intros type. rewrite I2. cbn. lia.
  - apply I4. constructor.
  - apply I5. constructor.
  - rewrite I3, I1. cbn. lia.
  - rewrite I6. lia.
  - rewrite I7. lia.
  - rewrite I8. lia.
  - rewrite I6, I7, I8, I1. lia.
Qed.

(** ** Texts that differ in their digits only *)

Lemma noDigits_digit (c : N) : is_digit (noDigits c) = is_digit c.
Proof.
  unfold noDigits. destruct (is_digit c) eqn:E; [reflexivity | exact E].
Qed.

Lemma digit_is_word (c : N) : is_digit c = true -> is_word c = true.
Proof.
  intros H. unfold is_word. rewrite H.
  now rewrite orb_true_r.
Qed.

Lemma noDigits_word (c : N) : is_word (noDigits c) = is_word c.
Proof.
  unfold noDigits. destruct (is_digit c) eqn:E; [|reflexivity].
  now rewrite (digit_is_word c E).
Qed.

Lemma digit_not_space (c : N) : is_digit c = true -> is_space c = false.
Proof.
  intros H. destruct (is_space c) eqn:E; [|reflexivity].
  apply space_not_digit in E. congruence.
Qed.

Lemma noDigits_space (c : N) : is_space (noDigits c) = is_space c.
Proof.
  unfold noDigits. destruct (is_digit c) eqn:E; [|reflexivity].
  now rewrite (digit_not_space c E).
Qed.

Lemma noDigits_chr (i : bool) (p c : N) :
  is_digit p = false ->
  (Canonicalize i p =? Canonicalize i (noDigits c))%N
  = (Canonicalize i p =? Canonicalize i c)%N.
Proof.
  intros Hp. unfold noDigits. destruct (is_digit c) eqn:Hc; [|reflexivity].
  unfold is_digit, in_range in Hp, Hc.
  apply andb_true_iff in Hc as [H1 H2].
  apply N.leb_le in H1. apply N.leb_le in H2.
  assert (Hp' : (p < 48 \/ 57 < p)%N).
  { apply andb_false_iff in Hp as [H|H]; apply N.leb_gt in H; lia. }
  change (ch "0") with 48%N.
  transitivity false; [|symmetry]; apply N.eqb_neq;
    unfold Canonicalize, in_range;
    destruct i; cbn [andb];
    repeat match goal with
           | |- context [(?a <=? ?b)%N] =>
               let E := fresh "E" in
               destruct (a <=? b)%N eqn:E;
               [apply N.leb_le in E | apply N.leb_gt in E]
           end; cbn [andb]; lia.
Qed.

Lemma atom_blind_sound (i : bool) (a : atom) (c : N) :
  atom_blind a = true -> atom_match i a (noDigits c) = atom_match i a c.
Proof.
  destruct a as [p| | |]; cbn [atom_blind atom_match]; intros H.
  - apply noDigits_chr. now apply negb_true_iff.
  - apply noDigits_space.
  - apply noDigits_word.
  - apply noDigits_digit.
Qed.

Lemma members_blind_sound (i : bool) (members : list atom) (c : N) :
  forallb atom_blind members = true ->
  existsb (fun a => atom_match i a (noDigits c)) members
  = existsb (fun a => atom_match i a c) members.
Proof.
  induction members as [|a r IH]; cbn [forallb existsb]; [reflexivity|].
  intros H. apply andb_true_iff in H as [Ha Hr].
  now rewrite (atom_blind_sound i a c Ha), IH.
Qed.

Lemma cset_blind_sound (i : bool) (k : cset) (c : N) :
  cset_blind k = true -> cset_match i k (noDigits c) = cset_match i k c.
Proof.
  destruct k as [a|negated members]; cbn [cset_blind cset_match]; intros H.
  - now apply atom_blind_sound.
  - now rewrite members_blind_sound.
Qed.

Lemma star_loop_shape (K : N -> bool) (cont : option N -> jsstring -> bool)
      (s : jsstring) :
  (forall c, K (noDigits c) = K c) ->
  (forall p u, cont (option_map noDigits p) (shapeOf u) = cont p u) ->
  forall prev,
    star_loop K cont (option_map noDigits prev) (shapeOf s)
    = star_loop K cont prev s.
Proof.
  intros HK Hcont. induction s as [|c t IH]; intros prev.
  - cbn [shapeOf map]. rewrite !star_loop_nil. apply (Hcont prev []).
  - change (shapeOf (c :: t)) with (noDigits c :: shapeOf t).
    rewrite !star_loop_cons, HK.
    pose proof (IH (Some c)) as IHc. cbn [option_map] in IHc. rewrite IHc.
    now rewrite <- (Hcont prev (c :: t)).
Qed.

Lemma head_shape_word (s : jsstring) :
  is_word_opt (hd_error (shapeOf s)) = is_word_opt (hd_error s).
Proof. destruct s as [|c t]; [reflexivity | apply noDigits_word]. Qed.

Lemma prev_shape_word (prev : option N) :
  is_word_opt (option_map noDigits prev) = is_word_opt prev.
Proof. destruct prev as [c|]; [apply noDigits_word | reflexivity]. Qed.

(** A pattern that treats all digits alike gives the same answer on two
    subjects of the same shape. *)
Lemma match_here_shape (i : bool) (items : list ritem) :
  forallb item_blind items = true ->
  forall prev s,
    match_here i items (option_map noDigits prev) (shapeOf s)
    = match_here i items prev s.
Proof.
  induction items as [|it r IH]; [reflexivity|].
  cbn [forallb]. intros H. apply andb_true_iff in H as [Hit Hr].
  specialize (IH Hr).
  destruct it as [| | |k|k]; intros prev s; mh_step.
  - rewrite IH. now destruct prev.
  - rewrite IH. now destruct s.
  - now rewrite IH, head_shape_word, prev_shape_word.
  - destruct s as [|c t]; [reflexivity|].
    change (shapeOf (c :: t)) with (noDigits c :: shapeOf t). mh_step.
    pose proof (IH (Some c) t) as IHc. cbn [option_map] in IHc. rewrite IHc.
    now rewrite (cset_blind_sound i k c Hit).
  - apply star_loop_shape; [|exact IH].
    intros c. now apply cset_blind_sound.
Qed.

Lemma search_shape (i : bool) (items : list ritem) :
  forallb item_blind items = true ->
  forall s prev,
    search i items (option_map noDigits prev) (shapeOf s)
    = search i items prev s.
Proof.
  intros H. induction s as [|c t IH]; intros prev.
  - cbn [shapeOf map]. rewrite !search_nil. apply (match_here_shape i items H prev []).
  - change (shapeOf (c :: t)) with (noDigits c :: shapeOf t).
    rewrite !search_cons.
    pose proof (IH (Some c)) as IHc. cbn [option_map] in IHc. rewrite IHc.
    now rewrite <- (match_here_shape i items H prev (c :: t)).
Qed.

Lemma RegExp_test_shape (p : RegExp) (s : jsstring) :
  pattern_blind p = true -> RegExp_test p (shapeOf s) = RegExp_test p s.
Proof.
  intros H. unfold RegExp_test.
  apply (search_shape (ignoreCase p) (body p) H s None).
Qed.

(** No rule of the program names a digit. *)
Lemma program_patterns_blind :
  forallb pattern_blind BLOCKED_PATTERNS = true
  /\ forallb atom_blind ALLOWED_MEMBERS = true
  /\ pattern_blind ISO_SHAPE = true.
Proof. repeat split; vm_compute; reflexivity. Qed.

Lemma rules_shape (patterns : list RegExp) (s : jsstring) :
  forallb pattern_blind patterns = true ->
  filter (fun p => RegExp_test p (shapeOf s)) patterns
  = filter (fun p => RegExp_test p s) patterns.
Proof.
  induction patterns as [|p r IH]; cbn [forallb filter]; [reflexivity|].
  intros H. apply andb_true_iff in H as [Hp Hr].
  now rewrite (RegExp_test_shape p s Hp), IH.
Qed.

Lemma trimStart_shape (s : jsstring) :
  trimStart (shapeOf s) = shapeOf (trimStart s).
Proof.
  induction s as [|c t IH]; [reflexivity|].
  change (shapeOf (c :: t)) with (noDigits c :: shapeOf t).
  cbn [trimStart]. rewrite noDigits_space.
  destruct (is_space c); [exact IH | reflexivity].
Qed.

Lemma trim_shape (s : jsstring) : trim (shapeOf s) = shapeOf (trim s).
Proof.
  unfold trim, trimEnd. rewrite trimStart_shape.
  unfold shapeOf. rewrite <- !map_rev.
  fold (shapeOf (rev (trimStart s))). rewrite trimStart_shape.
  unfold shapeOf. now rewrite map_rev.
Qed.

Lemma allowed_shape (s : jsstring) :
  forallb allowedChar (shapeOf s) = forallb allowedChar s.
Proof.
  induction s as [|c t IH]; [reflexivity|].
  change (shapeOf (c :: t)) with (noDigits c :: shapeOf t).
  cbn [forallb]. rewrite IH.
  f_equal. unfold allowedChar.
  apply members_blind_sound. apply program_patterns_blind.
Qed.

Lemma brackets_shape (x : N) (s : jsstring) :
  is_digit x = false ->
  List.length (filter (N.eqb x) (shapeOf s)) = List.length (filter (N.eqb x) s).
Proof.
  intros Hx. induction s as [|c t IH]; [reflexivity|].
  change (shapeOf (c :: t)) with (noDigits c :: shapeOf t). cbn [filter].
  replace (x =? noDigits c)%N with (x =? c)%N.
  - destruct (x =? c)%N; cbn [List.length]; now rewrite IH.
  - unfold noDigits. destruct (is_digit c) eqn:E; [|reflexivity].
    transitivity false; [|symmetry]; apply N.eqb_neq; intros ->.
    + congruence.
    + discriminate.
Qed.

Lemma depthOf_shape (s : jsstring) : depthOf (shapeOf s) = depthOf s.
Proof.
  unfold depthOf, occurrences.
  now rewrite !brackets_shape by reflexivity.
Qed.

Lemma prefixes_shape (s : jsstring) :
  map depthOf (prefixes (shapeOf s)) = map depthOf (prefixes s).
Proof.
  unfold prefixes, shapeOf. rewrite length_map, !map_map.
  apply map_ext. intros n. rewrite firstn_map. apply depthOf_shape.
Qed.

Lemma bracketStage_shape (t : jsstring) :
  bracketStage (shapeOf t)
  = match bracketStage t with
    | Ok (Some _) => Ok (Some (shapeOf t))
    | other => other
    end.
Proof.
  unfold bracketStage.
  assert (Hb : balanced (shapeOf t) = balanced t).
  { unfold balanced. rewrite depthOf_shape. f_equal.
    rewrite <- (forallb_map_comp (fun d => (0 <=? d)%Z) depthOf
                                 (prefixes (shapeOf t))).
    rewrite <- (forallb_map_comp (fun d => (0 <=? d)%Z) depthOf (prefixes t)).
    now rewrite prefixes_shape. }
  assert (Hn : nestingDepth (shapeOf t) = nestingDepth t).
  { unfold nestingDepth. now rewrite prefixes_shape. }
  assert (Hp : predicateCount (shapeOf t) = predicateCount t).
  { assert (Hf : forall u, filter (fun c => (c =? ch "[")%N) u
                            = filter (N.eqb (ch "[")) u)
      by (intros u; apply filter_ext; intros c; apply N.eqb_sym).
    unfold predicateCount. rewrite !Hf, brackets_shape by reflexivity.
    reflexivity. }
  rewrite Hb, Hn, Hp.
  destruct (negb (balanced t)); [reflexivity|].
  destruct (5 <? nestingDepth t)%Z; [reflexivity|].
  destruct (10 <? predicateCount t)%Z; reflexivity.
Qed.

(** The verdict of validateXPath on a filter depends on its digits only
    through the text returned. *)
Lemma validateXPath_shape (s : jsstring) (config : Config) :
  validateXPath (VString (shapeOf s)) config
  = match validateXPath (VString s) config with
    | Ok (Some t) => Ok (Some (shapeOf t))
    | other => other
    end.
Proof.
  rewrite !validateXPath_cascade, trim_shape.
  unfold shapeOf at 2. rewrite length_map. fold (shapeOf (trim s)).
  destruct (trim s) as [|c t] eqn:Ht; [reflexivity|].
  change (is_nil (shapeOf (c :: t))) with false. cbn [is_nil].
  destruct (xpathMaxLength config <? _)%Z; [reflexivity|].
  rewrite (rules_shape BLOCKED_PATTERNS (c :: t))
    by apply program_patterns_blind.
  assert (Hb : containsBlocked (shapeOf (c :: t)) = containsBlocked (c :: t)).
  { destruct (containsBlocked (c :: t)) eqn:E.
    - apply existsb_exists in E as [p [Hp Hm]].
      apply existsb_exists. exists p. split; [exact Hp|].
      rewrite RegExp_test_shape; [exact Hm|].
      destruct program_patterns_blind as [Hall _].
      rewrite forallb_forall in Hall. now apply Hall.
    - apply no_match_no_rule.
      rewrite (rules_shape BLOCKED_PATTERNS (c :: t))
        by apply program_patterns_blind.
      now apply no_match_no_rule. }
  rewrite Hb. destruct (containsBlocked (c :: t)); [reflexivity|].
  rewrite allowed_shape.
  destruct (negb (forallb allowedChar (c :: t))); [reflexivity|].
  rewrite bracketStage_shape.
  destruct (bracketStage (c :: t)) as [[u|]|e] eqn:E; try reflexivity.
  unfold bracketStage in E.
  destruct (negb (balanced (c :: t))); [discriminate|].
  destruct (5 <? nestingDepth (c :: t))%Z; [discriminate|].
  destruct (10 <? predicateCount (c :: t))%Z; [discriminate|].
  injection E as <-. reflexivity.
Qed.

Lemma shapeOf_length (s : jsstring) : List.length (shapeOf s) = List.length s.
Proof. apply length_map. Qed.

(** A filter is accepted as it is when a filter of the same shape is. *)
Lemma accepted_by_shape (s model : jsstring) (config : Config) :
  shapeOf s = model ->
  validateXPath (VString model) config = Ok (Some model) ->
  validateXPath (VString s) config = Ok (Some s).
Proof.
  intros Hs Hm. rewrite <- Hs, validateXPath_shape in Hm.
  destruct (validateXPath (VString s) config) as [[t|]|e] eqn:E;
    try discriminate.
  pose proof (validateXPath_accepts_trimmed s t config E) as Ht.
  injection Hm as Hm.
  assert (Hlen : List.length t = List.length s).
  { rewrite <- (shapeOf_length t), Hm. apply shapeOf_length. }
  destruct (trim_decompose s) as [lead [trail [Hd _]]].
  rewrite <- Ht in Hd.
  assert (List.length lead = 0 /\ List.length trail = 0)%nat as [Hl Hr].
  { apply (f_equal (@List.length N)) in Hd.
    rewrite !length_app in Hd. lia. }
  destruct lead; [|discriminate]. destruct trail; [|discriminate].
  cbn [app] in Hd. rewrite app_nil_r in Hd. congruence.
Qed.

(** The verdict on a filter that is given letter by letter. *)
Lemma validateXPath_model (model : jsstring) (config : Config) :
  trim model = model -> is_nil model = false ->
  (Z.of_nat (List.length model) <= xpathMaxLength config)%Z ->
  containsBlocked model = false ->
  forallb allowedChar model = true ->
  bracketStage model = Ok (Some model) ->
  validateXPath (VString model) config = Ok (Some model).
Proof.
  intros Ht Hn Hlen Hblk Hall Hbr.
  rewrite validateXPath_cascade, Ht, Hn.
  apply Z.ltb_ge in Hlen. rewrite Hlen, Hblk, Hall. exact Hbr.
Qed.

(** ** What toISOString writes *)

Lemma pad_digit (n : Z) : is_digit (48 + Z.to_N (n mod 10)) = true.
Proof.
  pose proof (Z.mod_pos_bound n 10 ltac:(lia)) as H.
  unfold is_digit, in_range. apply andb_true_iff.
  split; apply N.leb_le; lia.
Qed.

Lemma pad_shape (width : nat) :
  forall n, shapeOf (pad width n) = repeat (ch "0") width.
Proof.
  induction width as [|w IH]; intros n; [reflexivity|].
  cbn [pad]. unfold shapeOf. rewrite map_app. fold (shapeOf (pad w (n / 10))).
  rewrite IH. cbn [map]. unfold noDigits at 1. rewrite pad_digit.
  rewrite <- repeat_cons. reflexivity.
Qed.

Lemma pad_chars (width : nat) :
  forall n, forallb isoChar (pad width n) = true.
Proof.
  induction width as [|w IH]; intros n; [reflexivity|].
  cbn [pad]. rewrite forallb_app, IH. cbn [forallb].
  unfold isoChar. now rewrite pad_digit.
Qed.

(** For an instant in a year of four digits toISOString writes
    dddd-dd-ddTdd:dd:dd.dddZ. *)
Lemma toISOString_shape (t : Z) :
  (Z.abs t <= 8640000000000000)%Z -> fourDigitYear t = true ->
  exists iso, toISOString t = Ok iso /\ shapeOf iso = UTC_SHAPE.
Proof.
  intros Hrange Hyear. unfold toISOString, fourDigitYear in *.
  replace (8640000000000000 <? Z.abs t)%Z with false
    by (symmetry; now apply Z.ltb_ge).
  destruct (civil_from_days (t / msPerDay)) as [[y m] d].
  rewrite Hyear. eexists. split; [reflexivity|].
  unfold shapeOf. rewrite !map_app.
  repeat match goal with
         | |- context [map noDigits (pad ?w ?n)] =>
             change (map noDigits (pad w n)) with (shapeOf (pad w n));
             rewrite (pad_shape w n)
         end.
  reflexivity.
Qed.

(** Whatever toISOString writes is made of digits and of the characters
    + - : . T Z: it holds no quote. *)
Lemma toISOString_chars (t : Z) (iso : jsstring) :
  toISOString t = Ok iso -> forallb isoChar iso = true.
Proof.
  unfold toISOString.
  destruct (8640000000000000 <? Z.abs t)%Z; [discriminate|].
  destruct (civil_from_days (t / msPerDay)) as [[y m] d].
  intros H. cbv zeta in H.
  match type of H with
  | Ok ?e = _ => assert (E : iso = e) by congruence
  end.
  rewrite E. clear H E.
  destruct ((0 <=? y) && (y <=? 9999))%Z;
    rewrite !forallb_app, !pad_chars.
  - reflexivity.
  - destruct (y <? 0)%Z; reflexivity.
Qed.

(** ** The filter of the crash scan *)

Lemma crashXPath_shape (startTime : jsstring) :
  shapeOf startTime = UTC_SHAPE ->
  shapeOf (crashXPath startTime) = shapeOf (crashXPath UTC_SHAPE).
Proof.
  intros H. unfold crashXPath, shapeOf. rewrite !map_app.
  fold (shapeOf startTime). rewrite H. reflexivity.
Qed.

Lemma crash_filter_model :
  let model := shapeOf (crashXPath UTC_SHAPE) in
  trim model = model /\ is_nil model = false
  /\ Z.of_nat (List.length model) = 247%Z
  /\ containsBlocked model = false
  /\ forallb allowedChar model = true
  /\ bracketStage model = Ok (Some model).
Proof. cbv zeta. repeat split; vm_compute; reflexivity. Qed.

Lemma crash_filter_accepted (startTime : jsstring) (config : Config) :
  shapeOf startTime = UTC_SHAPE ->
  (247 <= xpathMaxLength config)%Z ->
  validateXPath (VString (crashXPath startTime)) config
  = Ok (Some (crashXPath startTime)).
Proof.
  intros Hs Hmax.
  apply (accepted_by_shape _ _ config (crashXPath_shape startTime Hs)).
  destruct crash_filter_model as [H1 [H2 [H3 [H4 [H5 H6]]]]].
  apply validateXPath_model; [assumption.. | | assumption | assumption | assumption].
  rewrite H3. exact Hmax.
Qed.

Lemma crash_filter_length (startTime : jsstring) :
  shapeOf startTime = UTC_SHAPE ->
  Z.of_nat (List.length (crashXPath startTime)) = 247%Z.
Proof.
  intros Hs. rewrite <- (shapeOf_length (crashXPath startTime)).
  rewrite (crashXPath_shape startTime Hs). apply crash_filter_model.
Qed.

Lemma trim_by_shape (s : jsstring) :
  trim (shapeOf s) = shapeOf s -> trim s = s.
Proof.
  intros H. rewrite trim_shape in H.
  assert (Hlen : List.length (trim s) = List.length s).
  { rewrite <- (shapeOf_length (trim s)), H. apply shapeOf_length. }
  destruct (trim_decompose s) as [lead [trail [Hd _]]].
  assert (List.length lead = 0 /\ List.length trail = 0)%nat as [Hl Hr].
  { apply (f_equal (@List.length N)) in Hd.
    rewrite !length_app in Hd. lia. }
  destruct lead; [|discriminate]. destruct trail; [|discriminate].
  cbn [app] in Hd. rewrite app_nil_r in Hd. congruence.
Qed.

Lemma crash_filter_too_long (startTime : jsstring) (config : Config) :
  shapeOf startTime = UTC_SHAPE ->
  (xpathMaxLength config < 247)%Z ->
  validateXPath (VString (crashXPath startTime)) config
  = Throw (tooLong config).
Proof.
  intros Hs Hmax. rewrite validateXPath_cascade.
  assert (Ht : trim (crashXPath startTime) = crashXPath startTime).
  { apply trim_by_shape. rewrite (crashXPath_shape startTime Hs).
    apply crash_filter_model. }
  rewrite Ht, (crash_filter_length startTime Hs).
  replace (is_nil (crashXPath startTime)) with false.
  - apply Z.ltb_lt in Hmax. now rewrite Hmax.
  - pose proof (crash_filter_length startTime Hs) as L.
    destruct (crashXPath startTime); [discriminate L | reflexivity].
Qed.

Section ScanFilter.
Context {host : Host}.

(** X16.  The crash scan never trips over its own filter.  When the
    start of the scan lies in a year of four digits and the configured
    maximum length is at least 247, the length of the filter, the start
    time is written as dddd-dd-ddTdd:dd:dd.dddZ, validateXPath returns
    the filter of the scan as it is, and for an allowed channel a script
    is prepared: a channel that contributes nothing has failed at the
    log source, not at the validation. *)
Theorem scan_filter_accepted
        (Date_now : Z) (options : CrashOptions) (config : Config)
        (channel : jsstring) :
  let start :=
    (Date_now - clampHours (hours options) config * 60 * 60 * 1000)%Z in
  (Z.abs start <= 8640000000000000)%Z ->
  fourDigitYear start = true ->
  (247 <= xpathMaxLength config)%Z ->
  In channel ALLOWED_CHANNELS ->
  exists startTime script,
    scanStartTime Date_now options config = Ok startTime
    /\ shapeOf startTime = UTC_SHAPE
    /\ validateXPath (VString (crashXPath startTime)) config
       = Ok (Some (crashXPath startTime))
    /\ queryScript channel (scanQuery startTime) config = Ok script.
Proof.
  intros start Hrange Hyear Hmax Hc.
  destruct (toISOString_shape start Hrange Hyear) as [iso [Hiso Hshape]].
  exists iso. eexists. split; [exact Hiso|]. split; [exact Hshape|].
  pose proof (crash_filter_accepted iso config Hshape Hmax) as Hv.
  split; [exact Hv|].
  unfold queryScript, scanQuery. cbn [xpath startTime endTime maxEvents].
  rewrite (validateChannel_allowed_string channel Hc). cbn [bind].
  rewrite Hv. cbn [bind timeFilter truthy]. reflexivity.
Qed.

Lemma scanChannels_rejected (startTime : jsstring) (config : Config)
      (e : Thrown) (channels : list jsstring) :
  validateXPath (VString (crashXPath startTime)) config = Throw e ->
  Forall (fun c => In c ALLOWED_CHANNELS) channels ->
  forall st crashes,
    scanChannels channels startTime config st crashes = (st, Ok crashes).
Proof.
  intros Hv. induction 1 as [|c r Hc Hr IH]; intros st crashes;
    cbn [scanChannels]; [reflexivity|].
  rewrite (validateChannel_allowed_string c Hc).
  unfold queryEvents, queryScript. cbn [xpath].
  rewrite (validateChannel_allowed_string c Hc). cbn [bind].
  rewrite Hv. cbn [bind]. apply IH.
Qed.

(** X17.  With limits whose maximum filter length is below 247 the
    crash scan is silent: validateXPath rejects the filter of the scan
    itself as too long, the rejection is swallowed like a failure of the
    log source, and findCrashSignals returns no signal and no error
    without asking the log source at all. *)
Theorem scan_silent_under_short_limit
        (Date_now : Z) (st : SourceState) (options : CrashOptions)
        (config : Config) :
  let scanned := match channels options with
                 | Some l => l
                 | None => [js "System"; js "Application"]
                 end in
  let start :=
    (Date_now - clampHours (hours options) config * 60 * 60 * 1000)%Z in
  Forall (fun c => In c ALLOWED_CHANNELS) scanned ->
  (Z.abs start <= 8640000000000000)%Z ->
  fourDigitYear start = true ->
  (xpathMaxLength config < 247)%Z ->
  findCrashSignals Date_now st options config = (st, Ok []).
Proof.
  intros scanned start Hallowed Hrange Hyear Hmax.
  destruct (toISOString_shape start Hrange Hyear) as [iso [Hiso Hshape]].
  unfold findCrashSignals. fold scanned.
  unfold scanStartTime. fold start. rewrite Hiso.
  rewrite (scanChannels_rejected iso config (tooLong config) scanned
             (crash_filter_too_long iso config Hshape Hmax) Hallowed).
  reflexivity.
Qed.

End ScanFilter.

Lemma scan_filter_accepted_witness :
  exists startTime script,
    scanStartTime 1766745000000 {| hours := None; channels := None |}
                  DEFAULT_CONFIG = Ok startTime
    /\ shapeOf startTime = UTC_SHAPE
    /\ validateXPath (VString (crashXPath startTime)) DEFAULT_CONFIG
       = Ok (Some (crashXPath startTime))
    /\ queryScript (host := exampleHost) (js "System") (scanQuery startTime)
                   DEFAULT_CONFIG = Ok script.
Proof.
  apply (scan_filter_accepted (host := exampleHost) 1766745000000
           {| hours := None; channels := None |} DEFAULT_CONFIG (js "System")).
  - vm_compute. discriminate.
  - vm_compute. reflexivity.
  - vm_compute. discriminate.
  - left. reflexivity.
Defined.

Lemma scan_silent_under_short_limit_witness :
  findCrashSignals (host := exampleHost) 1766745000000 sampleSource
    {| hours := None; channels := None |}
    {| maxEventsPerQuery := 1000; maxTimeRangeHours := 168;
       queryTimeoutMs := 30000; xpathMaxLength := 200 |}
  = (sampleSource, Ok []).
Proof.
  apply (scan_silent_under_short_limit (host := exampleHost) 1766745000000
           sampleSource {| hours := None; channels := None |}
           {| maxEventsPerQuery := 1000; maxTimeRangeHours := 168;
              queryTimeoutMs := 30000; xpathMaxLength := 200 |}).
  - constructor; [left; reflexivity|].
    constructor; [right; left; reflexivity | constructor].
  - vm_compute. discriminate.
  - vm_compute. reflexivity.
  - vm_compute. reflexivity.
Defined.

(** ** Filters for a range of time *)

Lemma utc_is_iso_shape (s : jsstring) :
  shapeOf s = UTC_SHAPE ->
  truthy (Some s) = Some s /\ RegExp_test ISO_SHAPE s = true.
Proof.
  intros H. split.
  - destruct s; [discriminate H | reflexivity].
  - rewrite <- RegExp_test_shape by apply program_patterns_blind.
    rewrite H. vm_compute. reflexivity.
Qed.

Lemma time_range_model (model : jsstring) (config : Config) :
  In model
     [ shapeOf (js "*[System[TimeCreated[@SystemTime>='" ++ UTC_SHAPE
                   ++ js "']]]");
       shapeOf (js "*[System[TimeCreated[@SystemTime<='" ++ UTC_SHAPE
                   ++ js "']]]");
       shapeOf (js "*[System[TimeCreated[@SystemTime>='" ++ UTC_SHAPE
                   ++ js "'] and TimeCreated[@SystemTime<='" ++ UTC_SHAPE
                   ++ js "']]]") ] ->
  (120 <= xpathMaxLength config)%Z ->
  validateXPath (VString model) config = Ok (Some model).
Proof.
  intros Hin Hmax.
  assert (H : trim model = model /\ is_nil model = false
              /\ (Z.of_nat (List.length model) <=? 120)%Z = true
              /\ containsBlocked model = false
              /\ forallb allowedChar model = true
              /\ bracketStage model = Ok (Some model)).
  { destruct Hin as [<-|[<-|[<-|[]]]];
      (repeat split; vm_compute; reflexivity). }
  destruct H as [H1 [H2 [H3 [H4 [H5 H6]]]]].
  apply Z.leb_le in H3.
  apply validateXPath_model; try assumption. lia.
Qed.

(** X18.  A filter that buildTimeRangeXPath builds from timestamps of
    the form dddd-dd-ddTdd:dd:dd.dddZ, the form that toISOString writes,
    is accepted by validateXPath and returned as it is, for a start time,
    for an end time and for both, whenever the configured maximum length
    is at least 120 (as 500 is). *)
Theorem time_range_filter_accepted (s e : jsstring) (config : Config) :
  shapeOf s = UTC_SHAPE -> shapeOf e = UTC_SHAPE ->
  (120 <= xpathMaxLength config)%Z ->
  forall startTime endTime,
    In (startTime, endTime) [(Some s, None); (None, Some e); (Some s, Some e)] ->
    exists f,
      buildTimeRangeXPath startTime endTime = Ok (Some f)
      /\ validateXPath (VString f) config = Ok (Some f).
Proof.
  intros Hs He Hmax startTime endTime Hin.
  destruct (utc_is_iso_shape s Hs) as [Ts Rs].
  destruct (utc_is_iso_shape e He) as [Te Re].
  unfold buildTimeRangeXPath.
  destruct Hin as [E|[E|[E|[]]]]; injection E as <- <-;
    rewrite ?Ts, ?Te, ?Rs, ?Re; cbn [truthy negb bind app List.length Nat.eqb join];
    eexists; (split; [reflexivity|]);
    (eapply accepted_by_shape;
     [ unfold shapeOf; rewrite !map_app;
       fold (shapeOf s); fold (shapeOf e); rewrite ?Hs, ?He; reflexivity
     | apply time_range_model; [|exact Hmax] ]).
  - left. reflexivity.
  - right; left. reflexivity.
  - right; right; left. reflexivity.
Qed.

Lemma time_range_filter_accepted_witness :
  exists f,
    buildTimeRangeXPath (Some (js "2025-12-25T10:30:00.000Z"))
                        (Some (js "2025-12-26T10:30:00.000Z")) = Ok (Some f)
    /\ validateXPath (VString f) DEFAULT_CONFIG = Ok (Some f).
Proof.
  apply (time_range_filter_accepted (js "2025-12-25T10:30:00.000Z")
           (js "2025-12-26T10:30:00.000Z") DEFAULT_CONFIG).
  - vm_compute. reflexivity.
  - vm_compute. reflexivity.
  - vm_compute. discriminate.
  - right; right; left. reflexivity.
Defined.

(** ** The time bounds in the script *)

Lemma isoChar_no_quote (c : N) : isoChar c = true -> isSingleQuote c = false.
Proof.
  unfold isoChar, isSingleQuote, typographicQuote, is_digit, in_range.
  cbn [existsb].
  change (ch "'") with 39%N. change (ch "+") with 43%N.
  change (ch "-") with 45%N. change (ch ":") with 58%N.
  change (ch ".") with 46%N. change (ch "T") with 84%N.
  change (ch "Z") with 90%N.
  intros H. bool_props H.
  repeat (apply orb_false_iff; split); try reflexivity; apply N.eqb_neq; lia.
Qed.

Lemma singleQuoted_plain (s : jsstring) :
  forallb isoChar s = true -> singleQuoted s = Some s.
Proof.
  induction s as [|c t IH]; [reflexivity|].
  cbn [forallb singleQuoted]. intros H. apply andb_true_iff in H as [Hc Ht].
  rewrite (isoChar_no_quote c Hc), (IH Ht). reflexivity.
Qed.

Section TimeLines.
Context {host : Host}.

(** X19.  The text of a time bound never reaches the script.  What
    queryEvents writes for a bound is nothing, when the bound is absent
    or empty, or one line that assigns to the key of the filter table,
    between single quotes, what toISOString writes for the instant that
    the Date of the host has read from the bound: a text of digits and of
    the characters + - : . T Z, which holds no quote and is read back by
    PowerShell as it is. *)
Theorem timeFilter_writes_normalized
        (name key : string) (time : option jsstring) (lines : list jsstring) :
  timeFilter name key time = Ok lines ->
  (truthy time = None /\ lines = [])
  \/ exists s t iso,
      truthy time = Some s /\ Date_parse s = Some t /\ toISOString t = Ok iso
      /\ lines = [js "$filter['" ++ js key ++ js "'] = [DateTime]'"
                     ++ iso ++ js "'"]
      /\ forallb isoChar iso = true
      /\ singleQuoted iso = Some iso.
Proof.
  unfold timeFilter. destruct (truthy time) as [s|].
  - destruct (Date_parse s) as [t|] eqn:D; [|discriminate].
    destruct (toISOString t) as [iso|e] eqn:E; cbn [bind]; [|discriminate].
    intros H. injection H as <-. right. exists s, t, iso.
    pose proof (toISOString_chars t iso E) as Hc.
    split; [reflexivity|]. split; [exact D|]. split; [exact E|].
    split; [reflexivity|]. split; [exact Hc | now apply singleQuoted_plain].
  - intros H. injection H as <-. left. split; reflexivity.
Qed.

End TimeLines.

Lemma timeFilter_writes_normalized_witness :
  (truthy (Some (js "2025-12-25T11:30:00+01:00")) = None
   /\ [js "$filter['StartTime'] = [DateTime]'2025-12-25T10:30:00.000Z'"] = [])
  \/ exists s t iso,
      truthy (Some (js "2025-12-25T11:30:00+01:00")) = Some s
      /\ Date_parse (Host := exampleHost) s = Some t
      /\ toISOString t = Ok iso
      /\ [js "$filter['StartTime'] = [DateTime]'2025-12-25T10:30:00.000Z'"]
         = [js "$filter['" ++ js "StartTime" ++ js "'] = [DateTime]'"
               ++ iso ++ js "'"]
      /\ forallb isoChar iso = true
      /\ singleQuoted iso = Some iso.
Proof.
  apply (timeFilter_writes_normalized (host := exampleHost)
           "startTime" "StartTime" (Some (js "2025-12-25T11:30:00+01:00"))).
  vm_compute. reflexivity.
Defined.

(** ** The tools: schemas, guards and reports *)

Lemma z_enum_allowed (v : JsValue) (c : jsstring) :
  z_enum ALLOWED_CHANNELS v = Some c -> In c ALLOWED_CHANNELS.
Proof.
  destruct v as [| | b | z | s | shown]; try discriminate.
  cbn [z_enum]. destruct (includes_str ALLOWED_CHANNELS s) eqn:E; [|discriminate].
  intros H. injection H as <-. now apply allowed_iff.
Qed.

Lemma z_number_in_range (lo hi : Z) (v : JsValue) (n : Z) :
  z_number_min_max_optional lo hi v = Some (Some n) -> (lo <= n <= hi)%Z.
Proof.
  destruct v as [| | b | z | s | shown]; try discriminate.
  cbn [z_number_min_max_optional].
  destruct ((lo <=? z) && (z <=? hi))%Z eqn:E; [|discriminate].
  intros H. injection H as <-. apply andb_true_iff in E as [E1 E2].
  apply Z.leb_le in E1. apply Z.leb_le in E2. lia.
Qed.

Lemma QueryEventsInput_sound (params : Params) (v : QueryEventsInput.t) :
  QueryEventsInput.parse params = Some v ->
  In (QueryEventsInput.channel v) ALLOWED_CHANNELS
  /\ match QueryEventsInput.maxEvents v with
     | Some m => (1 <= m <= 1000)%Z
     | None => True
     end.
Proof.
  unfold QueryEventsInput.parse.
  destruct (z_enum _ _) as [c|] eqn:Ec; [|discriminate].
  destruct (z_string_optional (prop params (js "xpath"))); [|discriminate].
  destruct (z_string_optional (prop params (js "startTime"))); [|discriminate].
  destruct (z_string_optional (prop params (js "endTime"))); [|discriminate].
  destruct (z_number_min_max_optional _ _ _) as [m|] eqn:Em; [|discriminate].
  intros H. injection H as <-. cbn [QueryEventsInput.channel QueryEventsInput.maxEvents].
  split; [now apply (z_enum_allowed _ c Ec)|].
  destruct m as [m|]; [|exact I]. now apply (z_number_in_range 1 1000 _ m Em).
Qed.

Lemma GetEventInput_sound (params : Params) (v : GetEventInput.t) :
  GetEventInput.parse params = Some v ->
  In (GetEventInput.channel v) ALLOWED_CHANNELS
  /\ (0 <= GetEventInput.recordId v)%Z.
Proof.
  unfold GetEventInput.parse.
  destruct (z_enum _ _) as [c|] eqn:Ec; [|discriminate].
  destruct (prop params (js "recordId")) as [| | b | z | s | shown];
    try discriminate.
  cbn [z_number_int_nonnegative]. destruct (0 <=? z)%Z eqn:E; [|discriminate].
  intros H. injection H as <-. cbn [GetEventInput.channel GetEventInput.recordId].
  split; [now apply (z_enum_allowed _ c Ec) | now apply Z.leb_le].
Qed.

Lemma FindCrashSignalsInput_sound (params : Params)
      (v : FindCrashSignalsInput.t) :
  FindCrashSignalsInput.parse params = Some v ->
  match FindCrashSignalsInput.hours v with
  | Some h => (1 <= h <= 168)%Z
  | None => True
  end.
Proof.
  unfold FindCrashSignalsInput.parse.
  destruct (z_number_min_max_optional _ _ _) as [h|] eqn:Eh; [|discriminate].
  intros H. injection H as <-. cbn [FindCrashSignalsInput.hours].
  destruct h as [h|]; [|exact I]. now apply (z_number_in_range 1 168 _ h Eh).
Qed.

Lemma clampMaxEvents_in_schema (m : option Z) :
  match m with
  | Some x => (1 <= x <= 1000)%Z
  | None => True
  end ->
  clampMaxEvents m DEFAULT_CONFIG = match m with Some x => x | None => 100%Z end.
Proof.
  unfold clampMaxEvents. cbn [maxEventsPerQuery DEFAULT_CONFIG].
  destruct m; lia.
Qed.

Lemma clampHours_in_schema (h : option Z) :
  match h with
  | Some x => (1 <= x <= 168)%Z
  | None => True
  end ->
  clampHours h DEFAULT_CONFIG = match h with Some x => x | None => 24%Z end.
Proof.
  unfold clampHours. cbn [maxTimeRangeHours DEFAULT_CONFIG].
  destruct h; lia.
Qed.

Lemma toISOString_in_range (t : Z) :
  (Z.abs t <= 8640000000000000)%Z -> exists iso, toISOString t = Ok iso.
Proof.
  intros H. destruct (toISOString_cases t) as [E|[msg E]]; [exact E|].
  unfold toISOString in E.
  replace (8640000000000000 <? Z.abs t)%Z with false in E
    by (symmetry; now apply Z.ltb_ge).
  destruct (civil_from_days (t / msPerDay)) as [[y m] d]. discriminate.
Qed.

Section ToolFacts.
Context {host : Host} {typed : TypedSource host}.

(** X20.  What has passed the schema of a tool passes the guards of the
    reader unchanged.  For query_events the channel is accepted by
    validateChannel and the cap that queryEvents uses is the cap asked
    for, or 100; for get_event the two checks of getEvent pass, so that
    the tool runs its script and answers with what the log source gives:
    its failure, not found for null, or the record parsed; for
    find_crash_signals the hours that findCrashSignals looks back are the
    hours asked for, or 24. *)
Theorem tool_inputs_pass_the_guards (params : Params) :
  (forall v, QueryEventsInput.parse params = Some v ->
             validateChannel (VString (QueryEventsInput.channel v))
             = Ok (QueryEventsInput.channel v)
             /\ clampMaxEvents (QueryEventsInput.maxEvents v) DEFAULT_CONFIG
                = match QueryEventsInput.maxEvents v with
                  | Some m => m
                  | None => 100%Z
                  end)
  /\ (forall v st, GetEventInput.parse params = Some v ->
                   let answer :=
                     executePowerShell_event
                       st (getEventScript (GetEventInput.channel v)
                                          (GetEventInput.recordId v))
                       (queryTimeoutMs DEFAULT_CONFIG) in
                   get_event st params
                   = (fst answer,
                      match snd answer with
                      | Throw e => Raised e
                      | Ok None =>
                          Returned (GetEventResult.NotFound
                                      (GetEventInput.channel v)
                                      (GetEventInput.recordId v))
                      | Ok (Some raw) =>
                          Returned (GetEventResult.Found (parseEvent raw))
                      end))
  /\ (forall v, FindCrashSignalsInput.parse params = Some v ->
                clampHours (FindCrashSignalsInput.hours v) DEFAULT_CONFIG
                = match FindCrashSignalsInput.hours v with
                  | Some h => h
                  | None => 24%Z
                  end).
Proof.
  split; [|split].
  - intros v Hv. destruct (QueryEventsInput_sound params v Hv) as [Hc Hm].
    split; [now apply validateChannel_allowed_string|].
    now apply clampMaxEvents_in_schema.
  - intros v st Hv. destruct (GetEventInput_sound params v Hv) as [Hc Hr].
    cbv zeta. unfold get_event, getEvent. rewrite Hv.
    rewrite (validateChannel_allowed_string _ Hc).
    apply Z.ltb_ge in Hr. rewrite Hr.
    destruct (executePowerShell_event st _ _) as [st1 [[raw|]|e]]; reflexivity.
  - intros v Hv. apply clampHours_in_schema.
    now apply (FindCrashSignalsInput_sound params v).
Qed.

(** X21.  query_events reports what it did: when it returns, the count
    is the number of events returned, the channel is an allowed one, and
    truncated says whether the events returned are as many as the cap
    that queryEvents really used, or more. *)
Theorem query_events_reports_the_cap
        (st st1 : SourceState) (params : Params) (r : QueryEventsResult.t) :
  query_events st params = (st1, Returned r) ->
  exists v,
    QueryEventsInput.parse params = Some v
    /\ QueryEventsResult.channel r = QueryEventsInput.channel v
    /\ In (QueryEventsResult.channel r) ALLOWED_CHANNELS
    /\ QueryEventsResult.count r
       = Z.of_nat (List.length (QueryEventsResult.events r))
    /\ QueryEventsResult.truncated r
       = (clampMaxEvents (QueryEventsInput.maxEvents v) DEFAULT_CONFIG
          <=? QueryEventsResult.count r)%Z.
Proof.
  unfold query_events.
  destruct (QueryEventsInput.parse params) as [v|] eqn:Hv; [|discriminate].
  destruct (queryEvents st _ _ DEFAULT_CONFIG) as [st2 [events|e]];
    [|discriminate].
  intros H. injection H as _ <-. exists v.
  destruct (QueryEventsInput_sound params v Hv) as [Hc Hm].
  cbn [QueryEventsResult.channel QueryEventsResult.count
       QueryEventsResult.events QueryEventsResult.truncated].
  rewrite (clampMaxEvents_in_schema _ Hm). repeat split; assumption.
Qed.

(** X22.  find_crash_signals always answers.  For parameters that pass
    its schema and a clock from which the start of the scan can be
    written, the tool returns a result and no error, whatever the log
    source does: the two default channels are allowed, and a failure of
    the source is swallowed by the scan.  The hours reported as searched
    are the hours that the scan really looked back, and the summary is
    the summary of the signals returned. *)
Theorem find_crash_signals_always_answers
        (Date_now : Z) (st : SourceState) (params : Params)
        (v : FindCrashSignalsInput.t) :
  FindCrashSignalsInput.parse params = Some v ->
  let looked := clampHours (FindCrashSignalsInput.hours v) DEFAULT_CONFIG in
  (Z.abs (Date_now - looked * 60 * 60 * 1000) <= 8640000000000000)%Z ->
  exists st1 r,
    find_crash_signals Date_now st params = (st1, Returned r)
    /\ FindCrashSignalsResult.hoursSearched r = looked
    /\ FindCrashSignalsResult.summary r
       = summarize (FindCrashSignalsResult.crashes r).
Proof.
  intros Hv looked Hrange.
  destruct (toISOString_in_range _ Hrange) as [iso Hiso].
  unfold find_crash_signals. rewrite Hv.
  unfold findCrashSignals, scanStartTime. cbn [hours channels].
  fold looked. rewrite Hiso.
  rewrite (scanChannels_spec iso DEFAULT_CONFIG [js "System"; js "Application"])
    by (constructor; [left; reflexivity|];
        constructor; [right; left; reflexivity | constructor]).
  cbn [bind]. eexists. eexists. split; [reflexivity|].
  cbn [FindCrashSignalsResult.hoursSearched FindCrashSignalsResult.summary
       FindCrashSignalsResult.crashes].
  split; [|reflexivity].
  symmetry. apply clampHours_in_schema.
  now apply (FindCrashSignalsInput_sound params v).
Qed.

End ToolFacts.

Lemma tool_inputs_pass_the_guards_witness :
  validateChannel (VString (js "System")) = Ok (js "System")
  /\ clampMaxEvents (Some 50%Z) DEFAULT_CONFIG = 50%Z.
Proof.
  apply (proj1 (tool_inputs_pass_the_guards (host := exampleHost)
                  (typed := exampleTyped)
                  [(js "channel", VString (js "System"));
                   (js "maxEvents", VNumber 50)])
               (QueryEventsInput.mk (js "System") None None None (Some 50%Z))).
  vm_compute. reflexivity.
Defined.

Lemma query_events_reports_the_cap_witness :
  exists v,
    QueryEventsInput.parse [(js "channel", VString (js "Application"));
                            (js "maxEvents", VNumber 3)] = Some v
    /\ js "Application" = QueryEventsInput.channel v
    /\ In (js "Application") ALLOWED_CHANNELS
    /\ 3%Z = Z.of_nat (List.length
                         (map (parseEvent (host := exampleHost))
                              (eventsArray
                                 (PsArray [ sampleRaw 1 1000 "Application Error"
                                              "2025-12-26T09:00:00.000Z";
                                            sampleRaw 2 7034 "Service Control Manager"
                                              "2025-12-26T10:00:00.000Z";
                                            sampleRaw 3 1002 "Application Hang"
                                              "2025-12-26T09:00:00.000Z" ]))))
    /\ true = (clampMaxEvents (QueryEventsInput.maxEvents v) DEFAULT_CONFIG
               <=? 3)%Z.
Proof.
  apply (query_events_reports_the_cap (host := exampleHost)
           (tl sampleSource) []
           [(js "channel", VString (js "Application"));
            (js "maxEvents", VNumber 3)]
           {| QueryEventsResult.events :=
                map (parseEvent (host := exampleHost))
                    (eventsArray
                       (PsArray [ sampleRaw 1 1000 "Application Error"
                                    "2025-12-26T09:00:00.000Z";
                                  sampleRaw 2 7034 "Service Control Manager"
                                    "2025-12-26T10:00:00.000Z";
                                  sampleRaw 3 1002 "Application Hang"
                                    "2025-12-26T09:00:00.000Z" ]));
              QueryEventsResult.count := 3;
              QueryEventsResult.channel := js "Application";
              QueryEventsResult.truncated := true |}).
  vm_compute. reflexivity.
Defined.

Lemma find_crash_signals_always_answers_witness :
  exists st1 r,
    find_crash_signals (host := exampleHost) 1766745000000 sampleSource
                       [(js "hours", VNumber 48)] = (st1, Returned r)
    /\ FindCrashSignalsResult.hoursSearched r
       = clampHours (Some 48%Z) DEFAULT_CONFIG
    /\ FindCrashSignalsResult.summary r
       = summarize (FindCrashSignalsResult.crashes r).
Proof.
  apply (find_crash_signals_always_answers (host := exampleHost)
           1766745000000 sampleSource [(js "hours", VNumber 48)]
           (FindCrashSignalsInput.mk (Some 48%Z))).
  - vm_compute. reflexivity.
  - vm_compute. discriminate.
Defined.
